(** * Job Copilot: the RAG indexing and retrieval engine of geminiService.ts

    A shallow embedding of [generateRichCorpus], [enrichItem],
    [enrichAndEmbedCorpus], [extractRequirementsFromJD], [cosineSimilarity]
    and [getRagContext], with the properties the specification states about
    them.

    Conventions of the embedding:
    - a JavaScript number is an IEEE-754 binary64, that is a primitive
      [float]; the integer-valued options (counts and limits) are [Z];
    - a JavaScript string is a [string], one character for one code unit;
      [toUpperCase] acts on the ASCII letters;
    - an await on a remote service is a question put to an oracle that the
      function receives as an argument: every property below is stated for
      all oracles, that is for every behaviour of the service;
    - a [try]/[catch] is a value of [Completion] inspected by the handler;
    - the observers [onProgress] and [onTokenUsage] only receive
      notifications and never feed back into a result: they are left out. *)

From Stdlib Require Import List ZArith String Ascii Bool Arith Lia.
From Stdlib Require Import DecimalString Floats Permutation Sorted.
Import ListNotations.

Local Open Scope string_scope.
Local Open Scope list_scope.

(** ** What JavaScript provides *)

Module JS.

(** The outcome of a block that may throw. *)
Inductive Completion (A : Type) : Type :=
| Normal (a : A)
| Throw.
Arguments Normal {A} a.
Arguments Throw {A}.

Definition nl : string := String (ascii_of_nat 10) EmptyString.

(** [s] in a boolean position: the empty string is falsy. *)
Definition truthyStr (s : string) : bool := negb (s =? EmptyString)%string.

(** [s || d] on strings. *)
Definition orStr (s d : string) : string := if truthyStr s then s else d.

(** [o || d] where [o] may be undefined and is an array otherwise
    (an array, even an empty one, is truthy). *)
Definition orArr {A : Type} (o : option (list A)) (d : list A) : list A :=
  match o with Some l => l | None => d end.

(** [x] in a boolean position: [0], [-0] and [NaN] are falsy. *)
Definition truthyNum (x : float) : bool :=
  negb (PrimFloat.eqb x 0 || PrimFloat.is_nan x).

(** [x || d] where [x] is a number or undefined. *)
Definition orNum (x : option float) (d : float) : float :=
  match x with
  | Some v => if truthyNum v then v else d
  | None => d
  end.

(** [Array.prototype.join]. *)
Definition join (sep : string) (l : list string) : string :=
  String.concat sep l.

(** A relative index of [slice]: negative counts from the end, and the
    result is clamped to the array. *)
Definition relIndex (len : nat) (k : Z) : nat :=
  if (k <? 0)%Z then Z.to_nat (Z.max (Z.of_nat len + k) 0)
  else Nat.min (Z.to_nat k) len.

(** [Array.prototype.slice(s, e)]. *)
Definition slice {A : Type} (s e : Z) (l : list A) : list A :=
  let from := relIndex (List.length l) s in
  let to := relIndex (List.length l) e in
  firstn (to - from) (skipn from l).

(** [String.prototype.substring(0, n)] for a literal [n >= 0]. *)
Definition substring0 (n : nat) (s : string) : string :=
  String.substring 0 n s.

Definition upperAscii (c : ascii) : ascii :=
  let n := nat_of_ascii c in
  if (97 <=? n)%nat && (n <=? 122)%nat then ascii_of_nat (n - 32) else c.

Fixpoint toUpperCase (s : string) : string :=
  match s with
  | EmptyString => EmptyString
  | String c r => String (upperAscii c) (toUpperCase r)
  end.

(** The number a template literal prints for an integer. *)
Definition showInt (n : Z) : string :=
  DecimalString.NilZero.string_of_int (Z.to_int n).

(** [Array.prototype.sort(cmp)]: the sort is stable, and [cmp a b > 0] is
    what moves [a] behind [b].  [gt a b] stands for [cmp a b > 0].  For a
    consistent comparator every stable sort returns this list. *)
Section Sort.
Context {A : Type} (gt : A -> A -> bool).

Fixpoint insert (x : A) (l : list A) : list A :=
  match l with
  | [] => [x]
  | y :: r => if gt x y then y :: insert x r else x :: y :: r
  end.

Definition sort (l : list A) : list A := fold_right insert [] l.
End Sort.

End JS.

(** ** types.ts *)

(** The resume is what [JSON.parse] makes of a reply of the service, cast
    to [ParsedResume] unchecked, and the response schema requires the
    top-level keys only: any array, at the top level or inside an entry,
    may be absent. *)

Record BulletPoint := { raw_text : string }.

Module WorkExperience.
Record t := {
  company_name : string;
  role_title : string;
  dates_employed : string;
  location : string;
  bullet_points : option (list BulletPoint)
}.
End WorkExperience.

Module Project.
Record t := {
  project_name : string;
  role_title : string;
  technologies_used : option (list string);
  bullet_points : option (list BulletPoint)
}.
End Project.

Module Education.
Record t := {
  institution_name : string;
  degree_obtained : string;
  graduation_date : string;
  achievements : option (list string)
}.
End Education.

Module SkillGroup.
Record t := {
  category_name : string;
  items : option (list string)
}.
End SkillGroup.

Record ParsedResume := {
  professional_summary : option string;
  work_experience : option (list WorkExperience.t);
  projects : option (list Project.t);
  education : option (list Education.t);
  skills : option (list SkillGroup.t);
  certifications : option (list string)
}.

(** [Record<string, any>]: the values the chunker stores are strings and
    arrays of strings. *)
Inductive MetaValue :=
| MStr (s : string)
| MList (l : list string).

Definition Metadata := list (string * MetaValue).

Fixpoint metaGet (k : string) (m : Metadata) : option MetaValue :=
  match m with
  | [] => None
  | (k', v) :: r => if (k =? k')%string then Some v else metaGet k r
  end.

(** [m?.key === s] *)
Definition metaIs (key s : string) (m : Metadata) : bool :=
  match metaGet key m with
  | Some (MStr v) => (v =? s)%string
  | _ => false
  end.

Module CorpusChunk.
Record t := { text : string; metadata : Metadata }.
End CorpusChunk.

Module EnrichedCorpusItem.
Record t := {
  id : string;
  content : string;
  keywords : list string;
  skills_implied : list string;
  category : string;
  raw_source : string;
  metadata : Metadata;
  embedding : option (list float)
}.

(** [item.embedding = v] *)
Definition setEmbedding (v : list float) (d : t) : t :=
  {| id := id d; content := content d; keywords := keywords d;
     skills_implied := skills_implied d; category := category d;
     raw_source := raw_source d; metadata := metadata d;
     embedding := Some v |}.

Definition hasEmbedding (d : t) : bool :=
  match embedding d with Some _ => true | None => false end.
End EnrichedCorpusItem.

(** ** Reading what may be absent *)

(** Walking an absent array ([for ... of], [forEach], [map]), calling
    [join] on it or reading a property of an absent object throws a
    [TypeError]. *)
Definition present {A : Type} (o : option A) : JS.Completion A :=
  match o with
  | Some a => JS.Normal a
  | None => JS.Throw
  end.

Definition andThen {A B : Type} (c : JS.Completion A)
    (k : A -> JS.Completion B) : JS.Completion B :=
  match c with
  | JS.Normal a => k a
  | JS.Throw => JS.Throw
  end.

Notation "x <- c ;; k" := (andThen c (fun x => k))
  (at level 61, c at next level, right associativity).

(** ** generateRichCorpus *)

(** The chunker tests each top-level field for presence before it walks
    it; the arrays inside an entry are walked unguarded.  Each producer
    gives the chunks pushed for one entry, or throws. *)

Definition workChunks (job : WorkExperience.t)
  : JS.Completion (list CorpusChunk.t) :=
  let contextHeader :=
    ("ROLE: " ++ WorkExperience.role_title job
     ++ " | COMPANY: " ++ WorkExperience.company_name job
     ++ " | LOCATION: " ++ WorkExperience.location job
     ++ " | DATES: " ++ WorkExperience.dates_employed job)%string in
  bullet_points <- present (WorkExperience.bullet_points job) ;;
  JS.Normal
    (map (fun bullet =>
            let richText :=
              (contextHeader ++ JS.nl ++ "ACHIEVEMENT: " ++ raw_text bullet)%string in
            let meta :=
              [ ("type", MStr "work_experience");
                ("company", MStr (WorkExperience.company_name job));
                ("role", MStr (WorkExperience.role_title job));
                ("id", MStr (WorkExperience.company_name job ++ "_"
                             ++ WorkExperience.role_title job)%string) ] in
            {| CorpusChunk.text := richText; CorpusChunk.metadata := meta |})
         bullet_points).

Definition projectChunks (proj : Project.t)
  : JS.Completion (list CorpusChunk.t) :=
  technologies_used <- present (Project.technologies_used proj) ;;
  let techStack := JS.join ", " technologies_used in
  let contextHeader :=
    ("PROJECT: " ++ Project.project_name proj
     ++ " | ROLE: " ++ Project.role_title proj
     ++ " | TECH STACK: " ++ techStack)%string in
  bullet_points <- present (Project.bullet_points proj) ;;
  JS.Normal
    (map (fun bullet =>
            let richText :=
              (contextHeader ++ JS.nl ++ "DETAIL: " ++ raw_text bullet)%string in
            let meta :=
              [ ("type", MStr "project");
                ("technologies", MList technologies_used) ] in
            {| CorpusChunk.text := richText; CorpusChunk.metadata := meta |})
         bullet_points).

Definition educationChunks (edu : Education.t)
  : JS.Completion (list CorpusChunk.t) :=
  let contextHeader :=
    ("category: EDUCATION | degree: " ++ Education.degree_obtained edu
     ++ " | institution: " ++ Education.institution_name edu
     ++ " | year: " ++ Education.graduation_date edu)%string in
  let degree :=
    {| CorpusChunk.text :=
         (contextHeader ++ JS.nl ++ "SUMMARY: Graduated with "
          ++ Education.degree_obtained edu ++ ".")%string;
       CorpusChunk.metadata :=
         [ ("type", MStr "education"); ("subtype", MStr "degree") ] |} in
  achievements <- present (Education.achievements edu) ;;
  JS.Normal
    (degree
     :: map (fun achievement =>
               {| CorpusChunk.text :=
                    (contextHeader ++ JS.nl ++ "ACHIEVEMENT: "
                     ++ achievement)%string;
                  CorpusChunk.metadata :=
                    [ ("type", MStr "education");
                      ("subtype", MStr "achievement") ] |})
            achievements).

Definition skillChunk (skillGroup : SkillGroup.t)
  : JS.Completion (list CorpusChunk.t) :=
  let category := JS.orStr (SkillGroup.category_name skillGroup) "General" in
  items <- present (SkillGroup.items skillGroup) ;;
  let skillsList := JS.join ", " items in
  JS.Normal
    [ {| CorpusChunk.text :=
           ("category: SKILLS | group: " ++ category ++ JS.nl
            ++ "LIST: " ++ skillsList)%string;
         CorpusChunk.metadata :=
           [ ("type", MStr "skill_group"); ("category", MStr category) ] |} ].

Definition certificationChunk (cert : string) : CorpusChunk.t :=
  {| CorpusChunk.text := ("category: CERTIFICATION" ++ JS.nl ++ "TITLE: " ++ cert)%string;
     CorpusChunk.metadata := [ ("type", MStr "certification") ] |}.

Definition summaryChunk (summary : string) : CorpusChunk.t :=
  {| CorpusChunk.text :=
       ("category: PROFESSIONAL SUMMARY" ++ JS.nl ++ "TEXT: " ++ summary)%string;
     CorpusChunk.metadata := [ ("type", MStr "summary") ] |}.

(** [for (const x of l) { ... push ... }]: the chunks pushed, entry after
    entry, unless the body throws on one of them. *)
Fixpoint forEach {A B : Type} (l : list A)
    (body : A -> JS.Completion (list B)) : JS.Completion (list B) :=
  match l with
  | [] => JS.Normal []
  | x :: rest =>
      pushed <- body x ;;
      later <- forEach rest body ;;
      JS.Normal (pushed ++ later)
  end.

(** [if (field) { for (const x of field) ... }] *)
Definition forEachOf {A B : Type} (field : option (list A))
    (body : A -> JS.Completion (list B)) : JS.Completion (list B) :=
  match field with
  | Some l => forEach l body
  | None => JS.Normal []
  end.

Definition generateRichCorpus (resumeJson : ParsedResume)
  : JS.Completion (list CorpusChunk.t) :=
  work <- forEachOf (work_experience resumeJson) workChunks ;;
  proj <- forEachOf (projects resumeJson) projectChunks ;;
  edu <- forEachOf (education resumeJson) educationChunks ;;
  skill <- forEachOf (skills resumeJson) skillChunk ;;
  cert <- forEachOf (certifications resumeJson)
            (fun c => JS.Normal [certificationChunk c]) ;;
  JS.Normal
    (work ++ proj ++ edu ++ skill ++ cert
     ++ match professional_summary resumeJson with
        | Some s => if JS.truthyStr s then [summaryChunk s] else []
        | None => []
        end).

(** ** The remote services *)

(** What a call of [ai.models.generateContent] can come to, seen from the
    code that reads [response.text] and parses it.  [A] is the shape the
    response schema asks for. *)
Inductive GenReply (A : Type) : Type :=
| Rejected            (* the call throws: time-out, network, quota *)
| NoText              (* the call resolves, [response.text] is undefined or empty *)
| Malformed           (* [response.text] is there, reading it as JSON throws *)
| Parsed (data : A).  (* [JSON.parse(response.text)] is [data] *)
Arguments Rejected {A}.
Arguments NoText {A}.
Arguments Malformed {A}.
Arguments Parsed {A} data.

(** What a call of [ai.models.embedContent] can come to: it throws, or it
    resolves to a response whose [embeddings] may be missing, each entry of
    which may lack its [values]. *)
Inductive EmbedReply : Type :=
| EmbedRejected
| EmbedResponse (embeddings : option (list (option (list float)))).

(** The object [JSON.parse] yields under [enrichmentSchema].  The schema
    requires the four fields; the source guards the two arrays against
    absence all the same, and reads the two strings as they are. *)
Module EnrichmentData.
Record t := {
  fused_sentence : string;
  keywords : option (list string);
  skills_implied : option (list string);
  category : string
}.
End EnrichmentData.

(** ** enrichItem *)

(** The item built in the [catch] branch. *)
Definition fallbackItem (item : CorpusChunk.t) (rid : string)
  : EnrichedCorpusItem.t :=
  {| EnrichedCorpusItem.id := rid;
     EnrichedCorpusItem.content := CorpusChunk.text item;
     EnrichedCorpusItem.keywords := [];
     EnrichedCorpusItem.skills_implied := [];
     EnrichedCorpusItem.category := "unknown";
     EnrichedCorpusItem.raw_source := CorpusChunk.text item;
     EnrichedCorpusItem.metadata := CorpusChunk.metadata item;
     EnrichedCorpusItem.embedding := None |}.

(** The body of the [try].  [reply] is the answer of the text-generation
    service to the prompt built around [item.text]; [rid] is the string
    [Math.random().toString(36).substring(7)] drawn for this call.  The
    result [None] is the [null] of the source. *)
Definition enrichItem_try (item : CorpusChunk.t)
    (reply : GenReply EnrichmentData.t) (rid : string)
  : JS.Completion (option EnrichedCorpusItem.t) :=
  match reply with
  | Rejected => JS.Throw
  | NoText => JS.Normal None
  | Malformed => JS.Throw
  | Parsed data =>
      JS.Normal (Some
        {| EnrichedCorpusItem.id := rid;
           EnrichedCorpusItem.content := EnrichmentData.fused_sentence data;
           EnrichedCorpusItem.keywords := JS.orArr (EnrichmentData.keywords data) [];
           EnrichedCorpusItem.skills_implied :=
             JS.orArr (EnrichmentData.skills_implied data) [];
           EnrichedCorpusItem.category := EnrichmentData.category data;
           EnrichedCorpusItem.raw_source := CorpusChunk.text item;
           EnrichedCorpusItem.metadata := CorpusChunk.metadata item;
           EnrichedCorpusItem.embedding := None |})
  end.

Definition enrichItem (item : CorpusChunk.t)
    (reply : GenReply EnrichmentData.t) (rid : string)
  : option EnrichedCorpusItem.t :=
  match enrichItem_try item reply rid with
  | JS.Normal res => res
  | JS.Throw => Some (fallbackItem item rid)
  end.

(** ** enrichAndEmbedCorpus *)

Definition BATCH_SIZE : nat := 5.
Definition EMBED_BATCH_SIZE : nat := 20.

(** [l[k] = x], for [k] inside [l]. *)
Fixpoint setNth {A : Type} (k : nat) (x : A) (l : list A) {struct l} : list A :=
  match l, k with
  | [], _ => []
  | _ :: r, O => x :: r
  | y :: r, S k' => y :: setNth k' x r
  end.

(** [results.forEach(res => { if (res) enrichedItems.push(res) })] *)
Definition pushResults {A : Type} (results : list (option A)) (acc : list A)
  : list A :=
  fold_left (fun acc res => match res with Some r => acc ++ [r] | None => acc end)
            results acc.

(** [response.embeddings.forEach((emb, idx) => ...)] for the batch that
    starts at [i]; [k] is [i + idx].  Writing to an index past the end of
    [enrichedItems] throws a TypeError, which leaves the [forEach] and lands
    in the [catch] of the batch: what was written before stays. *)
Fixpoint attachEmbeddings (k : nat) (embeddings : list (option (list float)))
    (enrichedItems : list EnrichedCorpusItem.t) : list EnrichedCorpusItem.t :=
  match embeddings with
  | [] => enrichedItems
  | emb :: rest =>
      match emb with
      | Some values =>
          match nth_error enrichedItems k with
          | Some d =>
              attachEmbeddings (S k) rest
                (setNth k (EnrichedCorpusItem.setEmbedding values d) enrichedItems)
          | None => enrichedItems
          end
      | None => attachEmbeddings (S k) rest enrichedItems
      end
  end.

Section Indexing.

(** [gen k]: the reply of the text-generation service to the prompt of
    the chunk at position [k]; [rnd k]: the random id drawn for it;
    [embed i texts]: the reply of the embedding service to the batch
    [texts] that starts at position [i]. *)
Variable gen : nat -> GenReply EnrichmentData.t.
Variable rnd : nat -> string.
Variable embed : nat -> list string -> EmbedReply.

Variable corpus : list CorpusChunk.t.

(** The loop [for (let i = 0; i < corpus.length; i += BATCH_SIZE)]; every
    round moves [i] forward, so [corpus.length] rounds are enough. *)
Fixpoint enrichLoop (fuel i : nat) (enrichedItems : list EnrichedCorpusItem.t)
  : list EnrichedCorpusItem.t :=
  match fuel with
  | O => enrichedItems
  | S fuel' =>
      if (i <? List.length corpus)%nat then
        let batch :=
          JS.slice (Z.of_nat i) (Z.of_nat (i + BATCH_SIZE)) corpus in
        let results :=
          map (fun '(k, item) => enrichItem item (gen k) (rnd k))
              (combine (seq i (List.length batch)) batch) in
        enrichLoop fuel' (i + BATCH_SIZE) (pushResults results enrichedItems)
      else enrichedItems
  end.

Definition enrichmentPhase : list EnrichedCorpusItem.t :=
  enrichLoop (List.length corpus) 0 [].

(** One round of the embedding loop: the [try] around the call and the
    [forEach]. *)
Definition embedBatch (i : nat) (batchTexts : list string)
    (enrichedItems : list EnrichedCorpusItem.t) : list EnrichedCorpusItem.t :=
  match embed i batchTexts with
  | EmbedRejected => enrichedItems
  | EmbedResponse None => enrichedItems
  | EmbedResponse (Some embeddings) =>
      attachEmbeddings i embeddings enrichedItems
  end.

Fixpoint embedLoop (fuel i : nat) (textsToEmbed : list string)
    (enrichedItems : list EnrichedCorpusItem.t) : list EnrichedCorpusItem.t :=
  match fuel with
  | O => enrichedItems
  | S fuel' =>
      if (i <? List.length textsToEmbed)%nat then
        let batchTexts :=
          JS.slice (Z.of_nat i) (Z.of_nat (i + EMBED_BATCH_SIZE)) textsToEmbed in
        embedLoop fuel' (i + EMBED_BATCH_SIZE) textsToEmbed
                  (embedBatch i batchTexts enrichedItems)
      else enrichedItems
  end.

Definition embeddingPhase (enrichedItems : list EnrichedCorpusItem.t)
  : list EnrichedCorpusItem.t :=
  let textsToEmbed := map EnrichedCorpusItem.content enrichedItems in
  embedLoop (List.length textsToEmbed) 0 textsToEmbed enrichedItems.

Definition enrichAndEmbedCorpus : list EnrichedCorpusItem.t :=
  filter EnrichedCorpusItem.hasEmbedding (embeddingPhase enrichmentPhase).

End Indexing.

(** ** cosineSimilarity *)

(** [v[i]] used as a number: an index past the end reads [undefined], which
    arithmetic turns into [NaN]. *)
Definition numAt (v : list float) (i : nat) : float := nth i v nan.

Definition cosineSimilarity (vecA vecB : list float) : float :=
  let '(dotProduct, normA, normB) :=
    fold_left
      (fun '(dotProduct, normA, normB) i =>
         ((dotProduct + numAt vecA i * numAt vecB i)%float,
          (normA + numAt vecA i * numAt vecA i)%float,
          (normB + numAt vecB i * numAt vecB i)%float))
      (seq 0 (List.length vecA))
      (0%float, 0%float, 0%float) in
  (dotProduct / (sqrt normA * sqrt normB))%float.

(** ** extractRequirementsFromJD *)

Definition extractPrompt (jdText : string) (requirementCount : Z) : string :=
  ("
    Analyze the job description below, extract top " ++ JS.showInt requirementCount
   ++ " most critical hard skills, technologies, or competencies required.
    
    Only keep competencies, tools, or outcomes that are specific to this role.
    Ignore generic expectations.

    Job Description:
    " ++ jdText ++ "

    Rules:
    - Each requirement must be one concise sentence.
    - Capture only the core differentiators (domain expertise, tech stack, regulatory knowledge, target metrics).
    - Do NOT include soft skills unless unusual.
  ")%string.

(** [gen prompt] is the reply of the text-generation service; the response
    schema asks for an array of strings.  [requirementCount] reaches the
    service inside the prompt and is used nowhere else. *)
Definition extractRequirementsFromJD_try (jdText : string) (requirementCount : Z)
    (gen : string -> GenReply (list string)) : JS.Completion (list string) :=
  match gen (extractPrompt jdText requirementCount) with
  | Rejected => JS.Throw
  | NoText => JS.Normal []
  | Malformed => JS.Throw
  | Parsed requirements => JS.Normal requirements
  end.

Definition extractRequirementsFromJD (jdText : string) (requirementCount : Z)
    (gen : string -> GenReply (list string)) : list string :=
  match extractRequirementsFromJD_try jdText requirementCount gen with
  | JS.Normal requirements => requirements
  | JS.Throw => []
  end.

(** ** getRagContext *)

Record RagOptions := {
  includeSummary : option bool;
  includeEducation : option bool;
  requirementCount : option Z;
  reqMatchCount : option Z;
  finalContextLimit : option Z
}.

(** [options = {}] *)
Definition noOptions : RagOptions :=
  {| includeSummary := None; includeEducation := None; requirementCount := None;
     reqMatchCount := None; finalContextLimit := None |}.

(** A destructuring default: [{ field = d } = options]. *)
Definition orDefault {A : Type} (d : A) (o : option A) : A :=
  match o with Some a => a | None => d end.

(** [Set<string>], in insertion order. *)
Definition setHas (x : string) (s : list string) : bool :=
  existsb (String.eqb x) s.

Definition setAdd (x : string) (s : list string) : list string :=
  if setHas x s then s else s ++ [x].

(** [Map<string, number>], in insertion order: [set] on a present key keeps
    the key where it is. *)
Fixpoint mapGet (k : string) (m : list (string * float)) : option float :=
  match m with
  | [] => None
  | (k', v) :: r => if (k =? k')%string then Some v else mapGet k r
  end.

Fixpoint mapSet (k : string) (v : float) (m : list (string * float))
  : list (string * float) :=
  match m with
  | [] => [(k, v)]
  | (k', v') :: r =>
      if (k =? k')%string then (k, v) :: r else (k', v') :: mapSet k v r
  end.

Record ScoreEntry := { entry_id : string; score : float }.

(** [(a, b) => b.score - a.score], as the sort reads it: is it positive? *)
Definition byScoreDesc (a b : ScoreEntry) : bool :=
  PrimFloat.ltb 0 (score b - score a).

(** [(a, b) => b[1] - a[1]] *)
Definition byTotalDesc (a b : string * float) : bool :=
  PrimFloat.ltb 0 (snd b - snd a).

(** [vectorStore.filter(d => d.metadata?.type === ty).forEach(d => finalIds.add(d.id))] *)
Definition addOfType (ty : string) (vectorStore : list EnrichedCorpusItem.t)
    (finalIds : list string) : list string :=
  fold_left (fun s d => setAdd (EnrichedCorpusItem.id d) s)
            (filter (fun d => metaIs "type" ty (EnrichedCorpusItem.metadata d))
                    vectorStore)
            finalIds.

Definition fixedIds (includeSummary includeEducation : bool)
    (vectorStore : list EnrichedCorpusItem.t) : list string :=
  let finalIds := [] in
  let finalIds :=
    if includeSummary then addOfType "summary" vectorStore finalIds else finalIds in
  if includeEducation then addOfType "education" vectorStore finalIds else finalIds.

(** The requirement strings handed to the embedding service. *)
Definition ragRequirements (jdText : string) (requirementCount : Z)
    (gen : string -> GenReply (list string)) : list string :=
  let requirements := extractRequirementsFromJD jdText requirementCount gen in
  if (List.length requirements =? 0)%nat then [JS.substring0 1000 jdText]
  else requirements.

Definition reqEmbeddingsOf (resp : EmbedReply) : list (list float) :=
  match resp with
  | EmbedRejected => []
  | EmbedResponse None => []
  | EmbedResponse (Some embeddings) => map (fun e => JS.orArr e []) embeddings
  end.

Definition scoresFor (reqVec : list float) (vectorStore : list EnrichedCorpusItem.t)
  : list ScoreEntry :=
  map (fun item =>
         {| entry_id := EnrichedCorpusItem.id item;
            score := match EnrichedCorpusItem.embedding item with
                     | Some e => cosineSimilarity reqVec e
                     | None => (-1)%float
                     end |})
      vectorStore.

(** [scores.sort(...)] followed by [scores.slice(0, reqMatchCount)] *)
Definition hitsFor (reqMatchCount : Z) (reqVec : list float)
    (vectorStore : list EnrichedCorpusItem.t) : list ScoreEntry :=
  JS.slice 0 reqMatchCount (JS.sort byScoreDesc (scoresFor reqVec vectorStore)).

Definition addHit (chunkScores : list (string * float)) (hit : ScoreEntry)
  : list (string * float) :=
  let current := JS.orNum (mapGet (entry_id hit) chunkScores) 0 in
  mapSet (entry_id hit) (current + score hit)%float chunkScores.

(** The body of [reqEmbeddings.forEach]. *)
Definition addRequirement (reqMatchCount : Z)
    (vectorStore : list EnrichedCorpusItem.t)
    (chunkScores : list (string * float)) (reqVec : list float)
  : list (string * float) :=
  fold_left addHit (hitsFor reqMatchCount reqVec vectorStore) chunkScores.

Definition aggregate (reqMatchCount : Z) (vectorStore : list EnrichedCorpusItem.t)
    (reqEmbeddings : list (list float)) : list (string * float) :=
  fold_left (addRequirement reqMatchCount vectorStore) reqEmbeddings [].

Definition rankIds (chunkScores : list (string * float)) : list string :=
  map fst (JS.sort byTotalDesc chunkScores).

(** [for (const uid of sortedIds) { if (finalIds.size >= bound) break; finalIds.add(uid) }] *)
Fixpoint addRanked (bound : Z) (sortedIds finalIds : list string) : list string :=
  match sortedIds with
  | [] => finalIds
  | uid :: rest =>
      if (Z.of_nat (List.length finalIds) >=? bound)%Z then finalIds
      else addRanked bound rest (setAdd uid finalIds)
  end.

Definition renderBlock (doc : EnrichedCorpusItem.t) : string :=
  let category := JS.toUpperCase (JS.orStr (EnrichedCorpusItem.category doc) "General") in
  let keywords := EnrichedCorpusItem.keywords doc in
  let skills := EnrichedCorpusItem.skills_implied doc in
  let metaTags := JS.join ", " (JS.slice 0 8 (keywords ++ skills)) in
  ("[" ++ category ++ "] " ++ EnrichedCorpusItem.content doc ++ JS.nl
   ++ "(Tags: " ++ metaTags ++ ")")%string.

(** The map [docsById] of the source is filled and never read: it is left
    out. *)
Section Retrieval.

(** [gen prompt]: the reply of the text-generation service to the
    extraction prompt; [embed contents]: the reply of the embedding
    service to the requirement strings. *)
Variable gen : string -> GenReply (list string).
Variable embed : list string -> EmbedReply.

Variable jdText : string.
Variable vectorStore : list EnrichedCorpusItem.t.
Variable options : RagOptions.

(** The ids in [finalIds] when the rendering starts. *)
Definition ragFinalIds : list string :=
  let includeSummary := orDefault true (includeSummary options) in
  let includeEducation := orDefault true (includeEducation options) in
  let requirementCount := orDefault 6%Z (requirementCount options) in
  let reqMatchCount := orDefault 6%Z (reqMatchCount options) in
  let finalContextLimit := orDefault 15%Z (finalContextLimit options) in
  let finalIds := fixedIds includeSummary includeEducation vectorStore in
  let requirements := ragRequirements jdText requirementCount gen in
  let reqEmbeddings := reqEmbeddingsOf (embed requirements) in
  let chunkScores := aggregate reqMatchCount vectorStore reqEmbeddings in
  let sortedIds := rankIds chunkScores in
  let initialFixedCount := List.length finalIds in
  addRanked (finalContextLimit + Z.of_nat initialFixedCount) sortedIds finalIds.

(** The documents a block is rendered for, in store order. *)
Definition ragSelected : list EnrichedCorpusItem.t :=
  filter (fun doc => setHas (EnrichedCorpusItem.id doc) ragFinalIds) vectorStore.

Definition ragContextBlocks : list string := map renderBlock ragSelected.

Definition getRagContext : string :=
  JS.join (JS.nl ++ JS.nl)%string ragContextBlocks.

End Retrieval.

(** * The vocabulary of the specification *)

(** ** Chunker *)

Definition hasType (ty : string) (c : CorpusChunk.t) : bool :=
  metaIs "type" ty (CorpusChunk.metadata c).

Definition hasSubtype (ty sub : string) (c : CorpusChunk.t) : bool :=
  metaIs "type" ty (CorpusChunk.metadata c)
  && metaIs "subtype" sub (CorpusChunk.metadata c).

Definition countOf {A : Type} (p : A -> bool) (l : list A) : nat :=
  List.length (filter p l).

(** The entries of a collection of the document, none when it is absent. *)
Definition entries {A : Type} (field : option (list A)) : list A :=
  match field with Some l => l | None => [] end.

Definition total {A : Type} (f : A -> nat) (l : list A) : nat :=
  list_sum (map f l).

Definition summaryCount (resumeJson : ParsedResume) : nat :=
  match professional_summary resumeJson with
  | Some s => if JS.truthyStr s then 1 else 0
  | None => 0
  end.

Definition isPresent {A : Type} (o : option A) : bool :=
  match o with Some _ => true | None => false end.

(** An entry carries the arrays that the interfaces of types.ts declare
    for it. *)
Definition jobComplete (job : WorkExperience.t) : bool :=
  isPresent (WorkExperience.bullet_points job).

Definition projectComplete (proj : Project.t) : bool :=
  isPresent (Project.technologies_used proj)
  && isPresent (Project.bullet_points proj).

Definition educationComplete (edu : Education.t) : bool :=
  isPresent (Education.achievements edu).

Definition skillGroupComplete (skillGroup : SkillGroup.t) : bool :=
  isPresent (SkillGroup.items skillGroup).

(** Every entry of every collection of the document is complete; nothing
    is asked of the collections themselves, which may be absent. *)
Definition entriesComplete (resumeJson : ParsedResume) : bool :=
  forallb jobComplete (entries (work_experience resumeJson))
  && forallb projectComplete (entries (projects resumeJson))
  && forallb educationComplete (entries (education resumeJson))
  && forallb skillGroupComplete (entries (skills resumeJson)).

(** A job that came back from the parser without its bullets. *)
Definition bulletlessResume : ParsedResume :=
  {| professional_summary := Some "Backend engineer";
     work_experience :=
       Some [ {| WorkExperience.company_name := "Acme";
                 WorkExperience.role_title := "Engineer";
                 WorkExperience.dates_employed := "2020-2023";
                 WorkExperience.location := "Berlin";
                 WorkExperience.bullet_points := None |} ];
     projects := None;
     education := None;
     skills := None;
     certifications := None |}.

(** ** Enricher *)

Definition isNoText {A : Type} (reply : GenReply A) : bool :=
  match reply with NoText => true | _ => false end.

(** How many of the first [n] chunks get a response without text. *)
Definition countNoText {A : Type} (gen : nat -> GenReply A) (n : nat) : nat :=
  countOf (fun k => isNoText (gen k)) (seq 0 n).

Definition exampleChunk : CorpusChunk.t :=
  {| CorpusChunk.text := "ROLE: Engineer | COMPANY: Acme";
     CorpusChunk.metadata := [ ("type", MStr "work_experience") ] |}.

Definition resultList {A : Type} (res : option A) : list A :=
  match res with Some r => [r] | None => [] end.

(** The chunks of [l] enriched one after the other, the first of them being
    the chunk at position [i] of the corpus; a [null] result leaves no
    item. *)
Fixpoint enrichFrom (gen : nat -> GenReply EnrichmentData.t) (rnd : nat -> string)
    (i : nat) (l : list CorpusChunk.t) : list EnrichedCorpusItem.t :=
  match l with
  | [] => []
  | item :: r =>
      resultList (enrichItem item (gen i) (rnd i)) ++ enrichFrom gen rnd (S i) r
  end.

(** ** Vectorizer *)

Fixpoint mapFrom {A B : Type} (f : nat -> A -> B) (i : nat) (l : list A) : list B :=
  match l with
  | [] => []
  | x :: r => f i x :: mapFrom f (S i) r
  end.

(** The vector returned for the text at position [k]: the entry at the
    batch-relative position [k mod 20] of the response to the batch
    [k / 20], when that entry is there and has values. *)
Definition returnedAt (embed : nat -> list string -> EmbedReply)
    (textsToEmbed : list string) (k : nat) : option (list float) :=
  let i := (k / EMBED_BATCH_SIZE) * EMBED_BATCH_SIZE in
  let batchTexts :=
    JS.slice (Z.of_nat i) (Z.of_nat (i + EMBED_BATCH_SIZE)) textsToEmbed in
  match embed i batchTexts with
  | EmbedResponse (Some embeddings) =>
      match nth_error embeddings (k mod EMBED_BATCH_SIZE) with
      | Some (Some values) => Some values
      | _ => None
      end
  | _ => None
  end.

(** The item at position [k] with the vector returned for it, if any. *)
Definition withReturned (embed : nat -> list string -> EmbedReply)
    (textsToEmbed : list string) (k : nat) (d : EnrichedCorpusItem.t)
  : EnrichedCorpusItem.t :=
  match returnedAt embed textsToEmbed k with
  | Some values => EnrichedCorpusItem.setEmbedding values d
  | None => d
  end.

Definition attachByPosition (embed : nat -> list string -> EmbedReply)
    (enrichedItems : list EnrichedCorpusItem.t) : list EnrichedCorpusItem.t :=
  mapFrom (withReturned embed (map EnrichedCorpusItem.content enrichedItems))
          0 enrichedItems.

(** The embedding service keeps to its interface: a response has no more
    entries than the batch it answers has texts. *)
Definition aligned (embed : nat -> list string -> EmbedReply) : Prop :=
  forall i texts embeddings,
    embed i texts = EmbedResponse (Some embeddings) ->
    List.length embeddings <= List.length texts.

(** What [forEach] writes at the positions from [k] on: the entry
    [j - k] of the response goes to position [j]. *)
Definition written (embeddings : list (option (list float))) (k j : nat)
    (d : EnrichedCorpusItem.t) : EnrichedCorpusItem.t :=
  if (k <=? j)%nat then
    match nth_error embeddings (j - k) with
    | Some (Some values) => EnrichedCorpusItem.setEmbedding values d
    | _ => d
    end
  else d.

(** A corpus of 21 chunks, a text-generation service that is down, and an
    embedding service that answers the first batch of 20 texts with 21
    vectors and fails on the second batch. *)
Definition corpus21 : list CorpusChunk.t := repeat exampleChunk 21.

Definition genDown : nat -> GenReply EnrichmentData.t := fun _ => Rejected.

Definition rndOfPosition : nat -> string := fun k => JS.showInt (Z.of_nat k).

Definition embedOneTooMany : nat -> list string -> EmbedReply :=
  fun i _ =>
    if (i =? 0)%nat then EmbedResponse (Some (repeat (Some [1%float]) 21))
    else EmbedRejected.

(** An embedding service that returns one vector per text. *)
Definition embedEach : nat -> list string -> EmbedReply :=
  fun _ texts => EmbedResponse (Some (map (fun _ => Some [1%float]) texts)).

(** ** Requirement extractor *)

(** A text-generation service that lists three requirements whatever the
    prompt asks for. *)
Definition genThree : string -> GenReply (list string) :=
  fun _ => Parsed ["Python"; "Kubernetes"; "SQL"].

(** ** Retriever *)

(** A store item with the given id, metadata type and embedding. *)
Definition storeItem (id ty : string) (e : option (list float))
  : EnrichedCorpusItem.t :=
  {| EnrichedCorpusItem.id := id;
     EnrichedCorpusItem.content := "I did " ++ id;
     EnrichedCorpusItem.keywords := ["k"];
     EnrichedCorpusItem.skills_implied := ["s"];
     EnrichedCorpusItem.category := "work";
     EnrichedCorpusItem.raw_source := id;
     EnrichedCorpusItem.metadata := [ ("type", MStr ty) ];
     EnrichedCorpusItem.embedding := e |}.

(** Is the number in [[-1, 1]]? *)
Definition inUnitInterval (x : float) : bool :=
  PrimFloat.leb (-1) x && PrimFloat.leb x 1.

(** A fixed inclusion: a summary when summaries are included, an education
    item when education is. *)
Definition isFixed (includeSummary includeEducation : bool)
    (d : EnrichedCorpusItem.t) : bool :=
  (includeSummary && metaIs "type" "summary" (EnrichedCorpusItem.metadata d))
  || (includeEducation && metaIs "type" "education" (EnrichedCorpusItem.metadata d)).

Definition fixedCount (includeSummary includeEducation : bool)
    (vectorStore : list EnrichedCorpusItem.t) : nat :=
  countOf (isFixed includeSummary includeEducation) vectorStore.

Definition storeIds (vectorStore : list EnrichedCorpusItem.t) : list string :=
  map EnrichedCorpusItem.id vectorStore.

(** Two items that drew the same random id. *)
Definition collidingStore : list EnrichedCorpusItem.t :=
  [ storeItem "a" "work_experience" (Some [1; 0]%float);
    storeItem "a" "project" (Some [1; 0]%float) ].

(** A store whose only item has no embedding. *)
Definition unembeddedStore : list EnrichedCorpusItem.t :=
  [ storeItem "a" "work_experience" None ].

Definition genOne : string -> GenReply (list string) :=
  fun _ => Parsed ["Python"].

Definition embedOne : list string -> EmbedReply :=
  fun _ => EmbedResponse (Some [Some [1; 0]%float]).

Definition limitOne : RagOptions :=
  {| includeSummary := None; includeEducation := None; requirementCount := None;
     reqMatchCount := None; finalContextLimit := Some 1%Z |}.

(** ** Score aggregation *)

(** The comparator is consistent on the values of [l]: never positive in
    both directions, and transitive where it is not positive.  This is the
    condition under which the language fixes the order [sort] returns. *)
Definition consistentb {A : Type} (gt : A -> A -> bool) (l : list A) : bool :=
  forallb (fun a =>
    forallb (fun b =>
      implb (gt a b) (negb (gt b a))
      && forallb (fun c => implb (negb (gt a b) && negb (gt b c)) (negb (gt a c))) l)
      l)
    l.

(** The two halves of consistency. *)
Definition asymOn {A : Type} (gt : A -> A -> bool) (l : list A) : Prop :=
  forall a b, In a l -> In b l -> gt a b = true -> gt b a = false.

Definition transOn {A : Type} (gt : A -> A -> bool) (l : list A) : Prop :=
  forall a b c, In a l -> In b l -> In c l ->
    gt a b = false -> gt b c = false -> gt a c = false.

(** [a] comes before [b] when [cmp a b] is not positive. *)
Definition notAfter {A : Type} (gt : A -> A -> bool) (a b : A) : Prop :=
  gt a b = false.

(** The hit with that id in the top list of the requirement. *)
Definition hitOf (reqMatchCount : Z) (vectorStore : list EnrichedCorpusItem.t)
    (reqVec : list float) (id : string) : option ScoreEntry :=
  find (fun hit => (entry_id hit =? id)%string)
       (hitsFor reqMatchCount reqVec vectorStore).

Definition inTopList (reqMatchCount : Z) (vectorStore : list EnrichedCorpusItem.t)
    (reqVec : list float) (id : string) : bool :=
  match hitOf reqMatchCount vectorStore reqVec id with
  | Some _ => true
  | None => false
  end.

(** The similarity of the store item with that id to the requirement: its
    cosine similarity when it has an embedding. *)
Definition similarityOf (vectorStore : list EnrichedCorpusItem.t)
    (reqVec : list float) (id : string) : float :=
  match find (fun e => (entry_id e =? id)%string) (scoresFor reqVec vectorStore) with
  | Some e => score e
  | None => 0%float
  end.

(** The sum, over the requirements in whose top list the id appears, of its
    similarity to that requirement, taken in the order of the
    requirements. *)
Definition summedSimilarity (reqMatchCount : Z)
    (vectorStore : list EnrichedCorpusItem.t) (reqEmbeddings : list (list float))
    (id : string) : float :=
  fold_left
    (fun acc reqVec =>
       if inTopList reqMatchCount vectorStore reqVec id
       then (acc + similarityOf vectorStore reqVec id)%float
       else acc)
    reqEmbeddings 0%float.

Definition inSomeTopList (reqMatchCount : Z)
    (vectorStore : list EnrichedCorpusItem.t) (reqEmbeddings : list (list float))
    (id : string) : bool :=
  existsb (fun reqVec => inTopList reqMatchCount vectorStore reqVec id) reqEmbeddings.

(** [x || 0] is [x]: the number is neither NaN nor the negative zero. *)
Definition plainNumber (x : float) : Prop := JS.orNum (Some x) 0 = x.

(** No running total of a store id is NaN or the negative zero. *)
Definition plainTotals (reqMatchCount : Z)
    (vectorStore : list EnrichedCorpusItem.t) (reqEmbeddings : list (list float))
  : Prop :=
  Forall (fun id =>
    Forall (fun n =>
      plainNumber
        (summedSimilarity reqMatchCount vectorStore (firstn n reqEmbeddings) id))
      (seq 0 (S (List.length reqEmbeddings))))
    (storeIds vectorStore).

(** A store of one embedded item, and the reply of the embedding service to
    two requirements, the first of which came back without values. *)
Definition singleStore : list EnrichedCorpusItem.t :=
  [ storeItem "a" "work_experience" (Some [1]%float) ].

Definition replyMissingValues : EmbedReply :=
  EmbedResponse (Some [None; Some [1]%float]).

(** The scenario of the specification: a store of five embedded items and
    two requirement vectors, with [reqMatchCount = 2].  The item "c" is
    second in both top lists. *)
Definition fiveStore : list EnrichedCorpusItem.t :=
  [ storeItem "a" "work_experience" (Some [1; 0]%float);
    storeItem "b" "project" (Some [0; 1]%float);
    storeItem "c" "skill_group" (Some [1; 1]%float);
    storeItem "d" "certification" (Some [-1; 0]%float);
    storeItem "e" "project" (Some [0; -1]%float) ].

Definition twoRequirements : list (list float) :=
  [ [1; 0]%float; [0; 1]%float ].

(** The scenario of the specification: one bullet, a stub enricher and a
    stub vectorizer. *)
Definition acmeResume : ParsedResume :=
  {| professional_summary := None;
     work_experience :=
       Some [ {| WorkExperience.company_name := "Acme";
                 WorkExperience.role_title := "Engineer";
                 WorkExperience.dates_employed := "2020-2023";
                 WorkExperience.location := "Berlin";
                 WorkExperience.bullet_points :=
                   Some [ {| raw_text := "Reduced latency by 40%" |} ] |} ];
     projects := Some [];
     education := Some [];
     skills := Some [];
     certifications := Some [] |}.

Definition genAcme : nat -> GenReply EnrichmentData.t :=
  fun _ =>
    Parsed {| EnrichmentData.fused_sentence :=
                "As an Engineer at Acme, I reduced latency by 40%.";
              EnrichmentData.keywords := Some ["latency"];
              EnrichmentData.skills_implied := None;
              EnrichmentData.category := "work_experience" |}.

(** * More of the retrieval engine: vocabulary *)

(** The ranked ids that are not fixed inclusions. *)
Definition rankedNotFixed (fixed ranked : list string) : list string :=
  filter (fun id => negb (setHas id fixed)) ranked.

(** The ids ranked by [getRagContext] for the given services and input. *)
Definition ragRankedIds (gen : string -> GenReply (list string))
    (embed : list string -> EmbedReply) (jdText : string)
    (vectorStore : list EnrichedCorpusItem.t) (options : RagOptions)
  : list string :=
  rankIds
    (aggregate (orDefault 6%Z (reqMatchCount options)) vectorStore
       (reqEmbeddingsOf
          (embed (ragRequirements jdText
                    (orDefault 6%Z (requirementCount options)) gen)))).

(** An item with its embedding taken away. *)
Definition stripEmbedding (d : EnrichedCorpusItem.t) : EnrichedCorpusItem.t :=
  {| EnrichedCorpusItem.id := EnrichedCorpusItem.id d;
     EnrichedCorpusItem.content := EnrichedCorpusItem.content d;
     EnrichedCorpusItem.keywords := EnrichedCorpusItem.keywords d;
     EnrichedCorpusItem.skills_implied := EnrichedCorpusItem.skills_implied d;
     EnrichedCorpusItem.category := EnrichedCorpusItem.category d;
     EnrichedCorpusItem.raw_source := EnrichedCorpusItem.raw_source d;
     EnrichedCorpusItem.metadata := EnrichedCorpusItem.metadata d;
     EnrichedCorpusItem.embedding := None |}.

(** The chunks that leave an item, with their positions: those whose
    response has a text or whose call failed. *)
Definition answeredChunks (gen : nat -> GenReply EnrichmentData.t)
    (corpus : list CorpusChunk.t) : list (nat * CorpusChunk.t) :=
  filter (fun '(k, _) => negb (isNoText (gen k)))
         (combine (seq 0 (List.length corpus)) corpus).

(** The embedding service returns no vector at all: every call throws, or
    its response has no embeddings, or none of its entries has values. *)
Definition noVectors (embed : nat -> list string -> EmbedReply) : Prop :=
  forall i texts,
    match embed i texts with
    | EmbedResponse (Some embeddings) => Forall (fun emb => emb = None) embeddings
    | _ => True
    end.

(** * Token usage *)

(** ** reportUsage (geminiService.ts) and handleTokenUsage (App.tsx) *)

(** The engine above leaves the usage observer out of each function, since
    it feeds nothing back into a result; what the reports of a session add
    up to is modelled here on its own. *)

(** [reportUsage(response, handler)].  [totalTokenCount] is
    [response?.usageMetadata?.totalTokenCount], [None] when the response,
    its metadata or the count is missing; a count of 0 is falsy.  The
    handler acts on the state of its owner. *)
Definition reportUsage {S : Type} (totalTokenCount : option Z)
    (handler : option (Z -> S -> S)) (st : S) : S :=
  match totalTokenCount, handler with
  | Some n, Some h => if (n =? 0)%Z then st else h n st
  | _, _ => st
  end.

Definition MAX_SESSION_TOKENS : Z := 200000.

(** The two pieces of the state of [App] that [handleTokenUsage] touches. *)
Record UsageState := { tokenUsage : Z; error : option string }.

Definition limitReached : string :=
  "Session token limit reached. Please reload to start a fresh session.".

Definition handleTokenUsage (newTokens : Z) (st : UsageState) : UsageState :=
  let next := (tokenUsage st + newTokens)%Z in
  {| tokenUsage := next;
     error := if (next >=? MAX_SESSION_TOKENS)%Z then Some limitReached
              else error st |}.

(** The responses of a session reported one after the other, each with the
    count it carries, if any. *)
Definition reportAll (counts : list (option Z)) (st : UsageState) : UsageState :=
  fold_left (fun st c => reportUsage c (Some handleTokenUsage) st) counts st.

(** The counts that reach the handler. *)
Definition reportedCounts (counts : list (option Z)) : list Z :=
  flat_map (fun c => match c with
                     | Some n => if (n =? 0)%Z then [] else [n]
                     | None => []
                     end) counts.

Definition sumZ (l : list Z) : Z := fold_right Z.add 0%Z l.

(** * The exporters *)

(** ** What JavaScript provides on strings *)

Module JSText.

(** [s.replace(/c/g, rep)] for a pattern that is one literal character. *)
Fixpoint replaceAll (c : ascii) (rep : string) (s : string) : string :=
  match s with
  | EmptyString => EmptyString
  | String x r =>
      if Ascii.eqb x c then (rep ++ replaceAll c rep r)%string
      else String x (replaceAll c rep r)
  end.

Definition isStar (c : ascii) : bool := Ascii.eqb c "*".

(** [s.split(sep)] for the two-character separator made of two stars:
    the separator is looked for from left to right, and [cur] is the part
    read since the last one. *)
Fixpoint splitStars (cur : string) (s : string) : list string :=
  match s with
  | EmptyString => [cur]
  | String c r =>
      match r with
      | String c2 r2 =>
          if isStar c && isStar c2 then cur :: splitStars EmptyString r2
          else splitStars (cur ++ String c EmptyString)%string r
      | EmptyString => [(cur ++ String c EmptyString)%string]
      end
  end.

Definition twoStars : string := String "*" (String "*" EmptyString).

Definition lowerAscii (c : ascii) : ascii :=
  let n := nat_of_ascii c in
  if (65 <=? n)%nat && (n <=? 90)%nat then ascii_of_nat (n + 32) else c.

Fixpoint toLowerCase (s : string) : string :=
  match s with
  | EmptyString => EmptyString
  | String c r => String (lowerAscii c) (toLowerCase r)
  end.

(** [s.startsWith(p)], [s.endsWith(p)] and [s.includes(sub)] *)
Definition startsWith (s p : string) : bool := String.prefix p s.

Definition endsWith (s p : string) : bool :=
  (String.length p <=? String.length s)%nat
  && (String.substring (String.length s - String.length p)
        (String.length p) s =? p)%string.

Fixpoint includes (s sub : string) : bool :=
  String.prefix sub s
  || match s with
     | EmptyString => false
     | String _ r => includes r sub
     end.

End JSText.

(** ** escapeLatex and formatText (inside generateLatex) *)

Definition escapeLatex (text : string) : string :=
  if negb (JS.truthyStr text) then EmptyString
  else
    JSText.replaceAll "^" "\textasciicircum{}"
      (JSText.replaceAll "~" "\textasciitilde{}"
         (JSText.replaceAll "}" "\}"
            (JSText.replaceAll "{" "\{"
               (JSText.replaceAll "_" "\_"
                  (JSText.replaceAll "#" "\#"
                     (JSText.replaceAll "$" "\$"
                        (JSText.replaceAll "%" "\%"
                           (JSText.replaceAll "&" "\&" text)))))))).

Definition formatText (text : string) : string :=
  if negb (JS.truthyStr text) then EmptyString
  else
    let parts := JSText.splitStars EmptyString text in
    JS.join EmptyString
      (mapFrom (fun index part =>
                  let escaped := escapeLatex part in
                  if (index mod 2 =? 1)%nat
                  then ("\textbf{" ++ escaped ++ "}")%string
                  else escaped)
               0 parts).

(** ** Vocabulary *)

(** What [escapeLatex] makes of one character. *)
Definition escapeChar (c : ascii) : string :=
  if Ascii.eqb c "&" then "\&"
  else if Ascii.eqb c "%" then "\%"
  else if Ascii.eqb c "$" then "\$"
  else if Ascii.eqb c "#" then "\#"
  else if Ascii.eqb c "_" then "\_"
  else if Ascii.eqb c "{" then "\{"
  else if Ascii.eqb c "}" then "\}"
  else if Ascii.eqb c "~" then "\textasciitilde{}"
  else if Ascii.eqb c "^" then "\textasciicircum{}"
  else String c EmptyString.

(** Every character replaced by its image, all at once. *)
Fixpoint substitute (f : ascii -> string) (s : string) : string :=
  match s with
  | EmptyString => EmptyString
  | String c r => (f c ++ substitute f r)%string
  end.

(** The characters that LaTeX reads as commands unless a backslash
    precedes them, and the two that [escapeLatex] turns into macros. *)
Definition needsBackslash (c : ascii) : bool :=
  Ascii.eqb c "&" || Ascii.eqb c "%" || Ascii.eqb c "$" || Ascii.eqb c "#"
  || Ascii.eqb c "_".

Definition becomesMacro (c : ascii) : bool :=
  Ascii.eqb c "~" || Ascii.eqb c "^".

(** In [s], read after a backslash or not, every character that needs a
    backslash comes right after one, and no tilde or circumflex occurs. *)
Fixpoint guarded (afterBackslash : bool) (s : string) : bool :=
  match s with
  | EmptyString => true
  | String c r =>
      (if needsBackslash c then afterBackslash else true)
      && negb (becomesMacro c)
      && guarded (Ascii.eqb c "\") r
  end.

(** One of the nine characters that [escapeLatex] replaces. *)
Definition isSpecial (c : ascii) : bool :=
  needsBackslash c || becomesMacro c || Ascii.eqb c "{" || Ascii.eqb c "}".

Fixpoint noSpecial (s : string) : bool :=
  match s with
  | EmptyString => true
  | String c r => negb (isSpecial c) && noSpecial r
  end.

Fixpoint starFree (s : string) : bool :=
  match s with
  | EmptyString => true
  | String c r => negb (JSText.isStar c) && starFree r
  end.

(** No two stars in a row. *)
Fixpoint noMarker (s : string) : bool :=
  match s with
  | EmptyString => true
  | String c r =>
      match r with
      | String c2 _ => negb (JSText.isStar c && JSText.isStar c2) && noMarker r
      | EmptyString => true
      end
  end.

(** The nine replacements in a row, without the guard for the empty text. *)
Definition nineReplacements (text : string) : string :=
  JSText.replaceAll "^" "\textasciicircum{}"
    (JSText.replaceAll "~" "\textasciitilde{}"
       (JSText.replaceAll "}" "\}"
          (JSText.replaceAll "{" "\{"
             (JSText.replaceAll "_" "\_"
                (JSText.replaceAll "#" "\#"
                   (JSText.replaceAll "$" "\$"
                      (JSText.replaceAll "%" "\%"
                         (JSText.replaceAll "&" "\&" text)))))))).

(** What [formatText] makes of the part at position [index]. *)
Definition formatPart (index : nat) (part : string) : string :=
  let escaped := escapeLatex part in
  if (index mod 2 =? 1)%nat then ("\textbf{" ++ escaped ++ "}")%string
  else escaped.

(** ** generateMarkdown and generateLatex *)

Module ContactInfo.
Record t := {
  full_name : string;
  email : string;
  phone : string;
  linkedin_url : string;
  github_url : string;
  website_url : string;
  location : string
}.
End ContactInfo.

(** Both exporters read [resume.contact_info], which the chunker never
    looks at: it is passed beside the rest of the resume, and like the
    other fields it may be absent. *)

(** [l.forEach(x => { md += piece(x) })] *)
Definition forEachAppend {A : Type} (piece : A -> string) (l : list A)
    (md : string) : string :=
  fold_left (fun md x => (md ++ piece x)%string) l md.

(** [l.forEach(x => { ... md += ... })] with a body that may throw. *)
Fixpoint forEachStep {A : Type} (step : A -> string -> JS.Completion string)
    (l : list A) (md : string) : JS.Completion string :=
  match l with
  | [] => JS.Normal md
  | x :: rest => md <- step x md ;; forEachStep step rest md
  end.

(** [l.map(x => row(x))] with a callback that may throw. *)
Fixpoint mapEach {A B : Type} (row : A -> JS.Completion B) (l : list A)
  : JS.Completion (list B) :=
  match l with
  | [] => JS.Normal []
  | x :: rest =>
      r <- row x ;;
      rs <- mapEach row rest ;;
      JS.Normal (r :: rs)
  end.

(** [if (arr && arr.length > 0) { ... }] *)
Definition whenFilled {A : Type} (arr : option (list A))
    (section : list A -> string -> JS.Completion string) (md : string)
  : JS.Completion string :=
  match arr with
  | Some l => if negb (List.length l =? 0)%nat then section l md
              else JS.Normal md
  | None => JS.Normal md
  end.

Definition markdownContact (c : ContactInfo.t) : list string :=
  (if JS.truthyStr (ContactInfo.email c)
   then [("Email: " ++ ContactInfo.email c)%string] else [])
  ++ (if JS.truthyStr (ContactInfo.phone c)
      then [("Phone: " ++ ContactInfo.phone c)%string] else [])
  ++ (if JS.truthyStr (ContactInfo.location c)
      then [("Location: " ++ ContactInfo.location c)%string] else [])
  ++ (if JS.truthyStr (ContactInfo.linkedin_url c)
      then [("[LinkedIn](" ++ ContactInfo.linkedin_url c ++ ")")%string] else [])
  ++ (if JS.truthyStr (ContactInfo.github_url c)
      then [("[GitHub](" ++ ContactInfo.github_url c ++ ")")%string] else [])
  ++ (if JS.truthyStr (ContactInfo.website_url c)
      then [("[Portfolio](" ++ ContactInfo.website_url c ++ ")")%string] else []).

Definition markdownBullet (bp : BulletPoint) : string :=
  ("- " ++ raw_text bp ++ JS.nl)%string.

Definition markdownLine (s : string) : string :=
  ("- " ++ s ++ JS.nl)%string.

Definition markdownJob (job : WorkExperience.t) (md : string)
  : JS.Completion string :=
  let md := (md ++ ("### " ++ WorkExperience.role_title job ++ JS.nl))%string in
  let md := (md ++ ("**" ++ WorkExperience.company_name job ++ "** | "
                    ++ WorkExperience.location job ++ " | "
                    ++ WorkExperience.dates_employed job
                    ++ JS.nl ++ JS.nl))%string in
  bullet_points <- present (WorkExperience.bullet_points job) ;;
  let md := forEachAppend markdownBullet bullet_points md in
  JS.Normal (md ++ JS.nl)%string.

Definition markdownProject (proj : Project.t) (md : string)
  : JS.Completion string :=
  let md := (md ++ ("### " ++ Project.project_name proj ++ JS.nl))%string in
  technologies_used <- present (Project.technologies_used proj) ;;
  let md := (md ++ ("**" ++ Project.role_title proj ++ "** | Tech Stack: "
                    ++ JS.join ", " technologies_used
                    ++ JS.nl ++ JS.nl))%string in
  bullet_points <- present (Project.bullet_points proj) ;;
  let md := forEachAppend markdownBullet bullet_points md in
  JS.Normal (md ++ JS.nl)%string.

(** [edu.achievements] is tested before it is walked: this step never
    throws. *)
Definition markdownEducation (edu : Education.t) (md : string) : string :=
  let md := (md ++ ("### " ++ Education.institution_name edu ++ JS.nl))%string in
  let md := (md ++ (Education.degree_obtained edu ++ " | "
                    ++ Education.graduation_date edu
                    ++ JS.nl ++ JS.nl))%string in
  match Education.achievements edu with
  | Some achievements =>
      if negb (List.length achievements =? 0)%nat
      then (forEachAppend markdownLine achievements md ++ JS.nl)%string
      else md
  | None => md
  end.

Definition markdownSkillGroup (skillGroup : SkillGroup.t) (md : string)
  : JS.Completion string :=
  items <- present (SkillGroup.items skillGroup) ;;
  JS.Normal
    (md ++ ("**" ++ SkillGroup.category_name skillGroup ++ ":** "
            ++ JS.join ", " items ++ JS.nl ++ JS.nl))%string.

Definition generateMarkdown (contact_info : option ContactInfo.t)
    (resume : ParsedResume) : JS.Completion string :=
  contact_info <- present contact_info ;;
  let md := ("# " ++ ContactInfo.full_name contact_info ++ JS.nl ++ JS.nl)%string in
  let contact := markdownContact contact_info in
  let md := (md ++ (JS.join " | " contact ++ JS.nl ++ JS.nl))%string in
  let md :=
    match professional_summary resume with
    | Some summary =>
        if JS.truthyStr summary
        then (md ++ ("## Professional Summary" ++ JS.nl ++ JS.nl
                     ++ summary ++ JS.nl ++ JS.nl))%string
        else md
    | None => md
    end in
  md <- whenFilled (work_experience resume)
          (fun l md =>
             forEachStep markdownJob l
               (md ++ ("## Work Experience" ++ JS.nl ++ JS.nl))%string) md ;;
  md <- whenFilled (projects resume)
          (fun l md =>
             forEachStep markdownProject l
               (md ++ ("## Projects" ++ JS.nl ++ JS.nl))%string) md ;;
  md <- whenFilled (education resume)
          (fun l md =>
             forEachStep (fun edu md => JS.Normal (markdownEducation edu md)) l
               (md ++ ("## Education" ++ JS.nl ++ JS.nl))%string) md ;;
  md <- whenFilled (skills resume)
          (fun l md =>
             forEachStep markdownSkillGroup l
               (md ++ ("## Skills" ++ JS.nl ++ JS.nl))%string) md ;;
  md <- whenFilled (certifications resume)
          (fun l md =>
             JS.Normal
               (forEachAppend markdownLine l
                  (md ++ ("## Certifications" ++ JS.nl ++ JS.nl))%string
                ++ JS.nl)%string) md ;;
  JS.Normal md.

(** The template of [generateLatex], piece by piece: the text between two
    interpolations is the text of the source, line breaks included.  The
    piece for one entry reads the arrays of the entry unguarded, and the
    piece for a collection is made only when the collection has entries. *)

Definition latexJob (job : WorkExperience.t) : JS.Completion string :=
  bullet_points <- present (WorkExperience.bullet_points job) ;;
  JS.Normal
    ("
\noindent
\textbf{"
    ++ escapeLatex (WorkExperience.role_title job)
    ++ "} \hfill "
    ++ escapeLatex (WorkExperience.dates_employed job)
    ++ " \\
\textit{"
    ++ escapeLatex (WorkExperience.company_name job)
    ++ "} \hfill "
    ++ escapeLatex (WorkExperience.location job)
    ++ "
\begin{itemize}[noitemsep, topsep=2pt, leftmargin=15pt]
"
    ++ JS.join JS.nl
      (map (fun bp =>
            ("    \item "
            ++ formatText (raw_text bp))%string)
           bullet_points)
    ++ "
\end{itemize}
\vspace{6pt}
")%string.

Definition latexProject (proj : Project.t) : JS.Completion string :=
  technologies_used <- present (Project.technologies_used proj) ;;
  bullet_points <- present (Project.bullet_points proj) ;;
  JS.Normal
    ("
\noindent
\textbf{"
    ++ escapeLatex (Project.project_name proj)
    ++ "} $|$ \textit{"
    ++ escapeLatex (Project.role_title proj)
    ++ "} \hfill "
    ++ formatText (JS.join ", " technologies_used)
    ++ "
\begin{itemize}[noitemsep, topsep=2pt, leftmargin=15pt]
"
    ++ JS.join JS.nl
      (map (fun bp =>
            ("    \item "
            ++ formatText (raw_text bp))%string)
           bullet_points)
    ++ "
\end{itemize}
\vspace{6pt}
")%string.

Definition latexProjects (projects : list Project.t) : JS.Completion string :=
  if negb (List.length projects =? 0)%nat
  then rows <- mapEach latexProject projects ;;
       JS.Normal
         ("
\section{Projects}
"
         ++ JS.join JS.nl rows
         ++ "
")%string
  else JS.Normal EmptyString.

Definition latexSkillGroup (group : SkillGroup.t) : JS.Completion string :=
  items <- present (SkillGroup.items group) ;;
  JS.Normal
    ("
    \item \textbf{"
    ++ escapeLatex (SkillGroup.category_name group)
    ++ ":} "
    ++ escapeLatex (JS.join ", " items)
    ++ "
")%string.

Definition latexSkills (skills : list SkillGroup.t) : JS.Completion string :=
  if negb (List.length skills =? 0)%nat
  then rows <- mapEach latexSkillGroup skills ;;
       JS.Normal
         ("
\section{Technical Skills}
\begin{itemize}[noitemsep, topsep=2pt, leftmargin=15pt]
"
         ++ JS.join JS.nl rows
         ++ "
\end{itemize}
")%string
  else JS.Normal EmptyString.

Definition latexEducation (edu : Education.t) : JS.Completion string :=
  achievements <- present (Education.achievements edu) ;;
  JS.Normal
    ("
\noindent
\textbf{"
    ++ escapeLatex (Education.institution_name edu)
    ++ "} \hfill "
    ++ escapeLatex (Education.graduation_date edu)
    ++ " \\
"
    ++ escapeLatex (Education.degree_obtained edu)
    ++ "
"
    ++ (if negb (List.length achievements =? 0)%nat
      then ("
\begin{itemize}[noitemsep, topsep=2pt, leftmargin=15pt]
"
           ++ JS.join JS.nl
             (map (fun ach =>
                   ("    \item "
                   ++ formatText ach)%string)
                  achievements)
           ++ "
\end{itemize}
")%string
      else "\vspace{4pt}")
    ++ "
")%string.

Definition latexEducationSection (education : list Education.t) : JS.Completion string :=
  if negb (List.length education =? 0)%nat
  then rows <- mapEach latexEducation education ;;
       JS.Normal
         ("
\section{Education}
"
         ++ JS.join JS.nl rows
         ++ "
")%string
  else JS.Normal EmptyString.

(** The whole document, given the pieces for the jobs and for the three
    collections whose entries are records. *)
Definition latexDocument (contact_info : ContactInfo.t)
    (professional_summary : option string) (jobs : list string)
    (projectsSection skillsSection educationSection : string)
    (certifications : list string) : string :=
  ("\documentclass[10pt, letterpaper]{article}

\usepackage[utf8]{inputenc}
\usepackage{geometry}
\usepackage{enumitem}
\usepackage{hyperref}
\usepackage{titlesec}
\usepackage{xcolor}

\geometry{left=0.75in, top=0.6in, right=0.75in, bottom=0.6in}
\pagestyle{empty} 
\setlength{\parindent}{0pt}

\hypersetup{
    colorlinks=true,
    linkcolor=blue,
    filecolor=magenta,      
    urlcolor=blue,
}

\titleformat{\section}{\large\bfseries\uppercase}{}{0em}{}[\titlerule]
\titlespacing{\section}{0pt}{12pt}{6pt}

\begin{document}

\begin{center}
    {\huge \bfseries "
  ++ escapeLatex (ContactInfo.full_name contact_info)
  ++ "} \\[4pt]
    "
  ++ escapeLatex (ContactInfo.location contact_info)
  ++ " \ \textbullet \ "
  ++ escapeLatex (ContactInfo.phone contact_info)
  ++ " \ \textbullet \ \href{mailto:"
  ++ ContactInfo.email contact_info
  ++ "}{"
  ++ escapeLatex (ContactInfo.email contact_info)
  ++ "}
    
    "
  ++ (if JS.truthyStr (ContactInfo.linkedin_url contact_info)
    then ("\ \textbullet \ \href{"
         ++ ContactInfo.linkedin_url contact_info
         ++ "}{LinkedIn}")%string
    else EmptyString)
  ++ "
    "
  ++ (if JS.truthyStr (ContactInfo.github_url contact_info)
    then ("\ \textbullet \ \href{"
         ++ ContactInfo.github_url contact_info
         ++ "}{GitHub}")%string
    else EmptyString)
  ++ "
    "
  ++ (if JS.truthyStr (ContactInfo.website_url contact_info)
    then ("\ \textbullet \ \href{"
         ++ ContactInfo.website_url contact_info
         ++ "}{Portfolio}")%string
    else EmptyString)
  ++ "
\end{center}

"
  ++ match professional_summary with
     | Some summary =>
         if JS.truthyStr summary
         then ("
\section{Professional Summary}
"
               ++ formatText summary
               ++ "
")%string
         else EmptyString
     | None => EmptyString
     end
  ++ "

\section{Experience}
"
  ++ JS.join JS.nl jobs
  ++ "

"
  ++ projectsSection
  ++ "

"
  ++ skillsSection
  ++ "

"
  ++ educationSection
  ++ "

"
  ++ (if negb (List.length certifications =? 0)%nat
    then ("
\section{Certifications}
\begin{itemize}[noitemsep, topsep=2pt, leftmargin=15pt]
"
         ++ JS.join JS.nl
           (map (fun cert =>
                 ("    \item "
                 ++ formatText cert)%string)
                certifications)
         ++ "
\end{itemize}
")%string
    else EmptyString)
  ++ "

\end{document}
  ")%string.

(** The fields are read in the order of the template;
    [professional_summary] is only tested, the five arrays are walked or
    measured unguarded. *)
Definition generateLatex (contact_info : option ContactInfo.t)
    (resume : ParsedResume) : JS.Completion string :=
  contact_info <- present contact_info ;;
  work_experience <- present (work_experience resume) ;;
  jobs <- mapEach latexJob work_experience ;;
  projects <- present (projects resume) ;;
  projectsSection <- latexProjects projects ;;
  skills <- present (skills resume) ;;
  skillsSection <- latexSkills skills ;;
  education <- present (education resume) ;;
  educationSection <- latexEducationSection education ;;
  certifications <- present (certifications resume) ;;
  JS.Normal (latexDocument contact_info (professional_summary resume) jobs
               projectsSection skillsSection educationSection certifications).

(** ** Vocabulary *)

(** [sub] is a piece of [s]. *)
Definition occursIn (sub s : string) : Prop :=
  exists pre post, s = (pre ++ sub ++ post)%string.


(** The resume with an empty array in the place of each absent top-level
    one. *)
Definition withEmptyArrays (resume : ParsedResume) : ParsedResume :=
  {| professional_summary := professional_summary resume;
     work_experience := Some (JS.orArr (work_experience resume) []);
     projects := Some (JS.orArr (projects resume) []);
     education := Some (JS.orArr (education resume) []);
     skills := Some (JS.orArr (skills resume) []);
     certifications := Some (JS.orArr (certifications resume) []) |}.

Definition anArrayIsAbsent (resume : ParsedResume) : bool :=
  match work_experience resume, projects resume, skills resume,
        education resume, certifications resume with
  | Some _, Some _, Some _, Some _, Some _ => false
  | _, _, _, _, _ => true
  end.

(** The arrays that [generateMarkdown] walks unguarded inside the entries
    are there: the bullets of each job, the technologies and the bullets
    of each project, the items of each skill group.  The achievements of
    an education entry are not among them. *)
Definition markdownCanWalk (resume : ParsedResume) : bool :=
  forallb jobComplete (entries (work_experience resume))
  && forallb projectComplete (entries (projects resume))
  && forallb skillGroupComplete (entries (skills resume)).

(** An example: a tailored resume with bold markers in its bullets. *)
Definition janeContact : ContactInfo.t :=
  {| ContactInfo.full_name := "Jane Doe";
     ContactInfo.email := "jane_doe@example.org";
     ContactInfo.phone := "555 0100";
     ContactInfo.linkedin_url := EmptyString;
     ContactInfo.github_url := "https://github.com/jane";
     ContactInfo.website_url := EmptyString;
     ContactInfo.location := "Berlin" |}.

Definition latencyBullet : BulletPoint :=
  {| raw_text := "Reduced **latency** by 40% & cost" |}.

Definition janeResume : ParsedResume :=
  {| professional_summary := Some "Backend engineer";
     work_experience :=
       Some [ {| WorkExperience.company_name := "Acme";
                 WorkExperience.role_title := "Engineer";
                 WorkExperience.dates_employed := "2020-2023";
                 WorkExperience.location := "Berlin";
                 WorkExperience.bullet_points := Some [ latencyBullet ] |} ];
     projects :=
       Some [ {| Project.project_name := "Cache";
                 Project.role_title := "Author";
                 Project.technologies_used := Some ["Rust"; "Redis"];
                 Project.bullet_points :=
                   Some [ {| raw_text := "Cut misses" |} ] |} ];
     education := Some [];
     skills := Some [];
     certifications := Some [] |}.

(** The same resume as the parser may return it: the education entry has
    no achievements array. *)
Definition janeWithDegree : ParsedResume :=
  {| professional_summary := professional_summary janeResume;
     work_experience := work_experience janeResume;
     projects := projects janeResume;
     education :=
       Some [ {| Education.institution_name := "TU Berlin";
                 Education.degree_obtained := "MSc";
                 Education.graduation_date := "2019";
                 Education.achievements := None |} ];
     skills := skills janeResume;
     certifications := certifications janeResume |}.

(** * Reading the uploaded resume *)

(** ** handleFileUpload (App.tsx), up to the call of the parser *)

Module File.
Record t := { type : string; name : string }.
End File.

(** What the handler does with the chosen file: nothing when there is
    none, an error message for a format it does not accept, and otherwise
    a call of [parseResumeWithGemini] with this MIME type. *)
Inductive Upload :=
| NoFile
| Unsupported
| Parse (mimeType : string).

Definition handleFileUpload (file : option File.t) : Upload :=
  match file with
  | None => NoFile
  | Some file =>
      let isPdf := (File.type file =? "application/pdf")%string in
      let isText :=
        (File.type file =? "text/plain")%string
        || JSText.endsWith (JSText.toLowerCase (File.name file)) ".txt" in
      let isMd := JSText.endsWith (JSText.toLowerCase (File.name file)) ".md" in
      let isTex := JSText.endsWith (JSText.toLowerCase (File.name file)) ".tex" in
      if negb isPdf && negb isText && negb isMd && negb isTex then Unsupported
      else
        let mimeType := File.type file in
        let mimeType :=
          if negb (JS.truthyStr mimeType) then
            if isPdf then "application/pdf"
            else if isMd then "text/plain"
            else if isTex then "text/plain"
            else "text/plain"
          else mimeType in
        Parse mimeType
  end.

(** ** parseResumeWithGemini: the part of the request that carries the file *)

Inductive Part :=
| TextPart (text : string)
| InlineData (mimeType data : string).

Definition isTextBased (mimeType : string) : bool :=
  JSText.startsWith mimeType "text/"
  || (mimeType =? "application/json")%string
  || JSText.includes mimeType "tex".

(** [decode] stands for [atob] followed by the UTF-8 decoder; [atob]
    throws on what is not base64. *)
Definition resumePart (base64Data mimeType : string)
    (decode : string -> JS.Completion string) : Part :=
  if isTextBased mimeType then
    match decode base64Data with
    | JS.Normal textContent =>
        TextPart ("[RESUME CONTENT START]" ++ JS.nl ++ textContent ++ JS.nl
                  ++ "[RESUME CONTENT END]")%string
    | JS.Throw => InlineData mimeType base64Data
    end
  else InlineData mimeType base64Data.

(** * JobAppCopilot *)

Definition dquote : string := String (ascii_of_nat 34) EmptyString.

(** The chat object of the client library, as far as this class decides
    it: the configuration and the history it is created with, and the
    messages sent through it since. *)
Module Chat.
Record t := {
  temperature : float;
  systemInstruction : string;
  history : list (string * string);
  sent : list string
}.
End Chat.

(** What [chatSession.sendMessage] can come to: the promise is rejected, or
    it resolves to a result whose text and token count may be missing. *)
Inductive ChatReply :=
| ChatRejected
| ChatResult (text : option string) (totalTokenCount : option Z).

Record JobAppCopilot := {
  chatSession : option Chat.t;
  jdText : string;
  evidence : string;
  requirements : string
}.

(** [new JobAppCopilot(jdText, evidence, requirements, onTokenUsage)] *)
Definition newJobAppCopilot (jdText evidence : string)
    (requirements : list string) : JobAppCopilot :=
  {| chatSession := None;
     jdText := jdText;
     evidence := evidence;
     requirements :=
       JS.join JS.nl (map (fun r => ("- " ++ r)%string) requirements) |}.

Definition seedHistory : list (string * string) :=
  [ ("user", "I am ready to start.");
    ("model",
     "Understood. I have reviewed your resume context and the job description.") ].

Definition startNewSession (systemInstruction : string) (temperature : float)
    (cp : JobAppCopilot) : JobAppCopilot :=
  {| chatSession :=
       Some {| Chat.temperature := temperature;
               Chat.systemInstruction := systemInstruction;
               Chat.history := seedHistory;
               Chat.sent := [] |};
     jdText := jdText cp;
     evidence := evidence cp;
     requirements := requirements cp |}.

#[local] Set Warnings "-inexact-float".
Definition coverLetterTemperature : float := 0.7%float.
Definition questionModeTemperature : float := 0.2%float.
#[local] Set Warnings "inexact-float".

Definition defaultTone : string := "professional and confident".

Definition coverLetterInstruction (cp : JobAppCopilot) (tone : string) : string :=
  ("
        You are an expert Career Strategist and Copywriter acting on behalf of the user.
        Your goal is to draft a high-impact, evidence-based cover letter that bridges the user's past achievements to the company's future needs.  
        
        ### INPUT DATA
        [JOB DESCRIPTION]
        "
   ++ jdText cp
   ++ "
        
        [CORE REQUIREMENTS]
        "
   ++ requirements cp
   ++ "
        
        [EVIDENCE BANK]
        "
   ++ evidence cp
   ++ "
        
        ### STRATEGY
        1. **The Hook:** Start with a strong professional value statement. Do NOT use "
   ++ dquote
   ++ "I am writing to apply..."
   ++ dquote
   ++ "
        2. **The Body (The Bridge):** - Identify the top matching skills from the Job Description.
           - Find the Evidence blocks where (Tags: ...) match these skills.
           - Weave those specific [WORK EXPERIENCE] or [PROJECT] stories into the narrative.
        3. **The Close:** Confident call to action.
        
        ### RULES:
        - Write 3â€“4 cohesive paragraphs (Intro, Body, Closing). Strict 200-250 words.
        - Tone: "
   ++ tone
   ++ ". Confident but grounded. Avoid embellishment or speculation. Grounded strictly in the evidence.
        - NO bullet points or citations.
        - Under ~250 words.
        - Focus heavily on evidence-backed accomplishments. 
        - Anti-Hallucination: Never invent facts beyond evidence.
        - Never invent facts. If a skill is missing in the Evidence, acknowledge the gap or focus on transferable skills found in the (Tags: ...) section.
        - Derive all facts from the evidence and rephrase them naturally: NEVER copy text or mention IDs. Never repeat JD text verbatim.
    ")%string.

Definition questionModeInstruction (cp : JobAppCopilot) (tone : string) : string :=
  ("
        You are an expert Career Strategist acting on behalf of the user.
        Your goal is to draft high-impact, evidence-based answers to job application questions.        
        
        ### INPUT DATA
        [JOB DESCRIPTION]
        "
   ++ jdText cp
   ++ "
        
        [CORE REQUIREMENTS (The Target)]
        "
   ++ requirements cp
   ++ "
        
        [EVIDENCE BANK (The Source Material)]
        "
   ++ evidence cp
   ++ "

        ### EXECUTION PROTOCOL
        1. **Scan Tags:** Look at the (Tags: ...) in the Evidence blocks. Match these tags to the core requirements of the question.
        2. **Select Context:** identify which piece of User Evidence best proves the competence required by the question. 
        Prioritize evidence marked [WORK EXPERIENCE] or [PROJECTS] over [EDUCATION] unless the question asks for academic background.
        3. **Structure (STAR Method):** For behavioral questions ("
   ++ dquote
   ++ "Tell me about a time..."
   ++ dquote
   ++ "), strictly follow:
            - **S/T (Situation):** "
   ++ dquote
   ++ "In my role as [Role] at [Company]..."
   ++ dquote
   ++ " (Derive this from the Evidence header).
            - **A (Action):** What did you do? (Use the main sentence from the Evidence).
            - **R (Result):** What was the outcome?
        
        GENERAL RULES:
        - Always <= 100 words, <= 5 sentences (unless told otherwise).
        - Always keep tone "
   ++ tone
   ++ ".
        - Never repeat JD text verbatim.
        - Never invent facts beyond evidence.
    ")%string.


Definition draftInstruction : string :=
  "Draft the cover letter now based on the provided instructions.".

Definition notStarted : string :=
  "Session not started. Please initialize a task first.".

Definition questionModeReady : string :=
  "Ready. What question would you like me to answer?".

(** [this.chatSession = session] *)
Definition setSession (session : Chat.t) (cp : JobAppCopilot) : JobAppCopilot :=
  {| chatSession := Some session;
     jdText := jdText cp;
     evidence := evidence cp;
     requirements := requirements cp |}.

(** The session after [message] has been handed to it. *)
Definition afterSending (message : string) (session : Chat.t) : Chat.t :=
  {| Chat.temperature := Chat.temperature session;
     Chat.systemInstruction := Chat.systemInstruction session;
     Chat.history := Chat.history session;
     Chat.sent := Chat.sent session ++ [message] |}.

Section Copilot.
Context {S : Type}.
(** The handler given to the constructor, and the chat service: its reply
    to [message] sent through [session]. *)
Variable onTokenUsage : option (Z -> S -> S).
Variable service : Chat.t -> string -> ChatReply.

(** [await this.chatSession.sendMessage({ message })], then the usage
    report and [return result.text]. *)
Definition exchange (session : Chat.t) (message : string)
    (cp : JobAppCopilot) (st : S)
  : JS.Completion (option string) * JobAppCopilot * S :=
  let cp := setSession (afterSending message session) cp in
  match service session message with
  | ChatRejected => (JS.Throw, cp, st)
  | ChatResult text totalTokenCount =>
      (JS.Normal text, cp, reportUsage totalTokenCount onTokenUsage st)
  end.

Definition draftCoverLetter (tone : option string) (cp : JobAppCopilot) (st : S)
  : JS.Completion (option string) * JobAppCopilot * S :=
  let tone := match tone with Some t => t | None => defaultTone end in
  let systemInstruction := coverLetterInstruction cp tone in
  let cp := startNewSession systemInstruction coverLetterTemperature cp in
  match chatSession cp with
  | None => (JS.Throw, cp, st)
  | Some session => exchange session draftInstruction cp st
  end.

Definition startQuestionMode (tone : option string) (cp : JobAppCopilot) (st : S)
  : JS.Completion (option string) * JobAppCopilot * S :=
  let tone := match tone with Some t => t | None => defaultTone end in
  let systemInstruction := questionModeInstruction cp tone in
  let cp := startNewSession systemInstruction questionModeTemperature cp in
  (JS.Normal (Some questionModeReady), cp, st).

Definition sendMessage (message : string) (cp : JobAppCopilot) (st : S)
  : JS.Completion (option string) * JobAppCopilot * S :=
  match chatSession cp with
  | None => (JS.Normal (Some notStarted), cp, st)
  | Some session => exchange session message cp st
  end.

(** A client of the class: the public methods called one after the
    other, each awaited before the next. *)
Inductive Call :=
| DraftCoverLetter (tone : option string)
| StartQuestionMode (tone : option string)
| SendMessage (message : string).

Definition call (c : Call) (cp : JobAppCopilot) (st : S)
  : JS.Completion (option string) * JobAppCopilot * S :=
  match c with
  | DraftCoverLetter tone => draftCoverLetter tone cp st
  | StartQuestionMode tone => startQuestionMode tone cp st
  | SendMessage message => sendMessage message cp st
  end.

Fixpoint callAll (calls : list Call) (cp : JobAppCopilot) (st : S)
  : list (JS.Completion (option string)) * JobAppCopilot * S :=
  match calls with
  | [] => ([], cp, st)
  | c :: rest =>
      let '(r, cp, st) := call c cp st in
      let '(rs, cp, st) := callAll rest cp st in
      (r :: rs, cp, st)
  end.
End Copilot.

(** ** Vocabulary *)

Definition startsSession (c : Call) : bool :=
  match c with
  | SendMessage _ => false
  | _ => true
  end.

(** The session that a starting call creates on [cp], before anything is
    sent through it. *)
Definition sessionOf (c : Call) (cp : JobAppCopilot) : option Chat.t :=
  let toneOf tone := match tone with Some t => t | None => defaultTone end in
  match c with
  | DraftCoverLetter tone =>
      Some {| Chat.temperature := coverLetterTemperature;
              Chat.systemInstruction := coverLetterInstruction cp (toneOf tone);
              Chat.history := seedHistory;
              Chat.sent := [] |}
  | StartQuestionMode tone =>
      Some {| Chat.temperature := questionModeTemperature;
              Chat.systemInstruction := questionModeInstruction cp (toneOf tone);
              Chat.history := seedHistory;
              Chat.sent := [] |}
  | SendMessage _ => None
  end.

(** What a call hands to the chat service. *)
Definition messageOf (c : Call) : list string :=
  match c with
  | DraftCoverLetter _ => [draftInstruction]
  | StartQuestionMode _ => []
  | SendMessage message => [message]
  end.

(** The last call that starts a session, with the calls that follow it. *)
Fixpoint lastStart (calls : list Call) : option (Call * list Call) :=
  match calls with
  | [] => None
  | c :: rest =>
      match lastStart rest with
      | Some found => Some found
      | None => if startsSession c then Some (c, rest) else None
      end
  end.

Definition sendAll (messages : list string) (session : Chat.t) : Chat.t :=
  fold_left (fun s m => afterSending m s) messages session.

(** The session after [calls], told from the calls alone: the one that
    the last starting call creates, with what has been sent from that call
    on; without a starting call, the session there was, with what has been
    sent. *)
Definition sessionAfter (calls : list Call) (cp : JobAppCopilot)
  : option Chat.t :=
  match lastStart calls with
  | Some (c, later) =>
      option_map (sendAll (messageOf c ++ flat_map messageOf later))
        (sessionOf c cp)
  | None => option_map (sendAll (flat_map messageOf calls)) (chatSession cp)
  end.

Definition isSendMessage (c : Call) : bool := negb (startsSession c).

Definition acmeCopilot : JobAppCopilot :=
  newJobAppCopilot "Senior engineer, payments" "[WORK EXPERIENCE] Acme"
    ["Rust"; "Payments"].

(** * Properties *)

(** ** Chunker *)

Lemma total_cons {A : Type} (f : A -> nat) x l :
  total f (x :: l) = f x + total f l.
Proof. reflexivity. Qed.

Lemma total_zero {A : Type} (l : list A) : total (fun _ => 0) l = 0.
Proof. induction l as [|x l IH]; [reflexivity|]. now rewrite total_cons, IH. Qed.

Lemma total_one {A : Type} (l : list A) : total (fun _ => 1) l = List.length l.
Proof.
  induction l as [|x l IH]; [reflexivity|].
  now rewrite total_cons, IH.
Qed.

Lemma countOf_app {A : Type} (p : A -> bool) (l1 l2 : list A) :
  countOf p (l1 ++ l2) = countOf p l1 + countOf p l2.
Proof. unfold countOf. now rewrite filter_app, length_app. Qed.

Lemma countOf_map_all {A B : Type} (p : B -> bool) (f : A -> B) l :
  (forall x, p (f x) = true) -> countOf p (map f l) = List.length l.
Proof.
  intros H. unfold countOf.
  induction l as [|x l IH]; [reflexivity|].
  cbn [map filter]. rewrite H. cbn [List.length]. now rewrite IH.
Qed.

Lemma countOf_map_none {A B : Type} (p : B -> bool) (f : A -> B) l :
  (forall x, p (f x) = false) -> countOf p (map f l) = 0.
Proof.
  intros H. unfold countOf.
  induction l as [|x l IH]; [reflexivity|].
  cbn [map filter]. now rewrite H.
Qed.

Lemma metaIs_head key s v rest :
  metaIs key s ((key, MStr v) :: rest) = (s =? v)%string.
Proof.
  unfold metaIs. cbn [metaGet]. rewrite String.eqb_refl. apply String.eqb_sym.
Qed.

Lemma metaIs_skip key key' s v rest :
  (key =? key')%string = false ->
  metaIs key s ((key', v) :: rest) = metaIs key s rest.
Proof. intros H. unfold metaIs. cbn [metaGet]. now rewrite H. Qed.

(** The chunks [f x] all carry the type [ty0]. *)
Lemma countOf_typed {A : Type} (f : A -> CorpusChunk.t) ty0 ty l :
  (forall x, hasType ty (f x) = (ty =? ty0)%string) ->
  countOf (hasType ty) (map f l)
  = if (ty =? ty0)%string then List.length l else 0.
Proof.
  intros H. destruct (ty =? ty0)%string.
  - now apply countOf_map_all.
  - now apply countOf_map_none.
Qed.

Lemma countOf_cons {A : Type} (p : A -> bool) x l :
  countOf p (x :: l) = (if p x then 1 else 0) + countOf p l.
Proof. unfold countOf. cbn [filter]. now destruct (p x). Qed.

Lemma total_add {A : Type} (f g : A -> nat) l :
  total (fun x => f x + g x) l = total f l + total g l.
Proof.
  induction l as [|x l IH]; [reflexivity|].
  rewrite !total_cons, IH. lia.
Qed.

(** A step that completes hands its result to the rest. *)
Lemma andThen_normal {A B : Type} (c : JS.Completion A)
    (k : A -> JS.Completion B) (b : B) :
  andThen c k = JS.Normal b -> exists a, c = JS.Normal a /\ k a = JS.Normal b.
Proof. destruct c as [a|]; [now exists a | discriminate]. Qed.

(** A loop that completes has pushed what its body pushed for each entry. *)
Lemma forEach_count {A B : Type} (p : B -> bool)
    (body : A -> JS.Completion (list B)) (cnt : A -> nat) l chunks :
  (forall x c, body x = JS.Normal c -> countOf p c = cnt x) ->
  forEach l body = JS.Normal chunks -> countOf p chunks = total cnt l.
Proof.
  intros Hbody. revert chunks.
  induction l as [|x l IH]; intros chunks H; cbn [forEach] in H.
  - now injection H as <-.
  - apply andThen_normal in H. destruct H as [pushed [Hx H]].
    apply andThen_normal in H. destruct H as [later [Hl H]].
    injection H as <-.
    now rewrite countOf_app, total_cons, (Hbody _ _ Hx), (IH _ Hl).
Qed.

Lemma forEachOf_count {A B : Type} (p : B -> bool)
    (body : A -> JS.Completion (list B)) (cnt : A -> nat) field chunks :
  (forall x c, body x = JS.Normal c -> countOf p c = cnt x) ->
  forEachOf field body = JS.Normal chunks ->
  countOf p chunks = total cnt (entries field).
Proof.
  intros Hbody H. destruct field as [l|]; cbn [forEachOf entries] in *.
  - exact (forEach_count _ _ _ _ _ Hbody H).
  - now injection H as <-.
Qed.

(** A loop completes when its body does on every entry. *)
Lemma forEachOf_completes {A B : Type} (body : A -> JS.Completion (list B))
    (ok : A -> bool) field :
  (forall x, ok x = true -> exists c, body x = JS.Normal c) ->
  forallb ok (entries field) = true ->
  exists chunks, forEachOf field body = JS.Normal chunks.
Proof.
  intros Hbody Hall. destruct field as [l|]; [|now exists []].
  cbn [forEachOf entries] in *.
  induction l as [|x l IH]; [now exists []|].
  cbn [forallb] in Hall. apply andb_true_iff in Hall.
  destruct Hall as [Hx Hall].
  destruct (Hbody x Hx) as [c Hc]. destruct (IH Hall) as [later Hl].
  exists (c ++ later). cbn [forEach]. rewrite Hc. cbn [andThen].
  now rewrite Hl.
Qed.

(** Each producer yields chunks of one type only. *)
Lemma count_in_workChunks ty job c :
  workChunks job = JS.Normal c ->
  countOf (hasType ty) c
  = if (ty =? "work_experience")%string
    then List.length (entries (WorkExperience.bullet_points job)) else 0.
Proof.
  unfold workChunks.
  destruct (WorkExperience.bullet_points job) as [bullets|]; [|discriminate].
  cbn [present andThen entries]. intros H. injection H as <-.
  apply countOf_typed. intros b.
  unfold hasType. cbn [CorpusChunk.metadata]. apply metaIs_head.
Qed.

Lemma count_in_projectChunks ty proj c :
  projectChunks proj = JS.Normal c ->
  countOf (hasType ty) c
  = if (ty =? "project")%string
    then List.length (entries (Project.bullet_points proj)) else 0.
Proof.
  unfold projectChunks.
  destruct (Project.technologies_used proj) as [tech|]; [|discriminate].
  destruct (Project.bullet_points proj) as [bullets|]; [|discriminate].
  cbn [present andThen entries]. intros H. injection H as <-.
  apply countOf_typed. intros b.
  unfold hasType. cbn [CorpusChunk.metadata]. apply metaIs_head.
Qed.

Lemma count_in_educationChunks ty edu c :
  educationChunks edu = JS.Normal c ->
  countOf (hasType ty) c
  = if (ty =? "education")%string
    then S (List.length (entries (Education.achievements edu))) else 0.
Proof.
  unfold educationChunks.
  destruct (Education.achievements edu) as [achievements|]; [|discriminate].
  cbn [present andThen entries]. intros H. injection H as <-.
  rewrite countOf_cons.
  rewrite (countOf_typed _ "education") by
    (intros b; unfold hasType; cbn [CorpusChunk.metadata]; apply metaIs_head).
  unfold hasType at 1. cbn [CorpusChunk.metadata]. rewrite metaIs_head.
  now destruct (ty =? "education")%string.
Qed.

Lemma count_sub_educationChunks sub edu c :
  educationChunks edu = JS.Normal c ->
  countOf (hasSubtype "education" sub) c
  = (if (sub =? "degree")%string then 1 else 0)
    + (if (sub =? "achievement")%string
       then List.length (entries (Education.achievements edu)) else 0).
Proof.
  assert (Hsub : forall v,
             metaIs "subtype" sub
               [ ("type", MStr "education"); ("subtype", MStr v) ]
             = (sub =? v)%string).
  { intros v. rewrite metaIs_skip by reflexivity. apply metaIs_head. }
  unfold educationChunks.
  destruct (Education.achievements edu) as [achievements|]; [|discriminate].
  cbn [present andThen entries]. intros H. injection H as <-.
  rewrite countOf_cons. f_equal.
  - unfold hasSubtype. cbn [CorpusChunk.metadata].
    rewrite metaIs_head, (Hsub "degree").
    now destruct (sub =? "degree")%string.
  - destruct (sub =? "achievement")%string eqn:E.
    + apply countOf_map_all. intros a. unfold hasSubtype.
      cbn [CorpusChunk.metadata]. now rewrite metaIs_head, (Hsub "achievement"), E.
    + apply countOf_map_none. intros a. unfold hasSubtype.
      cbn [CorpusChunk.metadata]. now rewrite metaIs_head, (Hsub "achievement"), E.
Qed.

Lemma count_in_skillChunk ty g c :
  skillChunk g = JS.Normal c ->
  countOf (hasType ty) c = if (ty =? "skill_group")%string then 1 else 0.
Proof.
  unfold skillChunk.
  destruct (SkillGroup.items g) as [items|]; [|discriminate].
  cbn [present andThen]. intros H. injection H as <-.
  rewrite countOf_cons. unfold hasType.
  cbn [CorpusChunk.metadata]. rewrite metaIs_head.
  now destruct (ty =? "skill_group")%string.
Qed.

Lemma count_in_certificationChunk ty cert c :
  JS.Normal [certificationChunk cert] = JS.Normal c ->
  countOf (hasType ty) c
  = if (ty =? "certification")%string then 1 else 0.
Proof.
  intros H. injection H as <-.
  rewrite countOf_cons. unfold hasType, certificationChunk.
  cbn [CorpusChunk.metadata]. rewrite metaIs_head.
  now destruct (ty =? "certification")%string.
Qed.

Lemma count_in_summary ty resumeJson :
  countOf (hasType ty)
    match professional_summary resumeJson with
    | Some s => if JS.truthyStr s then [summaryChunk s] else []
    | None => []
    end
  = if (ty =? "summary")%string then summaryCount resumeJson else 0.
Proof.
  unfold summaryCount.
  destruct (professional_summary resumeJson) as [s|];
    [destruct (JS.truthyStr s)|].
  - rewrite countOf_cons. unfold hasType, summaryChunk.
    cbn [CorpusChunk.metadata]. rewrite metaIs_head.
    now destruct (ty =? "summary")%string.
  - now destruct (ty =? "summary")%string.
  - now destruct (ty =? "summary")%string.
Qed.

(** What a run of the chunker that completes has pushed, loop by loop. *)
Lemma generateRichCorpus_parts resumeJson chunks :
  generateRichCorpus resumeJson = JS.Normal chunks ->
  exists work proj edu skill cert,
    forEachOf (work_experience resumeJson) workChunks = JS.Normal work
    /\ forEachOf (projects resumeJson) projectChunks = JS.Normal proj
    /\ forEachOf (education resumeJson) educationChunks = JS.Normal edu
    /\ forEachOf (skills resumeJson) skillChunk = JS.Normal skill
    /\ forEachOf (certifications resumeJson)
         (fun c => JS.Normal [certificationChunk c]) = JS.Normal cert
    /\ chunks
       = work ++ proj ++ edu ++ skill ++ cert
         ++ match professional_summary resumeJson with
            | Some s => if JS.truthyStr s then [summaryChunk s] else []
            | None => []
            end.
Proof.
  unfold generateRichCorpus. intros H.
  apply andThen_normal in H. destruct H as [work [Hw H]].
  apply andThen_normal in H. destruct H as [proj [Hp H]].
  apply andThen_normal in H. destruct H as [edu [He H]].
  apply andThen_normal in H. destruct H as [skill [Hs H]].
  apply andThen_normal in H. destruct H as [cert [Hc H]].
  injection H as <-. now exists work, proj, edu, skill, cert.
Qed.

(** The number of chunks of type [ty] in the whole corpus, category by
    category. *)
Lemma countOf_generateRichCorpus ty resumeJson chunks :
  generateRichCorpus resumeJson = JS.Normal chunks ->
  countOf (hasType ty) chunks
  = (if (ty =? "work_experience")%string
     then total (fun job =>
                   List.length (entries (WorkExperience.bullet_points job)))
                (entries (work_experience resumeJson)) else 0)
    + (if (ty =? "project")%string
       then total (fun proj =>
                     List.length (entries (Project.bullet_points proj)))
                  (entries (projects resumeJson)) else 0)
    + (if (ty =? "education")%string
       then total (fun edu =>
                     S (List.length (entries (Education.achievements edu))))
                  (entries (education resumeJson)) else 0)
    + (if (ty =? "skill_group")%string
       then List.length (entries (skills resumeJson)) else 0)
    + (if (ty =? "certification")%string
       then List.length (entries (certifications resumeJson)) else 0)
    + (if (ty =? "summary")%string then summaryCount resumeJson else 0).
Proof.
  intros H. apply generateRichCorpus_parts in H.
  destruct H as [work [proj [edu [skill [cert [Hw [Hp [He [Hs [Hc ->]]]]]]]]]].
  rewrite !countOf_app.
  rewrite (forEachOf_count _ _ _ _ _ (count_in_workChunks ty) Hw).
  rewrite (forEachOf_count _ _ _ _ _ (count_in_projectChunks ty) Hp).
  rewrite (forEachOf_count _ _ _ _ _ (count_in_educationChunks ty) He).
  rewrite (forEachOf_count _ _ _ _ _ (count_in_skillChunk ty) Hs).
  rewrite (forEachOf_count _ _ _ _ _ (count_in_certificationChunk ty) Hc).
  rewrite count_in_summary.
  destruct (ty =? "work_experience")%string, (ty =? "project")%string,
    (ty =? "education")%string, (ty =? "skill_group")%string,
    (ty =? "certification")%string;
    rewrite ?total_zero, ?total_one; lia.
Qed.

(** Decides the comparisons between string literals left in the goal. *)
Ltac compare_literals :=
  repeat match goal with
         | |- context [String.eqb ?a ?b] =>
             let v := eval vm_compute in (String.eqb a b) in
             change (String.eqb a b) with v
         end;
  cbv iota.

(** A chunk that is not of type education has no education subtype. *)
Lemma countOf_sub_zero sub (l : list CorpusChunk.t) :
  countOf (hasType "education") l = 0 ->
  countOf (hasSubtype "education" sub) l = 0.
Proof.
  unfold countOf. induction l as [|x l IH]; [reflexivity|].
  cbn [filter]. unfold hasSubtype at 1.
  destruct (hasType "education" x) eqn:E.
  - discriminate.
  - unfold hasType in E. now rewrite E.
Qed.

Lemma countOf_sub_generateRichCorpus sub resumeJson chunks :
  generateRichCorpus resumeJson = JS.Normal chunks ->
  countOf (hasSubtype "education" sub) chunks
  = (if (sub =? "degree")%string
     then List.length (entries (education resumeJson)) else 0)
    + (if (sub =? "achievement")%string
       then total (fun edu =>
                     List.length (entries (Education.achievements edu)))
                  (entries (education resumeJson)) else 0).
Proof.
  intros H. apply generateRichCorpus_parts in H.
  destruct H as [work [proj [edu [skill [cert [Hw [Hp [He [Hs [Hc ->]]]]]]]]]].
  rewrite !countOf_app.
  rewrite (countOf_sub_zero sub work) by
    (rewrite (forEachOf_count _ _ _ _ _ (count_in_workChunks "education") Hw);
     compare_literals; apply total_zero).
  rewrite (countOf_sub_zero sub proj) by
    (rewrite (forEachOf_count _ _ _ _ _ (count_in_projectChunks "education") Hp);
     compare_literals; apply total_zero).
  rewrite (forEachOf_count _ _ _ _ _ (count_sub_educationChunks sub) He).
  rewrite (countOf_sub_zero sub skill) by
    (rewrite (forEachOf_count _ _ _ _ _ (count_in_skillChunk "education") Hs);
     compare_literals; apply total_zero).
  rewrite (countOf_sub_zero sub cert) by
    (rewrite (forEachOf_count _ _ _ _ _
                (count_in_certificationChunk "education") Hc);
     compare_literals; apply total_zero).
  assert (Hsum : countOf (hasSubtype "education" sub)
                 match professional_summary resumeJson with
                 | Some s => if JS.truthyStr s then [summaryChunk s] else []
                 | None => []
                 end = 0).
  { destruct (professional_summary resumeJson) as [s|];
      [destruct (JS.truthyStr s)|]; reflexivity. }
  rewrite Hsum, total_add.
  destruct (sub =? "degree")%string, (sub =? "achievement")%string;
    rewrite ?total_zero, ?total_one; lia.
Qed.

Lemma countOf_all {A : Type} (l : list A) :
  countOf (fun _ => true) l = List.length l.
Proof.
  unfold countOf. induction l as [|x l IH]; [reflexivity|].
  cbn [filter List.length]. now rewrite IH.
Qed.

Lemma length_forEachOf {A B : Type} (body : A -> JS.Completion (list B))
    (cnt : A -> nat) field chunks :
  (forall x c, body x = JS.Normal c -> List.length c = cnt x) ->
  forEachOf field body = JS.Normal chunks ->
  List.length chunks = total cnt (entries field).
Proof.
  intros Hbody H. rewrite <- countOf_all.
  apply (forEachOf_count _ body); [|exact H].
  intros x c Hx. rewrite countOf_all. now apply Hbody.
Qed.

Lemma length_workChunks job c :
  workChunks job = JS.Normal c ->
  List.length c = List.length (entries (WorkExperience.bullet_points job)).
Proof.
  unfold workChunks.
  destruct (WorkExperience.bullet_points job) as [bullets|]; [|discriminate].
  cbn [present andThen entries]. intros H. injection H as <-.
  apply length_map.
Qed.

Lemma length_projectChunks proj c :
  projectChunks proj = JS.Normal c ->
  List.length c = List.length (entries (Project.bullet_points proj)).
Proof.
  unfold projectChunks.
  destruct (Project.technologies_used proj) as [tech|]; [|discriminate].
  destruct (Project.bullet_points proj) as [bullets|]; [|discriminate].
  cbn [present andThen entries]. intros H. injection H as <-.
  apply length_map.
Qed.

Lemma length_educationChunks edu c :
  educationChunks edu = JS.Normal c ->
  List.length c = 1 + List.length (entries (Education.achievements edu)).
Proof.
  unfold educationChunks.
  destruct (Education.achievements edu) as [achievements|]; [|discriminate].
  cbn [present andThen entries]. intros H. injection H as <-.
  cbn [List.length]. now rewrite length_map.
Qed.

Lemma length_skillChunk g c :
  skillChunk g = JS.Normal c -> List.length c = 1.
Proof.
  unfold skillChunk.
  destruct (SkillGroup.items g) as [items|]; [|discriminate].
  cbn [present andThen]. intros H. now injection H as <-.
Qed.

Lemma length_generateRichCorpus resumeJson chunks :
  generateRichCorpus resumeJson = JS.Normal chunks ->
  List.length chunks
  = total (fun job => List.length (entries (WorkExperience.bullet_points job)))
          (entries (work_experience resumeJson))
    + total (fun proj => List.length (entries (Project.bullet_points proj)))
            (entries (projects resumeJson))
    + List.length (entries (education resumeJson))
    + total (fun edu => List.length (entries (Education.achievements edu)))
            (entries (education resumeJson))
    + List.length (entries (skills resumeJson))
    + List.length (entries (certifications resumeJson))
    + summaryCount resumeJson.
Proof.
  intros H. apply generateRichCorpus_parts in H.
  destruct H as [work [proj [edu [skill [cert [Hw [Hp [He [Hs [Hc ->]]]]]]]]]].
  rewrite !length_app.
  rewrite (length_forEachOf _ _ _ _ length_workChunks Hw).
  rewrite (length_forEachOf _ _ _ _ length_projectChunks Hp).
  rewrite (length_forEachOf _ _ _ _ length_educationChunks He).
  rewrite (length_forEachOf _ (fun _ => 1) _ _ length_skillChunk Hs).
  rewrite (length_forEachOf _ (fun _ => 1) _ _
             (fun x c (Hx : JS.Normal [certificationChunk x] = JS.Normal c) =>
                f_equal (fun r => match r with
                                  | JS.Normal l => List.length l
                                  | JS.Throw => 1
                                  end) (eq_sym Hx)) Hc).
  rewrite total_add, !total_one.
  assert (Hsum : List.length
                 match professional_summary resumeJson with
                 | Some s => if JS.truthyStr s then [summaryChunk s] else []
                 | None => []
                 end = summaryCount resumeJson).
  { unfold summaryCount. destruct (professional_summary resumeJson) as [s|];
      [destruct (JS.truthyStr s)|]; reflexivity. }
  rewrite Hsum. lia.
Qed.

(** With complete entries no loop of the chunker throws. *)
Lemma generateRichCorpus_completes resumeJson :
  entriesComplete resumeJson = true ->
  exists chunks, generateRichCorpus resumeJson = JS.Normal chunks.
Proof.
  unfold entriesComplete. intros H.
  apply andb_true_iff in H. destruct H as [H Hs].
  apply andb_true_iff in H. destruct H as [H He].
  apply andb_true_iff in H. destruct H as [Hw Hp].
  assert (exists work,
            forEachOf (work_experience resumeJson) workChunks = JS.Normal work)
    as [work Ew].
  { apply (forEachOf_completes workChunks jobComplete); [|exact Hw].
    intros job Hj. unfold jobComplete in Hj. unfold workChunks.
    destruct (WorkExperience.bullet_points job); [|discriminate].
    eexists. reflexivity. }
  assert (exists proj,
            forEachOf (projects resumeJson) projectChunks = JS.Normal proj)
    as [proj Ep].
  { apply (forEachOf_completes projectChunks projectComplete); [|exact Hp].
    intros p Hj. unfold projectComplete in Hj. unfold projectChunks.
    destruct (Project.technologies_used p); [|discriminate].
    destruct (Project.bullet_points p); [|discriminate].
    eexists. reflexivity. }
  assert (exists edu,
            forEachOf (education resumeJson) educationChunks = JS.Normal edu)
    as [edu Ee].
  { apply (forEachOf_completes educationChunks educationComplete); [|exact He].
    intros e Hj. unfold educationComplete in Hj. unfold educationChunks.
    destruct (Education.achievements e); [|discriminate].
    eexists. reflexivity. }
  assert (exists skill,
            forEachOf (skills resumeJson) skillChunk = JS.Normal skill)
    as [skill Es].
  { apply (forEachOf_completes skillChunk skillGroupComplete); [|exact Hs].
    intros g Hj. unfold skillGroupComplete in Hj. unfold skillChunk.
    destruct (SkillGroup.items g); [|discriminate].
    eexists. reflexivity. }
  assert (exists cert,
            forEachOf (certifications resumeJson)
              (fun c => JS.Normal [certificationChunk c]) = JS.Normal cert)
    as [cert Ec].
  { apply (forEachOf_completes _ (fun _ => true)).
    - intros c _. eexists. reflexivity.
    - now apply forallb_forall. }
  unfold generateRichCorpus. rewrite Ew, Ep, Ee, Es, Ec. cbn [andThen].
  eexists. reflexivity.
Qed.

(** C6 as stated fails: a job that came back without its [bullet_points]
    array (the response schema does not require it) makes the chunker
    throw, where the claim says that an absent collection never causes an
    error. *)
Lemma generateRichCorpus_throws_without_bullets :
  (exists job,
     work_experience bulletlessResume = Some [job]
     /\ WorkExperience.bullet_points job = None)
  /\ generateRichCorpus bulletlessResume = JS.Throw.
Proof.
  split; [|reflexivity].
  eexists. split; reflexivity.
Qed.

(** C6, amended.  For a document whose entries are complete (each job with
    its bullets, each project with its technologies and bullets, each
    education entry with its achievements, each skill group with its
    items), the chunker completes and yields one chunk per work-experience
    bullet, one per project bullet, one degree chunk and one chunk per
    achievement for each education entry, one per skill group, one per
    certification and one for a non-empty professional summary, and nothing
    else; an empty collection, and an absent top-level collection,
    contributes no chunk and causes no error. *)
Theorem generateRichCorpus_one_chunk_per_fact (resumeJson : ParsedResume) :
  entriesComplete resumeJson = true ->
  exists chunks,
    generateRichCorpus resumeJson = JS.Normal chunks
    /\ countOf (hasType "work_experience") chunks
       = total (fun job =>
                  List.length (entries (WorkExperience.bullet_points job)))
               (entries (work_experience resumeJson))
    /\ countOf (hasType "project") chunks
       = total (fun proj => List.length (entries (Project.bullet_points proj)))
               (entries (projects resumeJson))
    /\ countOf (hasSubtype "education" "degree") chunks
       = List.length (entries (education resumeJson))
    /\ countOf (hasSubtype "education" "achievement") chunks
       = total (fun edu => List.length (entries (Education.achievements edu)))
               (entries (education resumeJson))
    /\ countOf (hasType "skill_group") chunks
       = List.length (entries (skills resumeJson))
    /\ countOf (hasType "certification") chunks
       = List.length (entries (certifications resumeJson))
    /\ countOf (hasType "summary") chunks = summaryCount resumeJson
    /\ List.length chunks
       = total (fun job =>
                  List.length (entries (WorkExperience.bullet_points job)))
               (entries (work_experience resumeJson))
         + total (fun proj =>
                    List.length (entries (Project.bullet_points proj)))
                 (entries (projects resumeJson))
         + List.length (entries (education resumeJson))
         + total (fun edu =>
                    List.length (entries (Education.achievements edu)))
                 (entries (education resumeJson))
         + List.length (entries (skills resumeJson))
         + List.length (entries (certifications resumeJson))
         + summaryCount resumeJson.
Proof.
  intros Hcomplete.
  destruct (generateRichCorpus_completes _ Hcomplete) as [chunks H].
  exists chunks. split; [exact H|].
  repeat match goal with |- _ /\ _ => split end;
    rewrite ?(countOf_generateRichCorpus _ _ _ H),
      ?(countOf_sub_generateRichCorpus _ _ _ H);
    compare_literals; try lia.
  now apply length_generateRichCorpus.
Qed.

Lemma generateRichCorpus_one_chunk_per_fact_witness :
  entriesComplete acmeResume = true
  /\ exists chunks,
       generateRichCorpus acmeResume = JS.Normal chunks
       /\ List.length chunks = 1.
Proof.
  assert (Hc : entriesComplete acmeResume = true) by reflexivity.
  split; [exact Hc|].
  destruct (generateRichCorpus_one_chunk_per_fact acmeResume Hc)
    as [chunks [H [_ [_ [_ [_ [_ [_ [_ Hlen]]]]]]]]].
  exists chunks. split; [exact H|]. exact Hlen.
Defined.

(** ** Enricher *)

(** C7 as stated fails: a response without text is a failure of the
    service, and [enrichItem] answers it with [null], not with the
    fallback item. *)
Lemma enrichItem_no_text_is_null :
  enrichItem exampleChunk NoText "k3x9q" = None
  /\ enrichItem exampleChunk NoText "k3x9q"
     <> Some (fallbackItem exampleChunk "k3x9q").
Proof. split; [reflexivity | discriminate]. Qed.

(** C7, amended.  Whatever is thrown inside the [try] is caught and
    answered with the fallback item; this is what happens when the call
    throws and when the response text cannot be read as JSON.  The fallback
    item has the chunk text as content (and as raw source), no keywords, no
    implied skills, the category "unknown" and the metadata of the chunk.
    When the response has no text, [enrichItem] returns [null].  In every
    case it returns: no exception leaves it. *)
Theorem enrichItem_on_failure
    (item : CorpusChunk.t) (reply : GenReply EnrichmentData.t) (rid : string) :
  (enrichItem_try item reply rid = JS.Throw ->
   enrichItem item reply rid = Some (fallbackItem item rid))
  /\ enrichItem_try item Rejected rid = JS.Throw
  /\ enrichItem_try item Malformed rid = JS.Throw
  /\ enrichItem item NoText rid = None
  /\ EnrichedCorpusItem.content (fallbackItem item rid) = CorpusChunk.text item
  /\ EnrichedCorpusItem.keywords (fallbackItem item rid) = []
  /\ EnrichedCorpusItem.skills_implied (fallbackItem item rid) = []
  /\ EnrichedCorpusItem.category (fallbackItem item rid) = "unknown"
  /\ EnrichedCorpusItem.raw_source (fallbackItem item rid) = CorpusChunk.text item
  /\ EnrichedCorpusItem.metadata (fallbackItem item rid) = CorpusChunk.metadata item.
Proof.
  split.
  - intros Hthrow. unfold enrichItem. now rewrite Hthrow.
  - repeat split.
Qed.

Lemma enrichItem_on_failure_witness :
  enrichItem exampleChunk Malformed "k3x9q"
  = Some (fallbackItem exampleChunk "k3x9q").
Proof.
  apply (proj1 (enrichItem_on_failure exampleChunk Malformed "k3x9q")).
  reflexivity.
Defined.

Lemma relIndex_of_nat len k : JS.relIndex len (Z.of_nat k) = Nat.min k len.
Proof.
  unfold JS.relIndex.
  destruct (Z.ltb_spec (Z.of_nat k) 0) as [H|H]; [lia|].
  now rewrite Nat2Z.id.
Qed.

(** A batch: [l.slice(i, i + b)] for [i] inside [l]. *)
Lemma slice_batch {A : Type} (i b : nat) (l : list A) :
  i <= List.length l ->
  JS.slice (Z.of_nat i) (Z.of_nat (i + b)) l = firstn b (skipn i l).
Proof.
  intros Hi. unfold JS.slice. rewrite !relIndex_of_nat.
  rewrite (Nat.min_l i) by exact Hi.
  destruct (Nat.le_ge_cases (i + b) (List.length l)) as [H|H].
  - rewrite Nat.min_l by exact H. f_equal. lia.
  - rewrite Nat.min_r by exact H.
    rewrite !firstn_all2; try reflexivity; rewrite length_skipn; lia.
Qed.

Lemma pushResults_app {A : Type} (results : list (option A)) acc :
  pushResults results acc = acc ++ flat_map resultList results.
Proof.
  unfold pushResults. revert acc.
  induction results as [|res results IH]; intros acc; cbn [fold_left flat_map].
  - now rewrite app_nil_r.
  - rewrite IH. destruct res; cbn [resultList]; [|reflexivity].
    now rewrite <- app_assoc.
Qed.

Section EnrichmentPhase.

Variable gen : nat -> GenReply EnrichmentData.t.
Variable rnd : nat -> string.

Lemma enrich_batch i (batch : list CorpusChunk.t) :
  flat_map resultList
    (map (fun '(k, item) => enrichItem item (gen k) (rnd k))
         (combine (seq i (List.length batch)) batch))
  = enrichFrom gen rnd i batch.
Proof.
  revert i. induction batch as [|item batch IH]; intros i; [reflexivity|].
  cbn [List.length seq combine map flat_map enrichFrom]. now rewrite IH.
Qed.

Lemma enrichFrom_split b i (l : list CorpusChunk.t) :
  enrichFrom gen rnd i l
  = enrichFrom gen rnd i (firstn b l) ++ enrichFrom gen rnd (i + b) (skipn b l).
Proof.
  revert i l. induction b as [|b IH]; intros i l.
  - cbn [firstn skipn enrichFrom app]. now rewrite Nat.add_0_r.
  - destruct l as [|item l]; [reflexivity|].
    cbn [firstn skipn enrichFrom]. rewrite <- app_assoc. f_equal.
    rewrite (IH (S i) l). do 2 f_equal. lia.
Qed.

Lemma enrichLoop_spec corpus fuel i acc :
  List.length corpus - i <= fuel ->
  enrichLoop gen rnd corpus fuel i acc
  = acc ++ enrichFrom gen rnd i (skipn i corpus).
Proof.
  revert i acc. induction fuel as [|fuel IH]; intros i acc Hfuel.
  - cbn [enrichLoop]. rewrite skipn_all2 by lia. now rewrite app_nil_r.
  - cbn [enrichLoop]. destruct (Nat.ltb_spec i (List.length corpus)) as [Hi|Hi].
    + rewrite IH by (unfold BATCH_SIZE; lia).
      rewrite pushResults_app, enrich_batch, slice_batch by lia.
      rewrite <- app_assoc. f_equal.
      rewrite (enrichFrom_split BATCH_SIZE i (skipn i corpus)).
      now rewrite skipn_skipn, (Nat.add_comm BATCH_SIZE i).
    + rewrite skipn_all2 by lia. now rewrite app_nil_r.
Qed.

(** The batching does not show in the result: the enrichment phase enriches
    the chunks in order. *)
Lemma enrichmentPhase_spec corpus :
  enrichmentPhase gen rnd corpus = enrichFrom gen rnd 0 corpus.
Proof.
  unfold enrichmentPhase. now rewrite enrichLoop_spec by lia.
Qed.

Lemma length_enrichFrom i (l : list CorpusChunk.t) :
  List.length (enrichFrom gen rnd i l)
  + countOf (fun k => isNoText (gen k)) (seq i (List.length l))
  = List.length l.
Proof.
  revert i. induction l as [|item l IH]; intros i; [reflexivity|].
  cbn [enrichFrom List.length seq]. rewrite length_app, countOf_cons.
  specialize (IH (S i)).
  unfold enrichItem, enrichItem_try.
  destruct (gen i); cbn [isNoText resultList List.length]; lia.
Qed.

End EnrichmentPhase.

(** C3 as stated fails: the chunk whose response has no text leaves no
    item at all. *)
Lemma enrichmentPhase_drops_chunk :
  enrichmentPhase (fun _ => NoText) (fun _ => "k3x9q") [exampleChunk] = []
  /\ List.length (enrichmentPhase (fun _ => NoText) (fun _ => "k3x9q") [exampleChunk])
     <> List.length [exampleChunk].
Proof. split; [reflexivity | discriminate]. Qed.

(** C3, amended.  The enrichment phase yields, in corpus order, one item
    for every chunk except those whose response has no text: it enriches
    the chunks one after the other whatever the batching, and the number of
    its items is the number of chunks less the number of responses without
    text.  A call that throws and a text that is not JSON both leave the
    fallback item, so they drop nothing. *)
Theorem enrichmentPhase_length
    (gen : nat -> GenReply EnrichmentData.t) (rnd : nat -> string)
    (corpus : list CorpusChunk.t) :
  enrichmentPhase gen rnd corpus = enrichFrom gen rnd 0 corpus
  /\ List.length (enrichmentPhase gen rnd corpus)
     + countNoText gen (List.length corpus)
     = List.length corpus.
Proof.
  split; [apply enrichmentPhase_spec|].
  rewrite enrichmentPhase_spec. apply length_enrichFrom.
Qed.

(** ** Vectorizer *)

Lemma length_setNth {A : Type} k (x : A) l :
  List.length (setNth k x l) = List.length l.
Proof.
  revert k. induction l as [|y l IH]; intros k; [reflexivity|].
  destruct k; cbn [setNth List.length]; [reflexivity | now rewrite IH].
Qed.

Lemma nth_error_setNth {A : Type} k (x : A) l j :
  nth_error (setNth k x l) j
  = if (j =? k)%nat then option_map (fun _ => x) (nth_error l j)
    else nth_error l j.
Proof.
  revert k j. induction l as [|y l IH]; intros k j.
  - cbn [setNth]. rewrite nth_error_nil. now destruct (j =? k)%nat.
  - destruct k, j; cbn [setNth nth_error]; try reflexivity.
    rewrite IH. reflexivity.
Qed.

Lemma nth_error_mapFrom {A B : Type} (f : nat -> A -> B) i l j :
  nth_error (mapFrom f i l) j = option_map (f (i + j)) (nth_error l j).
Proof.
  revert i j. induction l as [|x l IH]; intros i j.
  - cbn [mapFrom]. now rewrite !nth_error_nil.
  - destruct j; cbn [mapFrom nth_error option_map].
    + now rewrite Nat.add_0_r.
    + rewrite IH. do 2 f_equal. lia.
Qed.

Lemma length_mapFrom {A B : Type} (f : nat -> A -> B) i l :
  List.length (mapFrom f i l) = List.length l.
Proof.
  revert i. induction l as [|x l IH]; intros i; [reflexivity|].
  cbn [mapFrom List.length]. now rewrite IH.
Qed.

Lemma attachEmbeddings_spec embeddings k enrichedItems :
  k + List.length embeddings <= List.length enrichedItems ->
  List.length (attachEmbeddings k embeddings enrichedItems)
    = List.length enrichedItems
  /\ forall j,
      nth_error (attachEmbeddings k embeddings enrichedItems) j
      = option_map (written embeddings k j) (nth_error enrichedItems j).
Proof.
  revert k enrichedItems.
  induction embeddings as [|emb rest IH]; intros k items Hk.
  - split; [reflexivity|]. intros j. cbn [attachEmbeddings]. unfold written.
    rewrite nth_error_nil. destruct (nth_error items j), (k <=? j)%nat; reflexivity.
  - cbn [List.length] in Hk. cbn [attachEmbeddings].
    assert (Hshift : forall j d, k <> j ->
              written rest (S k) j d = written (emb :: rest) k j d).
    { intros j d Hj. unfold written.
      destruct (Nat.leb_spec (S k) j) as [H1|H1], (Nat.leb_spec k j) as [H2|H2];
        try lia; try reflexivity.
      replace (j - k) with (S (j - S k)) by lia. reflexivity. }
    destruct emb as [values|].
    + destruct (nth_error items k) as [d0|] eqn:Ek.
      2:{ apply nth_error_None in Ek. lia. }
      destruct (IH (S k) (setNth k (EnrichedCorpusItem.setEmbedding values d0) items))
        as [Hlen Hnth]; [rewrite length_setNth; lia|].
      split; [now rewrite Hlen, length_setNth|].
      intros j. rewrite Hnth, nth_error_setNth.
      destruct (Nat.eqb_spec j k) as [->|Hj].
      * rewrite Ek. cbn [option_map]. f_equal. unfold written.
        rewrite Nat.leb_refl, Nat.sub_diag.
        destruct (Nat.leb_spec (S k) k); [lia|]. reflexivity.
      * destruct (nth_error items j); [|reflexivity]. cbn [option_map].
        f_equal. apply Hshift. congruence.
    + destruct (IH (S k) items) as [Hlen Hnth]; [lia|].
      split; [exact Hlen|]. intros j. rewrite Hnth.
      destruct (nth_error items j) as [d|]; [|reflexivity]. cbn [option_map].
      f_equal. destruct (Nat.eq_dec k j) as [<-|Hj]; [|now apply Hshift].
      unfold written. rewrite Nat.leb_refl, Nat.sub_diag.
      destruct (Nat.leb_spec (S k) k); [lia|]. reflexivity.
Qed.

Section EmbeddingPhase.

Variable embed : nat -> list string -> EmbedReply.
Variable textsToEmbed : list string.
Hypothesis embed_aligned : aligned embed.

Let batchAt (i : nat) : list string :=
  JS.slice (Z.of_nat i) (Z.of_nat (i + EMBED_BATCH_SIZE)) textsToEmbed.

Lemma length_batchAt i :
  i <= List.length textsToEmbed -> List.length (batchAt i) <= EMBED_BATCH_SIZE.
Proof.
  intros Hi. unfold batchAt. rewrite slice_batch by exact Hi.
  rewrite length_firstn. apply Nat.le_min_l.
Qed.

Lemma length_batchAt_rest i :
  i <= List.length textsToEmbed ->
  i + List.length (batchAt i) <= List.length textsToEmbed.
Proof.
  intros Hi. unfold batchAt. rewrite slice_batch by exact Hi.
  rewrite length_firstn, length_skipn. lia.
Qed.

Lemma batch_position b j :
  b * EMBED_BATCH_SIZE <= j -> j < b * EMBED_BATCH_SIZE + EMBED_BATCH_SIZE ->
  j / EMBED_BATCH_SIZE = b /\ j mod EMBED_BATCH_SIZE = j - b * EMBED_BATCH_SIZE.
Proof.
  unfold EMBED_BATCH_SIZE. intros H1 H2. split.
  - symmetry. apply (Nat.div_unique j 20 b (j - b * 20)); lia.
  - symmetry. apply (Nat.mod_unique j 20 b (j - b * 20)); lia.
Qed.

(** One round of the loop, position by position: the round of batch [b]
    settles the positions of that batch and leaves the others alone. *)
Lemma embedBatch_spec b enrichedItems :
  let i := b * EMBED_BATCH_SIZE in
  i <= List.length textsToEmbed ->
  List.length enrichedItems = List.length textsToEmbed ->
  List.length (embedBatch embed i (batchAt i) enrichedItems)
    = List.length enrichedItems
  /\ forall j d,
      nth_error enrichedItems j = Some d ->
      nth_error (embedBatch embed i (batchAt i) enrichedItems) j
      = Some (if (i <=? j)%nat && (j <? i + EMBED_BATCH_SIZE)%nat
              then withReturned embed textsToEmbed j d
              else d).
Proof.
  intros i Hi Hlen.
  pose proof (length_batchAt i Hi) as Hb.
  pose proof (length_batchAt_rest i Hi) as Hr.
  assert (Hin : forall j d, i <= j -> j < i + EMBED_BATCH_SIZE ->
            withReturned embed textsToEmbed j d
            = match embed i (batchAt i) with
              | EmbedResponse (Some embeddings) => written embeddings i j d
              | _ => d
              end).
  { intros j d H1 H2. unfold withReturned, returnedAt, written.
    destruct (batch_position b j H1 H2) as [-> ->]. fold i. fold (batchAt i).
    destruct (Nat.leb_spec i j); [|lia].
    destruct (embed i (batchAt i)) as [|[embeddings|]]; try reflexivity.
    destruct (nth_error embeddings (j - i)) as [[values|]|]; reflexivity. }
  assert (Hcase : forall j d,
            (if (i <=? j)%nat && (j <? i + EMBED_BATCH_SIZE)%nat
             then withReturned embed textsToEmbed j d else d)
            = match embed i (batchAt i) with
              | EmbedResponse (Some embeddings) =>
                  if (i <=? j)%nat && (j <? i + EMBED_BATCH_SIZE)%nat
                  then written embeddings i j d else d
              | _ => d
              end).
  { intros j d.
    destruct (Nat.leb_spec i j), (Nat.ltb_spec j (i + EMBED_BATCH_SIZE));
      cbn [andb]; try rewrite Hin by lia;
      destruct (embed i (batchAt i)) as [|[embeddings|]]; reflexivity. }
  unfold embedBatch.
  destruct (embed i (batchAt i)) as [|[embeddings|]] eqn:Ereply.
  - split; [reflexivity|]. intros j d Hj. now rewrite Hj, Hcase.
  - pose proof (embed_aligned _ _ _ Ereply) as Hal.
    destruct (attachEmbeddings_spec embeddings i enrichedItems) as [Hl Hn]; [lia|].
    split; [exact Hl|]. intros j d Hj. rewrite Hn, Hj, Hcase. cbn [option_map].
    f_equal.
    destruct (Nat.leb_spec i j), (Nat.ltb_spec j (i + EMBED_BATCH_SIZE));
      cbn [andb]; try reflexivity; unfold written.
    + destruct (Nat.leb_spec i j); [|lia].
      assert (Hnone : nth_error embeddings (j - i) = None)
        by (apply nth_error_None; lia).
      now rewrite Hnone.
    + destruct (Nat.leb_spec i j); [lia|]. reflexivity.
    + destruct (Nat.leb_spec i j); [lia|]. reflexivity.
  - split; [reflexivity|]. intros j d Hj. now rewrite Hj, Hcase.
Qed.

Lemma embedLoop_spec fuel b enrichedItems :
  let i := b * EMBED_BATCH_SIZE in
  List.length enrichedItems = List.length textsToEmbed ->
  List.length textsToEmbed - i <= fuel ->
  List.length (embedLoop embed fuel i textsToEmbed enrichedItems)
    = List.length enrichedItems
  /\ forall j d,
      nth_error enrichedItems j = Some d ->
      nth_error (embedLoop embed fuel i textsToEmbed enrichedItems) j
      = Some (if (i <=? j)%nat then withReturned embed textsToEmbed j d else d).
Proof.
  revert b enrichedItems.
  induction fuel as [|fuel IH]; intros b items i Hlen Hfuel.
  - split; [reflexivity|]. intros j d Hj. cbn [embedLoop]. rewrite Hj.
    assert (j < List.length items) by (apply nth_error_Some; congruence).
    destruct (Nat.leb_spec i j); [lia|]. reflexivity.
  - cbn [embedLoop].
    destruct (Nat.ltb_spec i (List.length textsToEmbed)) as [Hi|Hi].
    + destruct (embedBatch_spec b items) as [Hl Hn]; [fold i; lia | exact Hlen |].
      fold i in Hl, Hn. fold (batchAt i).
      destruct (IH (S b) (embedBatch embed i (batchAt i) items)) as [Hl' Hn'];
        [congruence | unfold EMBED_BATCH_SIZE in *; fold i; lia |].
      replace (S b * EMBED_BATCH_SIZE) with (i + EMBED_BATCH_SIZE) in Hl', Hn'
        by (unfold i; lia).
      split; [congruence|]. intros j d Hj.
      rewrite (Hn' j _ (Hn j d Hj)). f_equal.
      destruct (Nat.leb_spec i j), (Nat.ltb_spec j (i + EMBED_BATCH_SIZE)),
        (Nat.leb_spec (i + EMBED_BATCH_SIZE) j); cbn [andb]; try lia; reflexivity.
    + split; [reflexivity|]. intros j d Hj. rewrite Hj.
      assert (j < List.length items) by (apply nth_error_Some; congruence).
      destruct (Nat.leb_spec i j); [lia|]. reflexivity.
Qed.

End EmbeddingPhase.

(** With an aligned service, the embedding phase attaches to every item the
    vector returned at its position and touches nothing else. *)
Lemma embeddingPhase_spec embed enrichedItems :
  aligned embed ->
  embeddingPhase embed enrichedItems = attachByPosition embed enrichedItems.
Proof.
  intros Hal. unfold embeddingPhase, attachByPosition.
  set (texts := map EnrichedCorpusItem.content enrichedItems).
  destruct (embedLoop_spec embed texts Hal (List.length texts) 0 enrichedItems)
    as [Hl Hn]; [unfold texts; now rewrite length_map | cbn; lia |].
  cbn [Nat.mul] in Hl, Hn.
  apply nth_error_ext. intros j. rewrite nth_error_mapFrom. cbn [Nat.add].
  destruct (nth_error enrichedItems j) as [d|] eqn:Ej.
  - now rewrite (Hn j d Ej).
  - cbn [option_map]. apply nth_error_None. rewrite Hl. now apply nth_error_None.
Qed.

Lemma enrichFrom_unset gen rnd i l :
  Forall (fun d => EnrichedCorpusItem.embedding d = None) (enrichFrom gen rnd i l).
Proof.
  revert i. induction l as [|item l IH]; intros i; [constructor|].
  cbn [enrichFrom]. apply Forall_app. split; [|apply IH].
  unfold enrichItem, enrichItem_try.
  destruct (gen i); cbn [resultList]; repeat constructor.
Qed.

Lemma withReturned_fields embed texts k d :
  EnrichedCorpusItem.embedding d = None ->
  let d' := withReturned embed texts k d in
  EnrichedCorpusItem.embedding d' = returnedAt embed texts k
  /\ EnrichedCorpusItem.id d' = EnrichedCorpusItem.id d
  /\ EnrichedCorpusItem.content d' = EnrichedCorpusItem.content d
  /\ EnrichedCorpusItem.metadata d' = EnrichedCorpusItem.metadata d.
Proof.
  intros Hd. unfold withReturned.
  destruct (returnedAt embed texts k); cbn; auto.
Qed.

(** C5 as stated fails: the 21st vector of the response to the first batch
    lands on the item at position 20, the first of the second batch, whose
    own batch returned nothing; that item is in the vector store. *)
Lemma embedding_spills_into_next_batch :
  let enrichedItems := enrichmentPhase genDown rndOfPosition corpus21 in
  let vectorStore :=
    enrichAndEmbedCorpus genDown rndOfPosition embedOneTooMany corpus21 in
  returnedAt embedOneTooMany (map EnrichedCorpusItem.content enrichedItems) 20
    = None
  /\ option_map EnrichedCorpusItem.embedding (nth_error vectorStore 20)
     = Some (Some [1%float])
  /\ List.length vectorStore = 21
  /\ List.length (filter EnrichedCorpusItem.hasEmbedding
                    (attachByPosition embedOneTooMany enrichedItems)) = 20.
Proof. vm_compute. repeat split. Qed.

(** C5, amended.  Provided no response of the embedding service has more
    entries than the batch it answers, every enriched item leaves the
    embedding phase with exactly the vector returned at its batch-relative
    position, or with no embedding when that position has no returned
    vector, its other fields untouched; and the vector store is the
    sub-list, in the original order, of the items that received one. *)
Theorem enrichAndEmbedCorpus_by_position
    (gen : nat -> GenReply EnrichmentData.t) (rnd : nat -> string)
    (embed : nat -> list string -> EmbedReply) (corpus : list CorpusChunk.t) :
  aligned embed ->
  let enrichedItems := enrichmentPhase gen rnd corpus in
  let textsToEmbed := map EnrichedCorpusItem.content enrichedItems in
  (forall k d,
      nth_error enrichedItems k = Some d ->
      exists d',
        nth_error (embeddingPhase embed enrichedItems) k = Some d'
        /\ EnrichedCorpusItem.embedding d' = returnedAt embed textsToEmbed k
        /\ EnrichedCorpusItem.id d' = EnrichedCorpusItem.id d
        /\ EnrichedCorpusItem.content d' = EnrichedCorpusItem.content d
        /\ EnrichedCorpusItem.metadata d' = EnrichedCorpusItem.metadata d)
  /\ List.length (embeddingPhase embed enrichedItems) = List.length enrichedItems
  /\ enrichAndEmbedCorpus gen rnd embed corpus
     = filter EnrichedCorpusItem.hasEmbedding
              (attachByPosition embed enrichedItems).
Proof.
  intros Hal enrichedItems textsToEmbed.
  assert (Hphase := embeddingPhase_spec embed enrichedItems Hal).
  split; [|split].
  - intros k d Hk. exists (withReturned embed textsToEmbed k d).
    rewrite Hphase. unfold attachByPosition.
    rewrite nth_error_mapFrom, Hk. cbn [option_map Nat.add].
    split; [reflexivity|]. apply withReturned_fields.
    pose proof (enrichFrom_unset gen rnd 0 corpus) as Hun.
    rewrite <- enrichmentPhase_spec in Hun. fold enrichedItems in Hun.
    rewrite Forall_forall in Hun. apply Hun. eapply nth_error_In. exact Hk.
  - rewrite Hphase. apply length_mapFrom.
  - unfold enrichAndEmbedCorpus. fold enrichedItems. now rewrite Hphase.
Qed.

Lemma enrichAndEmbedCorpus_by_position_witness :
  aligned embedEach
  /\ enrichAndEmbedCorpus genDown rndOfPosition embedEach corpus21
     = filter EnrichedCorpusItem.hasEmbedding
         (attachByPosition embedEach
            (enrichmentPhase genDown rndOfPosition corpus21)).
Proof.
  assert (Hal : aligned embedEach).
  { intros i texts embeddings H. injection H as <-. rewrite length_map. lia. }
  split; [exact Hal|].
  exact (proj2 (proj2
    (enrichAndEmbedCorpus_by_position genDown rndOfPosition embedEach corpus21 Hal))).
Defined.

(** ** Requirement extractor *)

(** C9 as stated fails: asked for two requirements, the extractor returns
    the three the service listed. *)
Lemma extractRequirementsFromJD_exceeds_count :
  extractRequirementsFromJD "Backend role" 2 genThree
    = ["Python"; "Kubernetes"; "SQL"]
  /\ ~ (Z.of_nat (List.length (extractRequirementsFromJD "Backend role" 2 genThree))
        <= 2)%Z.
Proof. split; [reflexivity | cbn; lia]. Qed.

(** C9, amended.  The extractor returns the list the text-generation
    service produced, as it is and whatever its length, and the empty list
    when the call throws, when the response has no text or when the text is
    not JSON.  The target count reaches the service in the prompt and bounds
    nothing. *)
Theorem extractRequirementsFromJD_returns_reply
    (jdText : string) (requirementCount : Z)
    (gen : string -> GenReply (list string)) :
  extractRequirementsFromJD jdText requirementCount gen
  = match gen (extractPrompt jdText requirementCount) with
    | Parsed requirements => requirements
    | _ => []
    end.
Proof.
  unfold extractRequirementsFromJD, extractRequirementsFromJD_try.
  now destruct (gen (extractPrompt jdText requirementCount)).
Qed.

Lemma substring0_prefix n s :
  (exists rest, s = (JS.substring0 n s ++ rest)%string)
  /\ String.length (JS.substring0 n s) = Nat.min n (String.length s).
Proof.
  unfold JS.substring0. revert s. induction n as [|n IH]; intros s.
  - split; [exists s|]; now destruct s.
  - destruct s as [|c s]; [split; [now exists EmptyString | reflexivity]|].
    destruct (IH s) as [[rest Hrest] Hlen]. cbn [String.substring String.length].
    split; [exists rest; cbn [String.append]; now rewrite <- Hrest|].
    now rewrite Hlen.
Qed.

(** C8.  Whenever the extraction returns no requirement, which is what it
    does when the call throws, when the response has no text, when the text
    is not JSON and when the service lists nothing, [getRagContext] takes
    the first 1000 characters of the job description as the only
    requirement; the list of requirements it hands to the embedding service
    is therefore never empty, and the embedding service is asked for that
    list and no other. *)
Theorem ragRequirements_fallback
    (jdText : string) (count : Z)
    (gen : string -> GenReply (list string)) :
  (extractRequirementsFromJD jdText count gen = [] ->
   ragRequirements jdText count gen = [JS.substring0 1000 jdText])
  /\ match gen (extractPrompt jdText count) with
     | Parsed (_ :: _) => True
     | _ => ragRequirements jdText count gen = [JS.substring0 1000 jdText]
     end
  /\ 1 <= List.length (ragRequirements jdText count gen)
  /\ (exists rest, jdText = (JS.substring0 1000 jdText ++ rest)%string)
  /\ String.length (JS.substring0 1000 jdText)
     = Nat.min 1000 (String.length jdText)
  /\ forall embed vectorStore options,
      count = orDefault 6%Z (requirementCount options) ->
      getRagContext gen embed jdText vectorStore options
      = getRagContext gen
          (fun _ => embed (ragRequirements jdText count gen))
          jdText vectorStore options.
Proof.
  split; [|split; [|split; [|split; [|split]]]].
  - intros H. unfold ragRequirements. now rewrite H.
  - unfold ragRequirements, extractRequirementsFromJD,
      extractRequirementsFromJD_try.
    destruct (gen (extractPrompt jdText count)) as [| | |[|r l]];
      first [reflexivity | exact I].
  - unfold ragRequirements.
    destruct (extractRequirementsFromJD jdText count gen);
      cbn [List.length Nat.eqb]; lia.
  - apply substring0_prefix.
  - apply substring0_prefix.
  - intros embed vectorStore options ->. reflexivity.
Qed.

Lemma ragRequirements_fallback_witness :
  ragRequirements "Senior engineer, payments" 6 (fun _ => Rejected)
  = [JS.substring0 1000 "Senior engineer, payments"].
Proof.
  apply (proj1 (ragRequirements_fallback "Senior engineer, payments" 6
                  (fun _ => Rejected))).
  reflexivity.
Defined.

(** ** Similarity *)

(** C10.  The score of a store item against a requirement vector leaves
    [[-1, 1]]: the requirement whose embedding came back without values is
    given the empty vector, and the quotient is then 0/0, which is NaN; the
    same holds for a vector of zeros and for a store vector shorter than
    the requirement vector; and the rounding of the two square roots puts
    the similarity of (1,1,1) to itself above 1. *)
Theorem score_outside_unit_interval :
  let item := storeItem "a" "work_experience" (Some [1; 0]%float) in
  reqEmbeddingsOf (EmbedResponse (Some [None])) = [[]]
  /\ map score (scoresFor [] [item]) = [nan]
  /\ inUnitInterval nan = false
  /\ cosineSimilarity [0; 0]%float [1; 0]%float = nan
  /\ cosineSimilarity [1; 0]%float [1]%float = nan
  /\ inUnitInterval (cosineSimilarity [1; 1; 1]%float [1; 1; 1]%float) = false.
Proof. vm_compute. repeat split. Qed.

(** ** The final id set *)

Lemma setHas_In x s : setHas x s = true <-> In x s.
Proof.
  unfold setHas. rewrite existsb_exists. split.
  - intros [y [Hy E]]. apply String.eqb_eq in E. now subst.
  - intros H. exists x. split; [exact H | apply String.eqb_refl].
Qed.

Lemma setAdd_In x s y : In y (setAdd x s) <-> y = x \/ In y s.
Proof.
  unfold setAdd. destruct (setHas x s) eqn:E.
  - apply setHas_In in E. split; [tauto | intros [->|]; assumption].
  - rewrite in_app_iff. cbn [In]. intuition congruence.
Qed.

Lemma setAdd_NoDup x s : NoDup s -> NoDup (setAdd x s).
Proof.
  intros H. unfold setAdd. destruct (setHas x s) eqn:E; [exact H|].
  apply NoDup_app; [exact H | repeat constructor; intros [] |].
  intros y Hy [<-|[]]. apply setHas_In in Hy. congruence.
Qed.

Lemma length_setAdd x s :
  List.length s <= List.length (setAdd x s) <= S (List.length s).
Proof.
  unfold setAdd. destruct (setHas x s); [lia|].
  rewrite length_app. cbn [List.length]. lia.
Qed.

Lemma addAll_spec (l : list EnrichedCorpusItem.t) s :
  NoDup s ->
  let s' := fold_left (fun s d => setAdd (EnrichedCorpusItem.id d) s) l s in
  NoDup s'
  /\ forall y, In y s' <-> In y s \/ exists d, In d l /\ EnrichedCorpusItem.id d = y.
Proof.
  revert s. induction l as [|d l IH]; intros s Hs; cbn [fold_left].
  - split; [exact Hs|]. intros y. split; [tauto|]. now intros [H|[d [[] _]]].
  - destruct (IH (setAdd (EnrichedCorpusItem.id d) s)) as [Hn Hin];
      [now apply setAdd_NoDup|].
    split; [exact Hn|]. intros y. rewrite Hin, setAdd_In. cbn [In]. split.
    + intros [[->|H]|[d' [Hd' E]]]; eauto.
    + intros [H|[d' [[->|Hd'] E]]]; eauto.
Qed.

Lemma addOfType_spec ty vectorStore s :
  NoDup s ->
  NoDup (addOfType ty vectorStore s)
  /\ forall y, In y (addOfType ty vectorStore s)
       <-> In y s
           \/ exists d, In d vectorStore
                /\ metaIs "type" ty (EnrichedCorpusItem.metadata d) = true
                /\ EnrichedCorpusItem.id d = y.
Proof.
  intros Hs. unfold addOfType.
  destruct (addAll_spec
              (filter (fun d => metaIs "type" ty (EnrichedCorpusItem.metadata d))
                      vectorStore) s Hs) as [Hn Hin].
  split; [exact Hn|]. intros y. rewrite Hin. split.
  - intros [H|[d [Hd E]]]; [now left|]. apply filter_In in Hd. right. exists d. tauto.
  - intros [H|[d [Hd [Hty E]]]]; [now left|]. right. exists d.
    split; [apply filter_In; tauto | exact E].
Qed.

Lemma fixedIds_spec includeSummary includeEducation vectorStore :
  NoDup (fixedIds includeSummary includeEducation vectorStore)
  /\ forall y, In y (fixedIds includeSummary includeEducation vectorStore)
       <-> exists d, In d vectorStore
             /\ isFixed includeSummary includeEducation d = true
             /\ EnrichedCorpusItem.id d = y.
Proof.
  unfold fixedIds, isFixed.
  destruct (addOfType_spec "summary" vectorStore [] (NoDup_nil _)) as [Hn1 Hi1].
  destruct includeSummary, includeEducation; cbn [andb orb].
  - destruct (addOfType_spec "education" vectorStore _ Hn1) as [Hn2 Hi2].
    split; [exact Hn2|]. intros y. rewrite Hi2, Hi1. cbn [In]. split.
    + intros [[[]|[d [Hd [Hty E]]]]|[d [Hd [Hty E]]]]; exists d;
        rewrite Hty; repeat split; auto using orb_true_r.
    + intros [d [Hd [Hty E]]]. apply orb_true_iff in Hty.
      destruct Hty; [left; right | right]; exists d; auto.
  - split; [exact Hn1|]. intros y. rewrite Hi1. cbn [In]. split.
    + intros [[]|[d [Hd [Hty E]]]]. exists d. rewrite Hty. auto.
    + intros [d [Hd [Hty E]]]. rewrite orb_false_r in Hty. right. exists d. auto.
  - destruct (addOfType_spec "education" vectorStore [] (NoDup_nil _)) as [Hn2 Hi2].
    split; [exact Hn2|]. intros y. rewrite Hi2. cbn [In]. split.
    + intros [[]|[d [Hd [Hty E]]]]. exists d. auto.
    + intros [d [Hd [Hty E]]]. right. exists d. auto.
  - split; [constructor|]. intros y. cbn [In]. split; [tauto|].
    now intros [d [_ [Hty _]]].
Qed.

Lemma addRanked_spec bound sortedIds finalIds :
  NoDup finalIds ->
  (Z.of_nat (List.length finalIds) <= bound)%Z ->
  NoDup (addRanked bound sortedIds finalIds)
  /\ (Z.of_nat (List.length (addRanked bound sortedIds finalIds)) <= bound)%Z
  /\ incl finalIds (addRanked bound sortedIds finalIds).
Proof.
  revert finalIds. induction sortedIds as [|uid rest IH]; intros s Hs Hb;
    cbn [addRanked].
  - auto using incl_refl.
  - destruct (Z.geb_spec (Z.of_nat (List.length s)) bound) as [H|H];
      [auto using incl_refl|].
    pose proof (length_setAdd uid s) as Hl.
    destruct (IH (setAdd uid s)) as [Hn [Hle Hincl]];
      [now apply setAdd_NoDup | lia |].
    repeat split; try assumption.
    intros y Hy. apply Hincl, setAdd_In. now right.
Qed.

Lemma addRanked_full bound sortedIds finalIds :
  (bound <= Z.of_nat (List.length finalIds))%Z ->
  addRanked bound sortedIds finalIds = finalIds.
Proof.
  intros H. destruct sortedIds as [|uid rest]; cbn [addRanked]; [reflexivity|].
  destruct (Z.geb_spec (Z.of_nat (List.length finalIds)) bound); [reflexivity | lia].
Qed.

Lemma NoDup_map_filter {A B : Type} (f : A -> B) (p : A -> bool) l :
  NoDup (map f l) -> NoDup (map f (filter p l)).
Proof.
  induction l as [|x l IH]; cbn [map filter]; intros H; [constructor|].
  inversion H as [|? ? Hx Hl]; subst.
  destruct (p x); [|now apply IH]. cbn [map]. constructor; [|now apply IH].
  intros Hin. apply Hx. apply in_map_iff in Hin. destruct Hin as [y [E Hy]].
  apply filter_In in Hy. apply in_map_iff. exists y. tauto.
Qed.

Lemma NoDup_map_eq {A B : Type} (f : A -> B) l a b :
  NoDup (map f l) -> In a l -> In b l -> f a = f b -> a = b.
Proof.
  induction l as [|x l IH]; cbn [map In]; intros H Ha Hb E; [contradiction|].
  inversion H as [|? ? Hx Hl]; subst.
  destruct Ha as [->|Ha], Hb as [->|Hb]; auto.
  - exfalso. apply Hx. rewrite E. now apply in_map.
  - exfalso. apply Hx. rewrite <- E. now apply in_map.
Qed.

(** With distinct ids, a set of ids selects no more documents than it has
    members. *)
Lemma length_selected vectorStore finalIds :
  NoDup (storeIds vectorStore) ->
  List.length (filter (fun doc => setHas (EnrichedCorpusItem.id doc) finalIds)
                 vectorStore)
  <= List.length finalIds.
Proof.
  intros Hnd.
  rewrite <- (length_map EnrichedCorpusItem.id).
  apply NoDup_incl_length; [now apply NoDup_map_filter|].
  intros y Hy. apply in_map_iff in Hy. destruct Hy as [d [<- Hd]].
  apply filter_In in Hd. now apply setHas_In.
Qed.

Lemma length_fixedIds includeSummary includeEducation vectorStore :
  List.length (fixedIds includeSummary includeEducation vectorStore)
  <= fixedCount includeSummary includeEducation vectorStore.
Proof.
  destruct (fixedIds_spec includeSummary includeEducation vectorStore) as [Hn Hin].
  unfold fixedCount, countOf. rewrite <- (length_map EnrichedCorpusItem.id).
  apply NoDup_incl_length; [exact Hn|].
  intros y Hy. apply Hin in Hy. destruct Hy as [d [Hd [Hf E]]].
  apply in_map_iff. exists d. split; [exact E | apply filter_In; tauto].
Qed.

(** ** The size of the context *)

(** C1 as stated fails: two store items drew the same id; the id is ranked
    once and both items are rendered, two blocks under a limit of one with
    no fixed inclusion. *)
Lemma colliding_ids_exceed_limit :
  List.length (ragContextBlocks genOne embedOne "Backend role" collidingStore limitOne)
    = 2
  /\ fixedCount true true collidingStore = 0
  /\ ~ (Z.of_nat (List.length (ragContextBlocks genOne embedOne "Backend role"
                                 collidingStore limitOne))
        <= 1 + Z.of_nat (fixedCount true true collidingStore))%Z.
Proof. vm_compute. repeat split. intros H. apply H. reflexivity. Qed.

(** C1, amended.  For every vector store whose items have pairwise distinct
    ids, every job description, every behaviour of the two services and
    every options with a limit [N >= 0], the context has at most [N] blocks
    more than there are fixed inclusions in the store; and with [N = 0] the
    blocks are exactly those of the fixed inclusions, in store order. *)
Theorem getRagContext_block_bound
    (gen : string -> GenReply (list string)) (embed : list string -> EmbedReply)
    (jdText : string) (vectorStore : list EnrichedCorpusItem.t)
    (options : RagOptions) :
  let N := orDefault 15%Z (finalContextLimit options) in
  let summary := orDefault true (includeSummary options) in
  let education := orDefault true (includeEducation options) in
  NoDup (storeIds vectorStore) ->
  (0 <= N)%Z ->
  (Z.of_nat (List.length (ragContextBlocks gen embed jdText vectorStore options))
   <= N + Z.of_nat (fixedCount summary education vectorStore))%Z
  /\ (N = 0%Z ->
      ragContextBlocks gen embed jdText vectorStore options
      = map renderBlock (filter (isFixed summary education) vectorStore))
  /\ getRagContext gen embed jdText vectorStore options
     = JS.join (JS.nl ++ JS.nl)%string
         (ragContextBlocks gen embed jdText vectorStore options).
Proof.
  intros N summary education Hnd HN.
  destruct (fixedIds_spec summary education vectorStore) as [Hfn Hfin].
  pose proof (length_fixedIds summary education vectorStore) as Hfl.
  split; [|split; [|reflexivity]].
  - unfold ragContextBlocks, ragSelected. rewrite length_map.
    etransitivity; [apply Nat2Z.inj_le, length_selected, Hnd|].
    unfold ragFinalIds. fold summary. fold education. fold N.
    match goal with
    | |- (Z.of_nat (List.length (addRanked ?b ?ids ?s)) <= _)%Z =>
        destruct (addRanked_spec b ids s) as [_ [Hle _]]
    end; [exact Hfn | lia | lia].
  - intros HN0. unfold ragContextBlocks, ragSelected. f_equal.
    unfold ragFinalIds. fold summary. fold education. fold N.
    rewrite addRanked_full by lia.
    apply filter_ext_in. intros d Hd.
    destruct (isFixed summary education d) eqn:Ef.
    + apply setHas_In, Hfin. now exists d.
    + destruct (setHas (EnrichedCorpusItem.id d)
                  (fixedIds summary education vectorStore)) eqn:Eh; [|reflexivity].
      apply setHas_In, Hfin in Eh. destruct Eh as [d' [Hd' [Hf' E]]].
      rewrite (NoDup_map_eq EnrichedCorpusItem.id vectorStore d' d Hnd Hd' Hd E) in Hf'.
      congruence.
Qed.

Lemma getRagContext_block_bound_witness :
  (Z.of_nat (List.length (ragContextBlocks genOne embedOne "Backend role"
               [ storeItem "a" "work_experience" (Some [1; 0]%float);
                 storeItem "b" "summary" (Some [0; 1]%float);
                 storeItem "c" "project" (Some [1; 1]%float) ]
               limitOne))
   <= 1 + 1)%Z.
Proof.
  refine (proj1 (getRagContext_block_bound genOne embedOne "Backend role"
            [ storeItem "a" "work_experience" (Some [1; 0]%float);
              storeItem "b" "summary" (Some [0; 1]%float);
              storeItem "c" "project" (Some [1; 1]%float) ]
            limitOne _ _)).
  - repeat constructor; cbn; intuition discriminate.
  - cbn. lia.
Defined.

(** ** Items without an embedding *)

(** C2 as stated fails: handed a store that holds an item without an
    embedding, the retriever scores the item -1, ranks it and renders its
    block. *)
Lemma unembedded_item_is_rendered :
  ragSelected genOne embedOne "Backend role" unembeddedStore noOptions
    = unembeddedStore
  /\ map EnrichedCorpusItem.embedding unembeddedStore = [None]
  /\ map score (scoresFor [1; 0]%float unembeddedStore) = [(-1)%float]
  /\ List.length (ragContextBlocks genOne embedOne "Backend role"
                    unembeddedStore noOptions) = 1.
Proof. vm_compute. repeat split. Qed.

(** C2, amended.  Every block of the context is rendered for an item of the
    store it was given; hence for a store built by [enrichAndEmbedCorpus],
    which keeps only the items that received an embedding, no block is
    rendered for an item without one, whatever the options and the
    behaviour of the services.  (The retriever itself filters nothing: an
    item of the store without an embedding is scored -1 and competes.) *)
Theorem getRagContext_only_embedded
    (genE : nat -> GenReply EnrichmentData.t) (rnd : nat -> string)
    (embedE : nat -> list string -> EmbedReply) (corpus : list CorpusChunk.t)
    (gen : string -> GenReply (list string)) (embed : list string -> EmbedReply)
    (jdText : string) (options : RagOptions) :
  let vectorStore := enrichAndEmbedCorpus genE rnd embedE corpus in
  (forall store, incl (ragSelected gen embed jdText store options) store)
  /\ Forall (fun doc => EnrichedCorpusItem.embedding doc <> None)
            (ragSelected gen embed jdText vectorStore options)
  /\ ragContextBlocks gen embed jdText vectorStore options
     = map renderBlock (ragSelected gen embed jdText vectorStore options).
Proof.
  intros vectorStore.
  assert (Hincl : forall store,
             incl (ragSelected gen embed jdText store options) store).
  { intros store d Hd. unfold ragSelected in Hd. now apply filter_In in Hd. }
  split; [exact Hincl|]. split; [|reflexivity].
  apply Forall_forall. intros d Hd. apply Hincl in Hd.
  unfold vectorStore, enrichAndEmbedCorpus in Hd. apply filter_In in Hd.
  destruct Hd as [_ He]. unfold EnrichedCorpusItem.hasEmbedding in He.
  now destruct (EnrichedCorpusItem.embedding d).
Qed.

(** ** Sorting with a comparator *)

Section SortFacts.

Context {A : Type} (gt : A -> A -> bool).

Lemma insert_perm x l : Permutation (JS.insert gt x l) (x :: l).
Proof.
  induction l as [|y l IH]; cbn [JS.insert]; [reflexivity|].
  destruct (gt x y); [|reflexivity].
  rewrite IH. apply perm_swap.
Qed.

Lemma sort_perm l : Permutation (JS.sort gt l) l.
Proof.
  unfold JS.sort. induction l as [|x l IH]; cbn [fold_right]; [reflexivity|].
  rewrite insert_perm. now constructor.
Qed.

Lemma length_sort l : List.length (JS.sort gt l) = List.length l.
Proof. apply Permutation_length, sort_perm. Qed.

Lemma consistentb_sound l :
  consistentb gt l = true -> asymOn gt l /\ transOn gt l.
Proof.
  unfold consistentb. rewrite forallb_forall. intros H. split.
  - intros a b Ha Hb Hab. specialize (H a Ha).
    rewrite forallb_forall in H. specialize (H b Hb).
    apply andb_true_iff in H. destruct H as [H _].
    rewrite Hab in H. cbn [implb] in H. now apply negb_true_iff.
  - intros a b c Ha Hb Hc Hab Hbc. specialize (H a Ha).
    rewrite forallb_forall in H. specialize (H b Hb).
    apply andb_true_iff in H. destruct H as [_ H].
    rewrite forallb_forall in H. specialize (H c Hc).
    rewrite Hab, Hbc in H. cbn [negb andb implb] in H. now apply negb_true_iff.
Qed.

Lemma insert_sorted x l :
  asymOn gt (x :: l) -> transOn gt (x :: l) ->
  StronglySorted (notAfter gt) l ->
  StronglySorted (notAfter gt) (JS.insert gt x l).
Proof.
  intros Hasym Htrans Hs.
  induction Hs as [|y l Hs IH Hy]; cbn [JS.insert].
  - repeat constructor.
  - destruct (gt x y) eqn:E.
    + constructor.
      * apply IH.
        -- intros a b Ha Hb. apply Hasym; cbn [In] in *; tauto.
        -- intros a b c Ha Hb Hc. apply Htrans; cbn [In] in *; tauto.
      * apply Forall_forall. intros z Hz.
        apply (Permutation_in _ (insert_perm x l)) in Hz.
        destruct Hz as [<-|Hz].
        -- apply Hasym; cbn [In]; auto.
        -- rewrite Forall_forall in Hy. now apply Hy.
    + constructor; [now constructor|].
      constructor; [exact E|].
      apply Forall_forall. intros z Hz. rewrite Forall_forall in Hy.
      apply (Htrans x y z); cbn [In]; auto. now apply Hy.
Qed.

Lemma sort_sorted l :
  asymOn gt l -> transOn gt l -> StronglySorted (notAfter gt) (JS.sort gt l).
Proof.
  unfold JS.sort. induction l as [|x l IH]; intros Hasym Htrans; cbn [fold_right].
  - constructor.
  - assert (Hin : forall z, In z (x :: fold_right (JS.insert gt) [] l)
                    -> In z (x :: l)).
    { intros z [<-|Hz]; [now left|]. right.
      now apply (Permutation_in _ (sort_perm l)). }
    apply insert_sorted.
    + intros a b Ha Hb. apply Hasym; now apply Hin.
    + intros a b c Ha Hb Hc. apply Htrans; now apply Hin.
    + apply IH.
      * intros a b Ha Hb. apply Hasym; now right.
      * intros a b c Ha Hb Hc. apply Htrans; now right.
Qed.

Lemma sorted_split l1 l2 :
  StronglySorted (notAfter gt) (l1 ++ l2) ->
  forall a b, In a l1 -> In b l2 -> notAfter gt a b.
Proof.
  induction l1 as [|x l1 IH]; cbn [app]; intros Hs a b Ha Hb; [contradiction|].
  apply StronglySorted_inv in Hs. destruct Hs as [Hs Hx].
  destruct Ha as [<-|Ha]; [|now apply IH].
  rewrite Forall_forall in Hx. apply Hx, in_or_app. now right.
Qed.

End SortFacts.

(** ** Top lists and score aggregation *)

Lemma slice_from_start {A : Type} (K : Z) (l : list A) :
  JS.slice 0 K l = firstn (JS.relIndex (List.length l) K) l.
Proof.
  unfold JS.slice. change (JS.relIndex (List.length l) 0) with (Nat.min 0 (List.length l)).
  rewrite Nat.min_0_l, Nat.sub_0_r. reflexivity.
Qed.

Lemma relIndex_nonneg len (K : Z) :
  (0 <= K)%Z -> JS.relIndex len K = Nat.min (Z.to_nat K) len.
Proof.
  intros H. unfold JS.relIndex. destruct (Z.ltb_spec K 0); [lia | reflexivity].
Qed.

Lemma in_firstn {A : Type} n (l : list A) x : In x (firstn n l) -> In x l.
Proof.
  intros H. rewrite <- (firstn_skipn n l). apply in_or_app. now left.
Qed.

Lemma NoDup_firstn {A : Type} n (l : list A) : NoDup l -> NoDup (firstn n l).
Proof.
  intros H. rewrite <- (firstn_skipn n l) in H. now apply NoDup_app_remove_r in H.
Qed.

Lemma scoresFor_ids reqVec vectorStore :
  map entry_id (scoresFor reqVec vectorStore) = storeIds vectorStore.
Proof. unfold scoresFor, storeIds. rewrite map_map. reflexivity. Qed.

Lemma hitsFor_incl K reqVec vectorStore :
  incl (hitsFor K reqVec vectorStore) (scoresFor reqVec vectorStore).
Proof.
  intros h Hh. unfold hitsFor in Hh. rewrite slice_from_start in Hh.
  apply in_firstn in Hh. now apply (Permutation_in _ (sort_perm _ _)) in Hh.
Qed.

Lemma hitsFor_NoDup K reqVec vectorStore :
  NoDup (storeIds vectorStore) ->
  NoDup (map entry_id (hitsFor K reqVec vectorStore)).
Proof.
  intros H. unfold hitsFor. rewrite slice_from_start, <- firstn_map.
  apply NoDup_firstn.
  apply (Permutation_NoDup (l := map entry_id (scoresFor reqVec vectorStore))).
  - apply Permutation_map. symmetry. apply sort_perm.
  - now rewrite scoresFor_ids.
Qed.

Lemma find_by_id (l : list ScoreEntry) h :
  NoDup (map entry_id l) -> In h l ->
  find (fun e => (entry_id e =? entry_id h)%string) l = Some h.
Proof.
  induction l as [|e l IH]; cbn [map In find]; intros Hnd Hin; [contradiction|].
  inversion Hnd as [|? ? He Hl]; subst.
  destruct Hin as [->|Hin]; [now rewrite String.eqb_refl|].
  destruct (String.eqb_spec (entry_id e) (entry_id h)) as [E|_]; [|now apply IH].
  exfalso. apply He. rewrite E. now apply in_map.
Qed.

Lemma find_id_none (l : list ScoreEntry) id :
  ~ In id (map entry_id l) ->
  find (fun e => (entry_id e =? id)%string) l = None.
Proof.
  induction l as [|e l IH]; cbn [map In find]; intros H; [reflexivity|].
  destruct (String.eqb_spec (entry_id e) id); [tauto|]. apply IH. tauto.
Qed.

(** A hit carries the id it was found by and the similarity of that item. *)
Lemma hitOf_score K vectorStore reqVec id h :
  NoDup (storeIds vectorStore) ->
  hitOf K vectorStore reqVec id = Some h ->
  entry_id h = id /\ score h = similarityOf vectorStore reqVec id.
Proof.
  intros Hnd Hh. unfold hitOf in Hh. apply find_some in Hh.
  destruct Hh as [Hin E]. apply String.eqb_eq in E. split; [exact E|].
  unfold similarityOf. subst id.
  rewrite find_by_id; [reflexivity | now rewrite scoresFor_ids |].
  now apply hitsFor_incl in Hin.
Qed.

Lemma hitOf_in_store K vectorStore reqVec id h :
  hitOf K vectorStore reqVec id = Some h -> In id (storeIds vectorStore).
Proof.
  intros Hh. unfold hitOf in Hh. apply find_some in Hh.
  destruct Hh as [Hin E]. apply String.eqb_eq in E. subst id.
  rewrite <- (scoresFor_ids reqVec). apply in_map. now apply hitsFor_incl in Hin.
Qed.

Lemma mapGet_mapSet k k' v m :
  mapGet k (mapSet k' v m) = if (k =? k')%string then Some v else mapGet k m.
Proof.
  induction m as [|[k0 v0] m IH]; cbn [mapSet mapGet].
  - now destruct (k =? k')%string.
  - destruct (String.eqb_spec k' k0) as [->|Hk]; cbn [mapGet].
    + now destruct (k =? k0)%string.
    + rewrite IH. destruct (String.eqb_spec k k0) as [->|]; [|reflexivity].
      destruct (String.eqb_spec k0 k'); [congruence | reflexivity].
Qed.

(** One requirement: the total of an id moves only if the id is among the
    hits, and then by the score of its hit. *)
Lemma fold_addHit hits chunkScores id :
  NoDup (map entry_id hits) ->
  mapGet id (fold_left addHit hits chunkScores)
  = match find (fun hit => (entry_id hit =? id)%string) hits with
    | Some hit => Some (JS.orNum (mapGet id chunkScores) 0 + score hit)%float
    | None => mapGet id chunkScores
    end.
Proof.
  revert chunkScores. induction hits as [|h hits IH]; intros m Hnd;
    cbn [fold_left find map]; [reflexivity|].
  inversion Hnd as [|? ? Hh Hrest]; subst.
  rewrite IH by exact Hrest.
  assert (Hget : mapGet id (addHit m h)
                 = if (entry_id h =? id)%string
                   then Some (JS.orNum (mapGet id m) 0 + score h)%float
                   else mapGet id m).
  { unfold addHit. rewrite mapGet_mapSet, (String.eqb_sym id (entry_id h)).
    destruct (String.eqb_spec (entry_id h) id) as [<-|]; reflexivity. }
  rewrite Hget.
  destruct (String.eqb_spec (entry_id h) id) as [E|E]; [|reflexivity].
  subst id. now rewrite find_id_none.
Qed.

Lemma addRequirement_get K vectorStore chunkScores reqVec id :
  NoDup (storeIds vectorStore) ->
  mapGet id (addRequirement K vectorStore chunkScores reqVec)
  = if inTopList K vectorStore reqVec id
    then Some (JS.orNum (mapGet id chunkScores) 0
               + similarityOf vectorStore reqVec id)%float
    else mapGet id chunkScores.
Proof.
  intros Hnd. unfold addRequirement, inTopList.
  rewrite fold_addHit by now apply hitsFor_NoDup.
  fold (hitOf K vectorStore reqVec id).
  destruct (hitOf K vectorStore reqVec id) as [h|] eqn:Eh; [|reflexivity].
  destruct (hitOf_score _ _ _ _ _ Hnd Eh) as [_ ->]. reflexivity.
Qed.

Lemma summedSimilarity_snoc K vectorStore reqs reqVec id :
  summedSimilarity K vectorStore (reqs ++ [reqVec]) id
  = if inTopList K vectorStore reqVec id
    then (summedSimilarity K vectorStore reqs id
          + similarityOf vectorStore reqVec id)%float
    else summedSimilarity K vectorStore reqs id.
Proof. unfold summedSimilarity. now rewrite fold_left_app. Qed.

Lemma summedSimilarity_no_hit K vectorStore reqs id :
  inSomeTopList K vectorStore reqs id = false ->
  summedSimilarity K vectorStore reqs id = 0%float.
Proof.
  induction reqs as [|reqVec reqs IH] using rev_ind; [reflexivity|].
  unfold inSomeTopList in *. rewrite existsb_app. cbn [existsb].
  rewrite orb_false_r. intros H. apply orb_false_iff in H. destruct H as [H1 H2].
  rewrite summedSimilarity_snoc, H2. now apply IH.
Qed.

(** All requirements: the total of an id is the sum of its similarities
    over the top lists it is in, as long as no running total is falsy
    without being zero. *)
Lemma aggregate_get K vectorStore reqs id :
  NoDup (storeIds vectorStore) ->
  (forall n, plainNumber (summedSimilarity K vectorStore (firstn n reqs) id)) ->
  mapGet id (aggregate K vectorStore reqs)
  = if inSomeTopList K vectorStore reqs id
    then Some (summedSimilarity K vectorStore reqs id)
    else None.
Proof.
  intros Hnd. induction reqs as [|reqVec reqs IH] using rev_ind; intros Hplain;
    [reflexivity|].
  assert (Hpre : forall n,
             plainNumber (summedSimilarity K vectorStore (firstn n reqs) id)).
  { intros n. specialize (Hplain (Nat.min n (List.length reqs))).
    rewrite firstn_app in Hplain.
    replace (Nat.min n (List.length reqs) - List.length reqs) with 0 in Hplain by lia.
    rewrite firstn_0, app_nil_r in Hplain.
    destruct (Nat.le_ge_cases n (List.length reqs)) as [Hn|Hn].
    - now rewrite Nat.min_l in Hplain by exact Hn.
    - rewrite Nat.min_r, firstn_all in Hplain by exact Hn.
      now rewrite firstn_all2 by exact Hn. }
  specialize (IH Hpre).
  unfold aggregate in *. rewrite fold_left_app. cbn [fold_left].
  rewrite addRequirement_get by exact Hnd. rewrite IH.
  unfold inSomeTopList in *. rewrite existsb_app. cbn [existsb].
  rewrite orb_false_r, summedSimilarity_snoc.
  destruct (inTopList K vectorStore reqVec id);
    [|now rewrite orb_false_r].
  rewrite orb_true_r.
  destruct (existsb (fun r => inTopList K vectorStore r id) reqs) eqn:Esome.
  - specialize (Hpre (List.length reqs)). rewrite firstn_all in Hpre.
    unfold plainNumber in Hpre. now rewrite Hpre.
  - now rewrite (summedSimilarity_no_hit K vectorStore reqs id Esome).
Qed.

Lemma inTopList_in_store K vectorStore reqVec id :
  inTopList K vectorStore reqVec id = true -> In id (storeIds vectorStore).
Proof.
  unfold inTopList. destruct (hitOf K vectorStore reqVec id) as [h|] eqn:E;
    [|discriminate].
  intros _. now apply hitOf_in_store in E.
Qed.

Lemma not_inSomeTopList K vectorStore reqs id :
  ~ In id (storeIds vectorStore) ->
  inSomeTopList K vectorStore reqs id = false.
Proof.
  intros H. unfold inSomeTopList.
  destruct (existsb (fun r => inTopList K vectorStore r id) reqs) eqn:E;
    [|reflexivity].
  apply existsb_exists in E. destruct E as [r [_ Hr]].
  now apply inTopList_in_store in Hr.
Qed.

Lemma plainTotals_at K vectorStore reqs id n :
  plainTotals K vectorStore reqs ->
  plainNumber (summedSimilarity K vectorStore (firstn n reqs) id).
Proof.
  intros Hplain.
  destruct (in_dec string_dec id (storeIds vectorStore)) as [Hin|Hout].
  - unfold plainTotals in Hplain. rewrite Forall_forall in Hplain.
    specialize (Hplain id Hin). rewrite Forall_forall in Hplain.
    destruct (Nat.le_gt_cases n (List.length reqs)) as [Hn|Hn].
    + apply Hplain, in_seq. lia.
    + rewrite firstn_all2 by lia.
      assert (Hall := Hplain (List.length reqs)). rewrite firstn_all in Hall.
      apply Hall, in_seq. lia.
  - rewrite summedSimilarity_no_hit by now apply not_inSomeTopList.
    reflexivity.
Qed.

(** The top list of a requirement under a consistent comparator. *)
Lemma hitsFor_top K reqVec vectorStore :
  (0 <= K)%Z ->
  consistentb byScoreDesc (scoresFor reqVec vectorStore) = true ->
  let hits := hitsFor K reqVec vectorStore in
  List.length hits = Nat.min (Z.to_nat K) (List.length vectorStore)
  /\ exists rest,
      Permutation (hits ++ rest) (scoresFor reqVec vectorStore)
      /\ forall hit other, In hit hits -> In other rest ->
           notAfter byScoreDesc hit other.
Proof.
  intros HK Hcons hits. unfold hits, hitsFor.
  rewrite slice_from_start, relIndex_nonneg by exact HK.
  set (sorted := JS.sort byScoreDesc (scoresFor reqVec vectorStore)).
  set (k := Nat.min (Z.to_nat K) (List.length sorted)).
  assert (Hlen : List.length sorted = List.length vectorStore).
  { unfold sorted. rewrite length_sort. unfold scoresFor. apply length_map. }
  split.
  - rewrite length_firstn. unfold k. rewrite Hlen. lia.
  - exists (skipn k sorted). split.
    + rewrite firstn_skipn. apply sort_perm.
    + apply sorted_split. rewrite firstn_skipn.
      apply consistentb_sound in Hcons. destruct Hcons as [Hasym Htrans].
      now apply sort_sorted.
Qed.

Lemma rankIds_sorted chunkScores :
  consistentb byTotalDesc chunkScores = true ->
  exists ranked,
    rankIds chunkScores = map fst ranked
    /\ Permutation ranked chunkScores
    /\ StronglySorted (notAfter byTotalDesc) ranked.
Proof.
  intros Hcons. exists (JS.sort byTotalDesc chunkScores).
  split; [reflexivity|]. split; [apply sort_perm|].
  apply consistentb_sound in Hcons. destruct Hcons as [Hasym Htrans].
  now apply sort_sorted.
Qed.

Lemma similarityOf_cosine vectorStore reqVec d e :
  NoDup (storeIds vectorStore) ->
  In d vectorStore ->
  EnrichedCorpusItem.embedding d = Some e ->
  similarityOf vectorStore reqVec (EnrichedCorpusItem.id d)
  = cosineSimilarity reqVec e.
Proof.
  intros Hnd Hd He. unfold similarityOf.
  pose (entry := {| entry_id := EnrichedCorpusItem.id d;
                    score := cosineSimilarity reqVec e |}).
  assert (Hin : In entry (scoresFor reqVec vectorStore)).
  { unfold scoresFor. apply in_map_iff. exists d. split; [|exact Hd].
    unfold entry. now rewrite He. }
  change (EnrichedCorpusItem.id d) with (entry_id entry).
  rewrite find_by_id; [reflexivity | now rewrite scoresFor_ids | exact Hin].
Qed.

(** C4 as stated fails, in two ways.
    - Two store items drew the same id: the id is twice in the top list of
      the one requirement, and its aggregated score, 2, is the sum of the
      similarities of both items, not its similarity to that requirement,
      which is 1.
    - A requirement whose embedding came back without values is given the
      empty vector; the similarity of the store item to it is NaN, and when
      the next requirement hits the same item the running total NaN is read
      as 0.  The item is in both top lists, the sum of its two similarities
      is NaN, and its aggregated score is 1. *)
Lemma aggregate_is_not_the_sum :
  (inTopList 6 collidingStore [1; 0]%float "a" = true
   /\ similarityOf collidingStore [1; 0]%float "a" = 1%float
   /\ summedSimilarity 6 collidingStore [ [1; 0]%float ] "a" = 1%float
   /\ mapGet "a" (aggregate 6 collidingStore [ [1; 0]%float ]) = Some 2%float)
  /\ let reqEmbeddings := reqEmbeddingsOf replyMissingValues in
     reqEmbeddings = [ []; [1]%float ]
     /\ inTopList 6 singleStore [] "a" = true
     /\ inTopList 6 singleStore [1]%float "a" = true
     /\ similarityOf singleStore [] "a" = nan
     /\ similarityOf singleStore [1]%float "a" = 1%float
     /\ summedSimilarity 6 singleStore reqEmbeddings "a" = nan
     /\ mapGet "a" (aggregate 6 singleStore reqEmbeddings) = Some 1%float
     /\ mapGet "a" (aggregate 6 singleStore reqEmbeddings)
        <> Some (summedSimilarity 6 singleStore reqEmbeddings "a").
Proof.
  vm_compute. repeat split.
  intros H.
  apply (f_equal (fun o => match o with
                           | Some x => PrimFloat.is_nan x
                           | None => false
                           end)) in H.
  vm_compute in H. discriminate.
Qed.

(** C4, amended.  For a store whose items have pairwise distinct ids, a
    [reqMatchCount >= 0] and requirement vectors on whose scores and totals
    the comparators are consistent and no running total is NaN or the
    negative zero:
    - the top list of each requirement has [min reqMatchCount |store|]
      entries, and no entry left out of it has a higher similarity than an
      entry in it;
    - the aggregated score of an id is the sum, over the requirements in
      whose top list it appears, of its similarity to that requirement, and
      an id in no top list has no score;
    - the ids are ranked by a permutation of the totals in which no total
      is followed by a higher one;
    - the similarity of an embedded item is its cosine similarity. *)
Theorem aggregate_sums_top_lists
    (reqMatchCount : Z) (vectorStore : list EnrichedCorpusItem.t)
    (reqEmbeddings : list (list float)) :
  NoDup (storeIds vectorStore) ->
  (0 <= reqMatchCount)%Z ->
  forallb (fun reqVec => consistentb byScoreDesc (scoresFor reqVec vectorStore))
          reqEmbeddings = true ->
  consistentb byTotalDesc (aggregate reqMatchCount vectorStore reqEmbeddings) = true ->
  plainTotals reqMatchCount vectorStore reqEmbeddings ->
  (forall reqVec, In reqVec reqEmbeddings ->
     let hits := hitsFor reqMatchCount reqVec vectorStore in
     List.length hits = Nat.min (Z.to_nat reqMatchCount) (List.length vectorStore)
     /\ exists rest,
         Permutation (hits ++ rest) (scoresFor reqVec vectorStore)
         /\ forall hit other, In hit hits -> In other rest ->
              notAfter byScoreDesc hit other)
  /\ (forall id,
        mapGet id (aggregate reqMatchCount vectorStore reqEmbeddings)
        = if inSomeTopList reqMatchCount vectorStore reqEmbeddings id
          then Some (summedSimilarity reqMatchCount vectorStore reqEmbeddings id)
          else None)
  /\ (exists ranked,
        rankIds (aggregate reqMatchCount vectorStore reqEmbeddings) = map fst ranked
        /\ Permutation ranked (aggregate reqMatchCount vectorStore reqEmbeddings)
        /\ StronglySorted (notAfter byTotalDesc) ranked)
  /\ (forall reqVec d e,
        In d vectorStore -> EnrichedCorpusItem.embedding d = Some e ->
        similarityOf vectorStore reqVec (EnrichedCorpusItem.id d)
        = cosineSimilarity reqVec e).
Proof.
  intros Hnd HK Hscores Htotals Hplain.
  split; [|split; [|split]].
  - intros reqVec Hin. apply hitsFor_top; [exact HK|].
    rewrite forallb_forall in Hscores. now apply Hscores.
  - intros id. apply aggregate_get; [exact Hnd|].
    intros n. now apply plainTotals_at.
  - now apply rankIds_sorted.
  - intros reqVec d e Hd He. now apply similarityOf_cosine.
Qed.

Lemma aggregate_sums_top_lists_witness :
  mapGet "c" (aggregate 2 fiveStore twoRequirements)
  = Some (summedSimilarity 2 fiveStore twoRequirements "c")
  /\ mapGet "a" (aggregate 2 fiveStore twoRequirements)
     = Some (similarityOf fiveStore [1; 0]%float "a").
Proof.
  assert (H : forall id,
    mapGet id (aggregate 2 fiveStore twoRequirements)
    = if inSomeTopList 2 fiveStore twoRequirements id
      then Some (summedSimilarity 2 fiveStore twoRequirements id)
      else None).
  { refine (proj1 (proj2
      (aggregate_sums_top_lists 2 fiveStore twoRequirements _ _ _ _ _))).
    - repeat constructor; cbn; intuition discriminate.
    - lia.
    - vm_compute. reflexivity.
    - vm_compute. reflexivity.
    - repeat constructor; vm_compute; reflexivity. }
  split; [exact (H "c") | exact (H "a")].
Defined.

(** ** The scenarios of the specification *)

(** One bullet at Acme, a stub enricher and a stub vectorizer: one chunk,
    one store item, and a context of exactly one block. *)
Example scenario_single_bullet :
  exists corpus,
    generateRichCorpus acmeResume = JS.Normal corpus
    /\ let vectorStore :=
         enrichAndEmbedCorpus genAcme rndOfPosition embedEach corpus in
       map CorpusChunk.text corpus
       = [ ("ROLE: Engineer | COMPANY: Acme | LOCATION: Berlin | DATES: 2020-2023"
            ++ JS.nl ++ "ACHIEVEMENT: Reduced latency by 40%")%string ]
       /\ List.length vectorStore = 1
       /\ getRagContext genOne embedOne "Backend role" vectorStore
            {| includeSummary := None; includeEducation := None;
               requirementCount := None; reqMatchCount := None;
               finalContextLimit := Some 15%Z |}
          = ("[WORK_EXPERIENCE] As an Engineer at Acme, I reduced latency by 40%."
             ++ JS.nl ++ "(Tags: latency)")%string.
Proof. eexists. split; [reflexivity|]. vm_compute. repeat split. Qed.

(** Two requirements, five items, top lists of two: "c" is second in both
    lists, its total is the sum of its two similarities, and it outranks
    "a" and "b", each first in one list with the higher single score. *)
Example scenario_two_top_lists :
  map entry_id (hitsFor 2 [1; 0]%float fiveStore) = ["a"; "c"]
  /\ map entry_id (hitsFor 2 [0; 1]%float fiveStore) = ["b"; "c"]
  /\ mapGet "c" (aggregate 2 fiveStore twoRequirements)
     = Some (cosineSimilarity [1; 0]%float [1; 1]%float
             + cosineSimilarity [0; 1]%float [1; 1]%float)%float
  /\ PrimFloat.ltb (similarityOf fiveStore [1; 0]%float "c")
                   (similarityOf fiveStore [1; 0]%float "a") = true
  /\ rankIds (aggregate 2 fiveStore twoRequirements) = ["c"; "a"; "b"].
Proof. vm_compute. repeat split. Qed.

(** * Further properties *)

(** ** The final id set, exactly *)

Lemma addRanked_incl bound sortedIds finalIds :
  incl finalIds (addRanked bound sortedIds finalIds).
Proof.
  revert finalIds. induction sortedIds as [|uid rest IH]; intros s;
    cbn [addRanked]; [apply incl_refl|].
  destruct (Z.of_nat (List.length s) >=? bound)%Z; [apply incl_refl|].
  intros y Hy. apply IH, setAdd_In. now right.
Qed.

(** The loop with its [break] takes the ranked ids that are new, in rank
    order, until the bound is reached. *)
Lemma addRanked_firstn bound sortedIds finalIds :
  NoDup sortedIds ->
  (Z.of_nat (List.length finalIds) <= bound)%Z ->
  addRanked bound sortedIds finalIds
  = finalIds
    ++ firstn (Z.to_nat bound - List.length finalIds)
              (rankedNotFixed finalIds sortedIds).
Proof.
  revert finalIds. induction sortedIds as [|uid rest IH]; intros s Hnd Hb;
    cbn [addRanked].
  - unfold rankedNotFixed. cbn [filter]. now rewrite firstn_nil, app_nil_r.
  - inversion Hnd as [|? ? Huid Hrest]; subst.
    destruct (Z.geb_spec (Z.of_nat (List.length s)) bound) as [H|H].
    + replace (Z.to_nat bound - List.length s) with 0 by lia.
      now rewrite firstn_0, app_nil_r.
    + unfold rankedNotFixed. cbn [filter]. unfold setAdd.
      destruct (setHas uid s) eqn:E; cbn [negb].
      * now rewrite IH by assumption.
      * rewrite IH; [|assumption | rewrite length_app; cbn [List.length]; lia].
        rewrite <- app_assoc. cbn [app]. f_equal.
        replace (Z.to_nat bound - List.length s)
          with (S (Z.to_nat bound - List.length (s ++ [uid])))
          by (rewrite length_app; cbn [List.length]; lia).
        cbn [firstn]. do 2 f_equal. unfold rankedNotFixed.
        apply filter_ext_in. intros y Hy. f_equal.
        unfold setHas. rewrite existsb_app. cbn [existsb].
        rewrite orb_false_r.
        destruct (String.eqb_spec y uid) as [->|]; [contradiction|].
        apply orb_false_r.
Qed.

Lemma mapSet_keys k v m :
  map fst (mapSet k v m)
  = if existsb (String.eqb k) (map fst m) then map fst m else map fst m ++ [k].
Proof.
  induction m as [|[k' v'] m IH]; cbn [mapSet map fst existsb]; [reflexivity|].
  destruct (k =? k')%string eqn:E; cbn [orb map fst].
  - apply String.eqb_eq in E. now subst.
  - rewrite IH. now destruct (existsb (String.eqb k) (map fst m)).
Qed.

(** The keys of the score map are those of a set: [mapSet] is [setAdd] on
    the keys. *)
Lemma mapSet_keys_setAdd k v m :
  map fst (mapSet k v m) = setAdd k (map fst m).
Proof. rewrite mapSet_keys. reflexivity. Qed.

Lemma addRequirement_keys K vectorStore chunkScores reqVec :
  NoDup (map fst chunkScores) ->
  incl (map fst chunkScores) (storeIds vectorStore) ->
  NoDup (map fst (addRequirement K vectorStore chunkScores reqVec))
  /\ incl (map fst (addRequirement K vectorStore chunkScores reqVec))
          (storeIds vectorStore).
Proof.
  unfold addRequirement.
  pose proof (hitsFor_incl K reqVec vectorStore) as Hhits.
  revert chunkScores.
  induction (hitsFor K reqVec vectorStore) as [|hit hits IH];
    intros m Hnd Hincl; cbn [fold_left]; [now split|].
  apply IH.
  - intros h Hh. apply Hhits. now right.
  - unfold addHit. rewrite mapSet_keys_setAdd. now apply setAdd_NoDup.
  - unfold addHit. rewrite mapSet_keys_setAdd. intros y Hy.
    apply setAdd_In in Hy. destruct Hy as [->|Hy]; [|now apply Hincl].
    rewrite <- (scoresFor_ids reqVec). apply in_map, Hhits. now left.
Qed.

Lemma aggregate_keys K vectorStore reqEmbeddings :
  NoDup (map fst (aggregate K vectorStore reqEmbeddings))
  /\ incl (map fst (aggregate K vectorStore reqEmbeddings)) (storeIds vectorStore).
Proof.
  unfold aggregate.
  assert (H : NoDup (map fst (@nil (string * float)))
              /\ incl (map fst (@nil (string * float))) (storeIds vectorStore))
    by (split; [constructor | intros y []]).
  revert H. generalize (@nil (string * float)).
  induction reqEmbeddings as [|reqVec reqs IH]; intros m [Hnd Hincl];
    cbn [fold_left]; [now split|].
  apply IH. now apply addRequirement_keys.
Qed.

Lemma rankIds_keys chunkScores :
  Permutation (rankIds chunkScores) (map fst chunkScores).
Proof. unfold rankIds. apply Permutation_map, sort_perm. Qed.

Lemma ragRankedIds_spec gen embed jdText vectorStore options :
  NoDup (ragRankedIds gen embed jdText vectorStore options)
  /\ incl (ragRankedIds gen embed jdText vectorStore options)
          (storeIds vectorStore).
Proof.
  unfold ragRankedIds.
  match goal with
  | |- NoDup (rankIds ?cs) /\ _ =>
      pose proof (rankIds_keys cs) as Hperm;
      destruct (aggregate_keys (orDefault 6%Z (reqMatchCount options)) vectorStore
                  (reqEmbeddingsOf
                     (embed (ragRequirements jdText
                               (orDefault 6%Z (requirementCount options)) gen))))
        as [Hnd Hincl]
  end.
  split.
  - apply (Permutation_NoDup (Permutation_sym Hperm) Hnd).
  - intros y Hy. apply Hincl. now apply (Permutation_in _ Hperm).
Qed.

Lemma fixedIds_in_store includeSummary includeEducation vectorStore :
  incl (fixedIds includeSummary includeEducation vectorStore)
       (storeIds vectorStore).
Proof.
  intros y Hy.
  apply (proj2 (fixedIds_spec includeSummary includeEducation vectorStore)) in Hy.
  destruct Hy as [d [Hd [_ <-]]]. now apply in_map.
Qed.

Lemma ragFinalIds_parts
    (gen : string -> GenReply (list string)) (embed : list string -> EmbedReply)
    (jdText : string) (vectorStore : list EnrichedCorpusItem.t)
    (options : RagOptions) :
  let N := orDefault 15%Z (finalContextLimit options) in
  let fixed := fixedIds (orDefault true (includeSummary options))
                        (orDefault true (includeEducation options)) vectorStore in
  let ranked := ragRankedIds gen embed jdText vectorStore options in
  (0 <= N)%Z ->
  ragFinalIds gen embed jdText vectorStore options
    = fixed ++ firstn (Z.to_nat N) (rankedNotFixed fixed ranked)
  /\ NoDup (ragFinalIds gen embed jdText vectorStore options)
  /\ incl (ragFinalIds gen embed jdText vectorStore options) (storeIds vectorStore).
Proof.
  intros N fixed ranked HN.
  destruct (ragRankedIds_spec gen embed jdText vectorStore options) as [Hnd Hin].
  fold ranked in Hnd, Hin.
  assert (Heq : ragFinalIds gen embed jdText vectorStore options
                = fixed ++ firstn (Z.to_nat N) (rankedNotFixed fixed ranked)).
  { unfold ragFinalIds. fold fixed. fold N.
    change (rankIds _) with ranked.
    rewrite addRanked_firstn by (try assumption; lia).
    do 2 f_equal. lia. }
  split; [exact Heq|]. split.
  - unfold ragFinalIds. fold fixed. fold N. change (rankIds _) with ranked.
    apply addRanked_spec; [|lia].
    apply (proj1 (fixedIds_spec _ _ vectorStore)).
  - rewrite Heq. intros y Hy. apply in_app_or in Hy. destruct Hy as [Hy|Hy].
    + now apply fixedIds_in_store in Hy.
    + apply in_firstn in Hy. unfold rankedNotFixed in Hy.
      apply filter_In in Hy. now apply Hin.
Qed.

(** X1.  For a limit [N >= 0] the final id set is the fixed ids followed by
    the first [N] ranked ids that are not fixed (all of them when there are
    fewer), in rank order: a ranked id is left out only when [N] ids ranked
    before it were taken, and nothing outside the store is ever selected. *)
Theorem ragFinalIds_exact
    (gen : string -> GenReply (list string)) (embed : list string -> EmbedReply)
    (jdText : string) (vectorStore : list EnrichedCorpusItem.t)
    (options : RagOptions) :
  let N := orDefault 15%Z (finalContextLimit options) in
  let fixed := fixedIds (orDefault true (includeSummary options))
                        (orDefault true (includeEducation options)) vectorStore in
  let ranked := ragRankedIds gen embed jdText vectorStore options in
  (0 <= N)%Z ->
  ragFinalIds gen embed jdText vectorStore options
    = fixed ++ firstn (Z.to_nat N) (rankedNotFixed fixed ranked)
  /\ NoDup (ragFinalIds gen embed jdText vectorStore options)
  /\ incl (ragFinalIds gen embed jdText vectorStore options) (storeIds vectorStore).
Proof.
  intros N fixed ranked HN.
  destruct (ragFinalIds_parts gen embed jdText vectorStore options HN)
    as [Heq [Hnd Hincl]].
  split; [exact Heq|]. split; [exact Hnd | exact Hincl].
Qed.

Lemma ragFinalIds_exact_witness :
  ragFinalIds genOne embedOne "Backend role" fiveStore limitOne = ["a"].
Proof.
  refine (eq_trans (proj1 (ragFinalIds_exact genOne embedOne "Backend role"
                             fiveStore limitOne _)) _).
  - cbn. lia.
  - vm_compute. reflexivity.
Defined.

(** ** The blocks of the context *)

(** With distinct ids, a set of store ids selects as many documents as it
    has members. *)
Lemma length_selected_exact vectorStore finalIds :
  NoDup (storeIds vectorStore) ->
  NoDup finalIds ->
  incl finalIds (storeIds vectorStore) ->
  List.length (filter (fun doc => setHas (EnrichedCorpusItem.id doc) finalIds)
                 vectorStore)
  = List.length finalIds.
Proof.
  intros Hnd Hf Hincl. apply Nat.le_antisymm; [now apply length_selected|].
  rewrite <- (length_map EnrichedCorpusItem.id).
  apply NoDup_incl_length; [exact Hf|].
  intros y Hy. pose proof (Hincl y Hy) as Hs. unfold storeIds in Hs.
  apply in_map_iff in Hs. destruct Hs as [d [<- Hd]].
  apply in_map, filter_In. split; [exact Hd | now apply setHas_In].
Qed.

(** With distinct ids, the ids of the fixed inclusions select exactly the
    fixed inclusions. *)
Lemma selected_fixed includeSummary includeEducation vectorStore :
  NoDup (storeIds vectorStore) ->
  filter (fun doc => setHas (EnrichedCorpusItem.id doc)
                       (fixedIds includeSummary includeEducation vectorStore))
         vectorStore
  = filter (isFixed includeSummary includeEducation) vectorStore.
Proof.
  intros Hnd.
  destruct (fixedIds_spec includeSummary includeEducation vectorStore) as [_ Hin].
  apply filter_ext_in. intros d Hd.
  destruct (isFixed includeSummary includeEducation d) eqn:Ef.
  - apply setHas_In, Hin. now exists d.
  - destruct (setHas (EnrichedCorpusItem.id d)
                (fixedIds includeSummary includeEducation vectorStore)) eqn:Eh;
      [|reflexivity].
    apply setHas_In, Hin in Eh. destruct Eh as [d' [Hd' [Hf' E]]].
    rewrite (NoDup_map_eq EnrichedCorpusItem.id vectorStore d' d Hnd Hd' Hd E) in Hf'.
    congruence.
Qed.

Lemma length_fixedIds_exact includeSummary includeEducation vectorStore :
  NoDup (storeIds vectorStore) ->
  List.length (fixedIds includeSummary includeEducation vectorStore)
  = fixedCount includeSummary includeEducation vectorStore.
Proof.
  intros Hnd. unfold fixedCount, countOf.
  rewrite <- (selected_fixed _ _ _ Hnd).
  symmetry. apply length_selected_exact; [exact Hnd | |].
  - apply (proj1 (fixedIds_spec _ _ vectorStore)).
  - apply fixedIds_in_store.
Qed.

(** X2.  With pairwise distinct ids and a limit [N >= 0], the context has
    exactly one block per fixed inclusion plus [min N r] blocks, [r] being
    the number of ranked ids that are not fixed: the requirement-driven
    budget is used in full whenever enough items were ranked. *)
Theorem ragContextBlocks_count
    (gen : string -> GenReply (list string)) (embed : list string -> EmbedReply)
    (jdText : string) (vectorStore : list EnrichedCorpusItem.t)
    (options : RagOptions) :
  let N := orDefault 15%Z (finalContextLimit options) in
  let summary := orDefault true (includeSummary options) in
  let education := orDefault true (includeEducation options) in
  let ranked := ragRankedIds gen embed jdText vectorStore options in
  NoDup (storeIds vectorStore) ->
  (0 <= N)%Z ->
  List.length (ragContextBlocks gen embed jdText vectorStore options)
  = fixedCount summary education vectorStore
    + Nat.min (Z.to_nat N)
              (List.length
                 (rankedNotFixed (fixedIds summary education vectorStore) ranked)).
Proof.
  intros N summary education ranked Hnd HN.
  destruct (ragFinalIds_parts gen embed jdText vectorStore options HN)
    as [Heq [Hnf Hincl]].
  unfold ragContextBlocks, ragSelected. rewrite length_map.
  rewrite length_selected_exact by assumption.
  rewrite Heq, length_app, length_firstn, length_fixedIds_exact by exact Hnd.
  reflexivity.
Qed.

Lemma ragContextBlocks_count_witness :
  List.length (ragContextBlocks genOne embedOne "Backend role"
                 [ storeItem "a" "work_experience" (Some [1; 0]%float);
                   storeItem "b" "summary" (Some [0; 1]%float);
                   storeItem "c" "project" (Some [1; 1]%float) ]
                 limitOne)
  = 2.
Proof.
  refine (eq_trans (ragContextBlocks_count genOne embedOne "Backend role"
            [ storeItem "a" "work_experience" (Some [1; 0]%float);
              storeItem "b" "summary" (Some [0; 1]%float);
              storeItem "c" "project" (Some [1; 1]%float) ]
            limitOne _ _) _).
  - repeat constructor; cbn; intuition discriminate.
  - cbn. lia.
  - vm_compute. reflexivity.
Defined.

(** X3.  A fixed inclusion of the store is always rendered: whatever the
    job description, the behaviour of the two services, the limit (a
    negative one too) and the other options, every summary item (unless
    [includeSummary] is false) and every education item (unless
    [includeEducation] is false) has its block in the context. *)
Theorem fixed_inclusions_always_rendered
    (gen : string -> GenReply (list string)) (embed : list string -> EmbedReply)
    (jdText : string) (vectorStore : list EnrichedCorpusItem.t)
    (options : RagOptions) (doc : EnrichedCorpusItem.t) :
  In doc vectorStore ->
  isFixed (orDefault true (includeSummary options))
          (orDefault true (includeEducation options)) doc = true ->
  In doc (ragSelected gen embed jdText vectorStore options)
  /\ In (renderBlock doc) (ragContextBlocks gen embed jdText vectorStore options).
Proof.
  intros Hdoc Hfixed.
  assert (Hsel : In doc (ragSelected gen embed jdText vectorStore options)).
  { unfold ragSelected. apply filter_In. split; [exact Hdoc|].
    apply setHas_In. unfold ragFinalIds. apply addRanked_incl.
    apply (proj2 (fixedIds_spec _ _ vectorStore)). now exists doc. }
  split; [exact Hsel|]. unfold ragContextBlocks. now apply in_map.
Qed.

Lemma fixed_inclusions_always_rendered_witness :
  In (storeItem "b" "summary" (Some [0; 1]%float))
     (ragSelected genOne embedOne "Backend role"
        [ storeItem "a" "work_experience" (Some [1; 0]%float);
          storeItem "b" "summary" (Some [0; 1]%float) ]
        {| includeSummary := None; includeEducation := None;
           requirementCount := None; reqMatchCount := None;
           finalContextLimit := Some (-3)%Z |}).
Proof.
  apply (fixed_inclusions_always_rendered genOne embedOne "Backend role"
           [ storeItem "a" "work_experience" (Some [1; 0]%float);
             storeItem "b" "summary" (Some [0; 1]%float) ]
           {| includeSummary := None; includeEducation := None;
              requirementCount := None; reqMatchCount := None;
              finalContextLimit := Some (-3)%Z |}).
  - right. left. reflexivity.
  - reflexivity.
Defined.

(** X4.  When the embedding of the requirements fails (the call throws, or
    the response has no embeddings), no id is ranked and the retrieval
    degrades to the fixed inclusions: the final ids are the fixed ids, and
    with pairwise distinct ids the context is exactly the blocks of the
    fixed inclusions, whatever the limit. *)
Theorem embedding_failure_leaves_fixed
    (gen : string -> GenReply (list string)) (embed : list string -> EmbedReply)
    (jdText : string) (vectorStore : list EnrichedCorpusItem.t)
    (options : RagOptions) :
  let summary := orDefault true (includeSummary options) in
  let education := orDefault true (includeEducation options) in
  reqEmbeddingsOf
    (embed (ragRequirements jdText (orDefault 6%Z (requirementCount options)) gen))
    = [] ->
  ragFinalIds gen embed jdText vectorStore options
    = fixedIds summary education vectorStore
  /\ (NoDup (storeIds vectorStore) ->
      ragContextBlocks gen embed jdText vectorStore options
      = map renderBlock (filter (isFixed summary education) vectorStore)).
Proof.
  intros summary education Hnone.
  assert (Hids : ragFinalIds gen embed jdText vectorStore options
                 = fixedIds summary education vectorStore).
  { unfold ragFinalIds. rewrite Hnone. reflexivity. }
  split; [exact Hids|]. intros Hnd.
  unfold ragContextBlocks, ragSelected. rewrite Hids. f_equal.
  now apply selected_fixed.
Qed.

Lemma embedding_failure_leaves_fixed_witness :
  ragFinalIds genOne (fun _ => EmbedRejected) "Backend role"
    [ storeItem "a" "work_experience" (Some [1; 0]%float);
      storeItem "b" "summary" (Some [0; 1]%float) ] noOptions
  = ["b"].
Proof.
  refine (eq_trans (proj1 (embedding_failure_leaves_fixed genOne
            (fun _ => EmbedRejected) "Backend role"
            [ storeItem "a" "work_experience" (Some [1; 0]%float);
              storeItem "b" "summary" (Some [0; 1]%float) ] noOptions _)) _).
  - reflexivity.
  - vm_compute. reflexivity.
Defined.

(** ** What the indexing pipeline keeps *)

Lemma strip_setNth k v d (l : list EnrichedCorpusItem.t) :
  nth_error l k = Some d ->
  map stripEmbedding (setNth k (EnrichedCorpusItem.setEmbedding v d) l)
  = map stripEmbedding l.
Proof.
  revert k. induction l as [|x l IH]; intros k Hk; [now destruct k|].
  destruct k as [|k]; cbn [setNth map].
  - cbn [nth_error] in Hk. injection Hk as ->. reflexivity.
  - cbn [nth_error] in Hk. now rewrite IH.
Qed.

Lemma strip_attachEmbeddings embeddings k enrichedItems :
  map stripEmbedding (attachEmbeddings k embeddings enrichedItems)
  = map stripEmbedding enrichedItems.
Proof.
  revert k enrichedItems.
  induction embeddings as [|emb rest IH]; intros k items;
    cbn [attachEmbeddings]; [reflexivity|].
  destruct emb as [values|]; [|apply IH].
  destruct (nth_error items k) as [d|] eqn:Ek; [|reflexivity].
  rewrite IH. now apply strip_setNth.
Qed.

Lemma strip_embedLoop embed fuel i textsToEmbed enrichedItems :
  map stripEmbedding (embedLoop embed fuel i textsToEmbed enrichedItems)
  = map stripEmbedding enrichedItems.
Proof.
  revert i enrichedItems. induction fuel as [|fuel IH]; intros i items;
    cbn [embedLoop]; [reflexivity|].
  destruct (i <? List.length textsToEmbed)%nat; [|reflexivity].
  rewrite IH. unfold embedBatch.
  destruct (embed i _) as [|[embeddings|]]; try reflexivity.
  apply strip_attachEmbeddings.
Qed.

Lemma map_id_strip (l : list EnrichedCorpusItem.t) :
  map EnrichedCorpusItem.id l = map EnrichedCorpusItem.id (map stripEmbedding l).
Proof. rewrite map_map. reflexivity. Qed.

Lemma embeddingPhase_strip embed enrichedItems :
  map stripEmbedding (embeddingPhase embed enrichedItems)
  = map stripEmbedding enrichedItems.
Proof. unfold embeddingPhase. apply strip_embedLoop. Qed.

Lemma embeddingPhase_ids embed enrichedItems :
  map EnrichedCorpusItem.id (embeddingPhase embed enrichedItems)
  = map EnrichedCorpusItem.id enrichedItems.
Proof.
  rewrite (map_id_strip (embeddingPhase embed enrichedItems)).
  rewrite embeddingPhase_strip. symmetry. apply map_id_strip.
Qed.

(** X5.  Whatever the embedding service returns, responses longer than
    their batch included, the embedding phase neither adds, drops nor
    reorders items and changes no field of an item but its embedding. *)
Theorem embeddingPhase_only_sets_embeddings
    (embed : nat -> list string -> EmbedReply)
    (enrichedItems : list EnrichedCorpusItem.t) :
  map stripEmbedding (embeddingPhase embed enrichedItems)
    = map stripEmbedding enrichedItems
  /\ List.length (embeddingPhase embed enrichedItems) = List.length enrichedItems
  /\ map EnrichedCorpusItem.id (embeddingPhase embed enrichedItems)
     = map EnrichedCorpusItem.id enrichedItems
  /\ map EnrichedCorpusItem.content (embeddingPhase embed enrichedItems)
     = map EnrichedCorpusItem.content enrichedItems.
Proof.
  assert (H : map stripEmbedding (embeddingPhase embed enrichedItems)
              = map stripEmbedding enrichedItems)
    by apply embeddingPhase_strip.
  split; [exact H|]. split; [|split].
  - rewrite <- (length_map stripEmbedding), H. apply length_map.
  - apply embeddingPhase_ids.
  - apply (f_equal (map EnrichedCorpusItem.content)) in H.
    now rewrite !map_map in H.
Qed.

(** What an enriched item carries, chunk by chunk. *)
Lemma enrichFrom_carries gen rnd i (l : list CorpusChunk.t) :
  let kept := filter (fun '(k, _) => negb (isNoText (gen k)))
                     (combine (seq i (List.length l)) l) in
  map EnrichedCorpusItem.id (enrichFrom gen rnd i l)
    = map (fun p => rnd (fst p)) kept
  /\ map EnrichedCorpusItem.raw_source (enrichFrom gen rnd i l)
     = map (fun p => CorpusChunk.text (snd p)) kept
  /\ map EnrichedCorpusItem.metadata (enrichFrom gen rnd i l)
     = map (fun p => CorpusChunk.metadata (snd p)) kept.
Proof.
  revert i. induction l as [|item l IH]; intros i; [now repeat split|].
  cbn [List.length seq combine filter enrichFrom].
  destruct (IH (S i)) as [H1 [H2 H3]]. cbv zeta in *.
  rewrite !map_app, H1, H2, H3.
  unfold enrichItem, enrichItem_try.
  destruct (gen i); cbn [isNoText negb resultList map app fst snd]; now repeat split.
Qed.

(** X6.  Every enriched item, regular or fallback, carries the text of its
    chunk as raw source, the metadata of its chunk, and the id drawn for
    that chunk; the items follow the corpus order, the chunks answered
    without text being the only ones skipped. *)
Theorem enrichmentPhase_carries_chunks
    (gen : nat -> GenReply EnrichmentData.t) (rnd : nat -> string)
    (corpus : list CorpusChunk.t) :
  let enrichedItems := enrichmentPhase gen rnd corpus in
  map EnrichedCorpusItem.id enrichedItems
    = map (fun p => rnd (fst p)) (answeredChunks gen corpus)
  /\ map EnrichedCorpusItem.raw_source enrichedItems
     = map (fun p => CorpusChunk.text (snd p)) (answeredChunks gen corpus)
  /\ map EnrichedCorpusItem.metadata enrichedItems
     = map (fun p => CorpusChunk.metadata (snd p)) (answeredChunks gen corpus).
Proof.
  cbv zeta. rewrite enrichmentPhase_spec. apply enrichFrom_carries.
Qed.

Lemma fst_combine_seq {A : Type} i (l : list A) :
  map fst (combine (seq i (List.length l)) l) = seq i (List.length l).
Proof.
  revert i. induction l as [|x l IH]; intros i; [reflexivity|].
  cbn [List.length seq combine map fst]. now rewrite IH.
Qed.

(** X7.  When the random ids drawn for the chunks are pairwise distinct,
    the items of the vector store have pairwise distinct ids, whatever the
    two services do. *)
Theorem distinct_draws_give_distinct_ids
    (gen : nat -> GenReply EnrichmentData.t) (rnd : nat -> string)
    (embed : nat -> list string -> EmbedReply) (corpus : list CorpusChunk.t) :
  NoDup (map rnd (seq 0 (List.length corpus))) ->
  NoDup (storeIds (enrichmentPhase gen rnd corpus))
  /\ NoDup (storeIds (enrichAndEmbedCorpus gen rnd embed corpus)).
Proof.
  intros Hdraws.
  assert (Henriched : NoDup (storeIds (enrichmentPhase gen rnd corpus))).
  { unfold storeIds. rewrite enrichmentPhase_spec.
    rewrite (proj1 (enrichFrom_carries gen rnd 0 corpus)).
    apply NoDup_map_filter.
    rewrite <- (map_map fst rnd), fst_combine_seq. exact Hdraws. }
  split; [exact Henriched|].
  unfold storeIds, enrichAndEmbedCorpus. apply NoDup_map_filter.
  rewrite embeddingPhase_ids. exact Henriched.
Qed.

Lemma distinct_draws_give_distinct_ids_witness :
  NoDup (storeIds (enrichAndEmbedCorpus genDown rndOfPosition embedEach
                     (repeat exampleChunk 3))).
Proof.
  apply (distinct_draws_give_distinct_ids genDown rndOfPosition embedEach
           (repeat exampleChunk 3)).
  repeat constructor; cbn; intuition discriminate.
Defined.

Lemma attachEmbeddings_none embeddings k enrichedItems :
  Forall (fun emb => emb = None) embeddings ->
  attachEmbeddings k embeddings enrichedItems = enrichedItems.
Proof.
  intros H. revert k. induction H as [|emb rest Hemb _ IH]; intros k;
    cbn [attachEmbeddings]; [reflexivity|].
  subst emb. apply IH.
Qed.

Lemma embedLoop_noVectors embed fuel i textsToEmbed enrichedItems :
  noVectors embed ->
  embedLoop embed fuel i textsToEmbed enrichedItems = enrichedItems.
Proof.
  intros Hno. revert i enrichedItems.
  induction fuel as [|fuel IH]; intros i items; cbn [embedLoop]; [reflexivity|].
  destruct (i <? List.length textsToEmbed)%nat; [|reflexivity].
  rewrite IH. unfold embedBatch.
  specialize (Hno i (JS.slice (Z.of_nat i) (Z.of_nat (i + EMBED_BATCH_SIZE))
                       textsToEmbed)).
  destruct (embed i _) as [|[embeddings|]]; try reflexivity.
  now apply attachEmbeddings_none.
Qed.

Lemma filter_unset (l : list EnrichedCorpusItem.t) :
  Forall (fun d => EnrichedCorpusItem.embedding d = None) l ->
  filter EnrichedCorpusItem.hasEmbedding l = [].
Proof.
  induction 1 as [|d l Hd _ IH]; [reflexivity|].
  cbn [filter]. unfold EnrichedCorpusItem.hasEmbedding. now rewrite Hd.
Qed.

(** X8.  The vector store never has more items than the corpus has chunks,
    whatever the two services do; and when the embedding service returns
    no vector at all (every call throws, or answers without values) the
    vector store is empty, so that the retrieval has nothing to render. *)
Theorem vector_store_size
    (gen : nat -> GenReply EnrichmentData.t) (rnd : nat -> string)
    (embed : nat -> list string -> EmbedReply) (corpus : list CorpusChunk.t) :
  List.length (enrichAndEmbedCorpus gen rnd embed corpus) <= List.length corpus
  /\ (noVectors embed ->
      enrichAndEmbedCorpus gen rnd embed corpus = []
      /\ forall genR embedR jdText options,
           getRagContext genR embedR jdText
             (enrichAndEmbedCorpus gen rnd embed corpus) options
           = EmptyString).
Proof.
  split.
  - unfold enrichAndEmbedCorpus.
    etransitivity; [apply filter_length_le|].
    rewrite <- (length_map stripEmbedding), embeddingPhase_strip, length_map.
    pose proof (length_enrichFrom gen rnd 0 corpus) as Hlen.
    rewrite enrichmentPhase_spec. lia.
  - intros Hno.
    assert (Hempty : enrichAndEmbedCorpus gen rnd embed corpus = []).
    { unfold enrichAndEmbedCorpus, embeddingPhase.
      rewrite embedLoop_noVectors by exact Hno.
      apply filter_unset. rewrite enrichmentPhase_spec. apply enrichFrom_unset. }
    split; [exact Hempty|]. intros genR embedR jdText options.
    rewrite Hempty. reflexivity.
Qed.

Lemma vector_store_size_witness :
  enrichAndEmbedCorpus genDown rndOfPosition (fun _ _ => EmbedRejected) corpus21
  = [].
Proof.
  apply (proj2 (vector_store_size genDown rndOfPosition
                  (fun _ _ => EmbedRejected) corpus21)).
  intros i texts. exact I.
Defined.

(** ** Token usage *)

Lemma reportAll_cons c counts st :
  reportAll (c :: counts) st
  = reportAll counts (reportUsage c (Some handleTokenUsage) st).
Proof. reflexivity. Qed.

Lemma sumZ_cons n l : sumZ (n :: l) = (n + sumZ l)%Z.
Proof. reflexivity. Qed.

Lemma reportAll_usage counts st :
  tokenUsage (reportAll counts st)
  = (tokenUsage st + sumZ (reportedCounts counts))%Z.
Proof.
  revert st. induction counts as [|c counts IH]; intros st.
  - cbn. lia.
  - rewrite reportAll_cons, IH. cbn [reportedCounts flat_map].
    fold (reportedCounts counts).
    destruct c as [n|]; cbn [reportUsage app]; [|lia].
    destruct (n =? 0)%Z; cbn [app]; [lia|].
    rewrite sumZ_cons. cbn [handleTokenUsage tokenUsage]. lia.
Qed.

Lemma sumZ_nonneg l : Forall (fun n => 0 <= n)%Z l -> (0 <= sumZ l)%Z.
Proof.
  induction 1 as [|n l Hn _ IH]; [cbn; lia|]. rewrite sumZ_cons. lia.
Qed.

(** X9.  Reporting the responses of a session one after the other leaves
    [tokenUsage] at the sum of the non-zero counts they carry (a response
    without count, or with count 0, never reaches the handler); and since
    counts are not negative, the limit error is raised exactly when some
    count was reported and the total has reached 200000. *)
Theorem session_usage_and_limit (counts : list (option Z)) (st : UsageState) :
  Forall (fun n => 0 <= n)%Z (reportedCounts counts) ->
  tokenUsage (reportAll counts st)
    = (tokenUsage st + sumZ (reportedCounts counts))%Z
  /\ error (reportAll counts st)
     = if negb (List.length (reportedCounts counts) =? 0)%nat
          && (MAX_SESSION_TOKENS <=? tokenUsage (reportAll counts st))%Z
       then Some limitReached
       else error st.
Proof.
  intros Hpos. split; [apply reportAll_usage|].
  revert st Hpos. induction counts as [|c counts IH]; intros st Hpos;
    [reflexivity|].
  rewrite reportAll_cons.
  cbn [reportedCounts flat_map] in Hpos |- *. fold (reportedCounts counts) in *.
  apply Forall_app in Hpos. destruct Hpos as [Hc Hrest].
  rewrite (IH _ Hrest).
  destruct c as [n|]; cbn [reportUsage]; [|reflexivity].
  destruct (Z.eqb_spec n 0) as [->|Hn]; [reflexivity|].
  cbn [app List.length Nat.eqb negb andb].
  inversion Hc as [|? ? Hn0 _]; subst.
  pose proof (sumZ_nonneg _ Hrest) as Hsum.
  rewrite !reportAll_usage. cbn [handleTokenUsage tokenUsage error].
  destruct (List.length (reportedCounts counts) =? 0)%nat eqn:Elen; cbn [negb andb].
  - apply Nat.eqb_eq, length_zero_iff_nil in Elen. rewrite Elen.
    cbn [sumZ fold_right]. rewrite Z.add_0_r.
    destruct (Z.geb_spec (tokenUsage st + n) MAX_SESSION_TOKENS),
      (Z.leb_spec MAX_SESSION_TOKENS (tokenUsage st + n)); try lia; reflexivity.
  - destruct (Z.leb_spec MAX_SESSION_TOKENS
                (tokenUsage st + n + sumZ (reportedCounts counts)));
      [reflexivity|].
    destruct (Z.geb_spec (tokenUsage st + n) MAX_SESSION_TOKENS); [lia|reflexivity].
Qed.

Lemma session_usage_and_limit_witness :
  tokenUsage (reportAll [Some 150000%Z; None; Some 0%Z; Some 60000%Z]
                {| tokenUsage := 0; error := None |})
  = 210000%Z.
Proof.
  refine (eq_trans (proj1 (session_usage_and_limit
            [Some 150000%Z; None; Some 0%Z; Some 60000%Z]
            {| tokenUsage := 0; error := None |} _)) _).
  - cbn. repeat constructor; lia.
  - reflexivity.
Defined.

(** ** Escaping for LaTeX *)

Lemma string_app_assoc (a b c : string) :
  ((a ++ b) ++ c = a ++ (b ++ c))%string.
Proof. induction a as [|x a IH]; cbn; [reflexivity | now rewrite IH]. Qed.

Lemma string_app_nil_r (a : string) : (a ++ EmptyString)%string = a.
Proof. induction a as [|x a IH]; cbn; [reflexivity | now rewrite IH]. Qed.

Lemma replaceAll_app c rep (a b : string) :
  JSText.replaceAll c rep (a ++ b)
  = (JSText.replaceAll c rep a ++ JSText.replaceAll c rep b)%string.
Proof.
  induction a as [|x a IH]; cbn [String.append JSText.replaceAll]; [reflexivity|].
  rewrite IH. destruct (Ascii.eqb x c); [|reflexivity].
  now rewrite string_app_assoc.
Qed.

Lemma escapeLatex_nine text : escapeLatex text = nineReplacements text.
Proof.
  unfold escapeLatex, nineReplacements.
  destruct text as [|c r]; reflexivity.
Qed.

Lemma nineReplacements_app (a b : string) :
  nineReplacements (a ++ b) = (nineReplacements a ++ nineReplacements b)%string.
Proof. unfold nineReplacements. now rewrite !replaceAll_app. Qed.

Lemma nineReplacements_char c :
  nineReplacements (String c EmptyString) = escapeChar c.
Proof.
  destruct c as [[] [] [] [] [] [] [] []]; reflexivity.
Qed.

Lemma substitute_app f (a b : string) :
  substitute f (a ++ b) = (substitute f a ++ substitute f b)%string.
Proof.
  induction a as [|x a IH]; cbn [String.append substitute]; [reflexivity|].
  now rewrite IH, string_app_assoc.
Qed.

Lemma escapeLatex_substitute text :
  escapeLatex text = substitute escapeChar text.
Proof.
  rewrite escapeLatex_nine.
  induction text as [|c r IH]; [reflexivity|].
  change (String c r) with (String c EmptyString ++ r)%string.
  rewrite nineReplacements_app, nineReplacements_char, IH. reflexivity.
Qed.

(** X10.  The nine global replacements of [escapeLatex], applied one after
    the other, amount to one simultaneous substitution, character by
    character: no replacement touches what an earlier one produced.  Hence
    [escapeLatex] distributes over concatenation, and a text without any of
    the nine characters is returned as it is. *)
Theorem escapeLatex_is_simultaneous (text : string) :
  escapeLatex text = substitute escapeChar text
  /\ (forall rest,
        escapeLatex (text ++ rest) = (escapeLatex text ++ escapeLatex rest)%string)
  /\ (noSpecial text = true -> escapeLatex text = text).
Proof.
  split; [apply escapeLatex_substitute|]. split.
  - intros rest. rewrite !escapeLatex_substitute. apply substitute_app.
  - rewrite escapeLatex_substitute.
    induction text as [|c r IH]; [reflexivity|].
    cbn [substitute noSpecial]. intros H.
    apply andb_true_iff in H. destruct H as [Hc Hr].
    rewrite (IH Hr).
    destruct c as [[] [] [] [] [] [] [] []];
      first [discriminate Hc | reflexivity].
Qed.

Lemma escapeLatex_is_simultaneous_witness :
  escapeLatex "Reduced latency by 40 percent" = "Reduced latency by 40 percent".
Proof.
  apply (proj2 (proj2 (escapeLatex_is_simultaneous
                         "Reduced latency by 40 percent"))).
  reflexivity.
Defined.

Lemma guarded_substitute text afterBackslash :
  guarded afterBackslash (substitute escapeChar text) = true.
Proof.
  revert afterBackslash. induction text as [|c r IH]; intros p; [reflexivity|].
  cbn [substitute].
  destruct c as [[] [] [] [] [] [] [] []]; cbn; apply IH.
Qed.

(** X11.  In the output of [escapeLatex] every ampersand, percent sign,
    dollar sign, hash and underscore comes right after a backslash, and no
    tilde or circumflex is left (they have become macros).  The backslashes
    of the text itself are passed on as they are. *)
Theorem escapeLatex_guards_specials (text : string) :
  guarded false (escapeLatex text) = true
  /\ escapeLatex (String "\" text) = String "\" (escapeLatex text).
Proof.
  split.
  - rewrite escapeLatex_substitute. apply guarded_substitute.
  - now rewrite !escapeLatex_substitute.
Qed.

(** ** Bold markers *)

Lemma splitStars_two cur c c2 r2 :
  JSText.splitStars cur (String c (String c2 r2))
  = if JSText.isStar c && JSText.isStar c2
    then cur :: JSText.splitStars EmptyString r2
    else JSText.splitStars (cur ++ String c EmptyString) (String c2 r2).
Proof. reflexivity. Qed.

Lemma splitStars_nonempty cur s : JSText.splitStars cur s <> [].
Proof.
  revert cur.
  assert (H : forall s, (forall cur, JSText.splitStars cur s <> [])
                     /\ (forall c cur, JSText.splitStars cur (String c s) <> [])).
  { clear s. intros s. induction s as [|c2 r2 [IH1 IH2]]; split; intros.
    - discriminate.
    - discriminate.
    - apply IH2.
    - rewrite splitStars_two.
      destruct (JSText.isStar c && JSText.isStar c2); [discriminate|].
      apply IH2. }
  apply H.
Qed.

Lemma join_cons sep x (l : list string) :
  l <> [] -> JS.join sep (x :: l) = (x ++ sep ++ JS.join sep l)%string.
Proof. intros H. destruct l; [contradiction | reflexivity]. Qed.

Lemma isStar_two c c2 :
  JSText.isStar c && JSText.isStar c2 = true ->
  String c (String c2 EmptyString) = JSText.twoStars.
Proof.
  intros H. apply andb_true_iff in H. destruct H as [H1 H2].
  unfold JSText.isStar in *. apply Ascii.eqb_eq in H1, H2. now subst.
Qed.

Lemma splitStars_join cur s :
  JS.join JSText.twoStars (JSText.splitStars cur s) = (cur ++ s)%string.
Proof.
  revert cur.
  assert (H : forall s,
             (forall cur, JS.join JSText.twoStars (JSText.splitStars cur s)
                          = (cur ++ s)%string)
             /\ (forall c cur,
                   JS.join JSText.twoStars (JSText.splitStars cur (String c s))
                   = (cur ++ String c s)%string)).
  { clear s. intros s. induction s as [|c2 r2 [IH1 IH2]]; split; intros.
    - cbn. now rewrite string_app_nil_r.
    - reflexivity.
    - apply IH2.
    - rewrite splitStars_two.
      destruct (JSText.isStar c && JSText.isStar c2) eqn:E.
      + rewrite join_cons by apply splitStars_nonempty. rewrite IH1.
        apply isStar_two in E. cbn [String.append]. f_equal.
        change (String c (String c2 r2))
          with (String c (String c2 EmptyString) ++ r2)%string.
        now rewrite E.
      + rewrite IH2. rewrite string_app_assoc. reflexivity. }
  apply H.
Qed.

(** X12.  Splitting a text at the bold markers loses nothing: joining the
    parts with the marker gives the text back, and there is always at least
    one part. *)
Theorem split_join_round_trip (text : string) :
  JS.join JSText.twoStars (JSText.splitStars EmptyString text) = text
  /\ 1 <= List.length (JSText.splitStars EmptyString text).
Proof.
  split; [apply splitStars_join|].
  pose proof (splitStars_nonempty EmptyString text) as H.
  destruct (JSText.splitStars EmptyString text); [contradiction | cbn; lia].
Qed.

Lemma splitStars_noMarker cur s :
  noMarker s = true -> JSText.splitStars cur s = [(cur ++ s)%string].
Proof.
  revert cur.
  assert (H : forall s,
             (forall cur, noMarker s = true ->
                          JSText.splitStars cur s = [(cur ++ s)%string])
             /\ (forall c cur, noMarker (String c s) = true ->
                   JSText.splitStars cur (String c s)
                   = [(cur ++ String c s)%string])).
  { clear s. intros s. induction s as [|c2 r2 [IH1 IH2]]; split; intros.
    - cbn. now rewrite string_app_nil_r.
    - reflexivity.
    - now apply IH2.
    - rewrite splitStars_two.
      change (noMarker (String c (String c2 r2)))
        with (negb (JSText.isStar c && JSText.isStar c2)
              && noMarker (String c2 r2)) in H.
      apply andb_true_iff in H. destruct H as [Hm Hr].
      apply negb_true_iff in Hm. rewrite Hm.
      rewrite IH2 by exact Hr. now rewrite string_app_assoc. }
  apply H.
Qed.

Lemma splitStars_marker cur a rest :
  starFree a = true ->
  JSText.splitStars cur (a ++ JSText.twoStars ++ rest)
  = (cur ++ a)%string :: JSText.splitStars EmptyString rest.
Proof.
  revert cur. induction a as [|c a IH]; intros cur Ha.
  - cbn [String.append]. unfold JSText.twoStars. cbn [String.append].
    rewrite splitStars_two. cbn. now rewrite string_app_nil_r.
  - cbn [starFree] in Ha. apply andb_true_iff in Ha. destruct Ha as [Hc Ha].
    apply negb_true_iff in Hc.
    assert (Hnext : exists c2 r2, (a ++ JSText.twoStars ++ rest)%string
                                  = String c2 r2).
    { destruct a as [|x a']; [exists "*"%char; eexists; reflexivity|].
      exists x. eexists. reflexivity. }
    destruct Hnext as [c2 [r2 Hnext]].
    cbn [String.append]. rewrite Hnext, splitStars_two, Hc. cbn [andb].
    rewrite <- Hnext, IH by exact Ha. now rewrite string_app_assoc.
Qed.

Lemma starFree_noMarker s : starFree s = true -> noMarker s = true.
Proof.
  induction s as [|c r IH]; [reflexivity|].
  cbn [starFree]. intros H. apply andb_true_iff in H. destruct H as [Hc Hr].
  apply negb_true_iff in Hc.
  destruct r as [|c2 r2]; [reflexivity|].
  change (noMarker (String c (String c2 r2)))
    with (negb (JSText.isStar c && JSText.isStar c2) && noMarker (String c2 r2)).
  rewrite Hc. cbn [andb negb]. now apply IH.
Qed.

Lemma formatText_parts text :
  formatText text
  = JS.join EmptyString
      (mapFrom formatPart 0 (JSText.splitStars EmptyString text)).
Proof.
  unfold formatText. destruct text as [|c r]; reflexivity.
Qed.

Lemma mapFrom_formatPart_shift i (l : list string) :
  mapFrom formatPart (S (S i)) l = mapFrom formatPart i l.
Proof.
  revert i. induction l as [|x l IH]; intros i; [reflexivity|].
  cbn [mapFrom]. rewrite IH. f_equal. unfold formatPart.
  replace (S (S i) mod 2) with (i mod 2); [reflexivity|].
  change (S (S i)) with (2 + i).
  rewrite <- (Nat.Div0.add_mod_idemp_l 2 i 2). reflexivity.
Qed.

Lemma join_empty_cons x (l : list string) :
  JS.join EmptyString (x :: l) = (x ++ JS.join EmptyString l)%string.
Proof.
  destruct l as [|y l]; [cbn; now rewrite string_app_nil_r | reflexivity].
Qed.

(** X13.  What [formatText] does with the bold markers.  A text without a
    marker is only escaped.  A pair of markers turns the text between them
    into [\textbf{...}], the text around it being formatted on its own.  A
    marker that is not closed makes the whole rest of the text bold. *)
Theorem formatText_bold (a b c : string) :
  (noMarker a = true -> formatText a = escapeLatex a)
  /\ (starFree a = true -> starFree b = true ->
      formatText (a ++ JSText.twoStars ++ b ++ JSText.twoStars ++ c)
      = (escapeLatex a ++ "\textbf{" ++ escapeLatex b ++ "}" ++ formatText c)%string)
  /\ (starFree a = true -> noMarker b = true ->
      formatText (a ++ JSText.twoStars ++ b)
      = (escapeLatex a ++ "\textbf{" ++ escapeLatex b ++ "}")%string).
Proof.
  split; [|split].
  - intros Ha. rewrite formatText_parts, splitStars_noMarker by exact Ha.
    cbn [mapFrom String.append]. unfold formatPart. cbn. reflexivity.
  - intros Ha Hb. rewrite !formatText_parts.
    rewrite splitStars_marker by exact Ha.
    rewrite splitStars_marker by exact Hb.
    cbn [mapFrom String.append]. rewrite mapFrom_formatPart_shift.
    rewrite !join_empty_cons. unfold formatPart at 1 2.
    cbn [Nat.modulo Nat.divmod Nat.eqb fst snd Nat.sub].
    now rewrite !string_app_assoc.
  - intros Ha Hb. rewrite formatText_parts.
    rewrite splitStars_marker by exact Ha.
    rewrite splitStars_noMarker by exact Hb.
    cbn [mapFrom String.append]. rewrite !join_empty_cons.
    unfold formatPart. cbn [Nat.modulo Nat.divmod Nat.eqb fst snd Nat.sub].
    cbn [JS.join String.concat]. now rewrite string_app_nil_r.
Qed.

Lemma formatText_bold_witness :
  formatText ("Built " ++ JSText.twoStars ++ "50%" ++ JSText.twoStars ++ " faster")
  = ("Built " ++ "\textbf{" ++ "50\%" ++ "}" ++ " faster")%string.
Proof.
  refine (eq_trans (proj1 (proj2 (formatText_bold "Built " "50%" " faster")) _ _) _).
  - reflexivity.
  - reflexivity.
  - vm_compute. reflexivity.
Defined.

(** * The exporters on whole resumes *)

Lemma present_throw {A : Type} (o : option A) :
  present o = JS.Throw <-> o = None.
Proof. destruct o; cbn; split; intros H; try discriminate; reflexivity. Qed.

(** A step whose continuation throws or not whatever it is handed. *)
Lemma andThen_throw {A B : Type} (c : JS.Completion A)
    (k : A -> JS.Completion B) (P Q : Prop) :
  (c = JS.Throw <-> P) -> (forall a, k a = JS.Throw <-> Q) ->
  (andThen c k = JS.Throw <-> P \/ Q).
Proof.
  intros Hc Hk. destruct c as [a|]; cbn [andThen].
  - rewrite Hk. split; [now right|]. intros [H|H]; [|exact H].
    apply Hc in H. discriminate.
  - split; [intros _; left; now apply Hc | reflexivity].
Qed.

Lemma andThen_throw_r {A B : Type} (c : JS.Completion A)
    (k : A -> JS.Completion B) :
  (forall a, k a = JS.Throw) -> andThen c k = JS.Throw.
Proof. intros H. destruct c as [a|]; [apply H | reflexivity]. Qed.


Lemma normal_not_throw {A : Type} (a : A) : JS.Normal a = JS.Throw <-> False.
Proof. split; [discriminate | contradiction]. Qed.

Lemma forEachStep_throw {A : Type} (step : A -> string -> JS.Completion string)
    (ok : A -> bool) (l : list A) md :
  (forall x md, step x md = JS.Throw <-> ok x = false) ->
  (forEachStep step l md = JS.Throw <-> forallb ok l = false).
Proof.
  intros Hstep. revert md.
  induction l as [|x l IH]; intros md; cbn [forEachStep forallb].
  - split; discriminate.
  - rewrite andb_false_iff.
    apply andThen_throw; [apply Hstep | intros md'; apply IH].
Qed.

Lemma mapEach_throw {A B : Type} (row : A -> JS.Completion B)
    (ok : A -> bool) (l : list A) :
  (forall x, row x = JS.Throw <-> ok x = false) ->
  (mapEach row l = JS.Throw <-> forallb ok l = false).
Proof.
  intros Hrow. induction l as [|x l IH]; cbn [mapEach forallb].
  - split; discriminate.
  - rewrite andb_false_iff.
    apply andThen_throw; [apply Hrow | intros r].
    rewrite <- IH. destruct (mapEach row l); cbn [andThen].
    + split; discriminate.
    + split; reflexivity.
Qed.

Lemma whenFilled_throw {A : Type} (arr : option (list A)) section
    (ok : A -> bool) md :
  (forall l md, section l md = JS.Throw <-> forallb ok l = false) ->
  (whenFilled arr section md = JS.Throw <-> forallb ok (entries arr) = false).
Proof.
  intros Hs. unfold whenFilled. destruct arr as [l|]; cbn [entries].
  - destruct l as [|x l]; cbn [List.length Nat.eqb negb].
    + split; discriminate.
    + apply Hs.
  - split; discriminate.
Qed.

Lemma whenFilled_never_throws {A : Type} (arr : option (list A)) section md :
  (forall l md, section l md <> JS.Throw) ->
  (whenFilled arr section md = JS.Throw <-> False).
Proof.
  intros Hs. unfold whenFilled. split; [|contradiction].
  destruct arr as [l|]; [|discriminate].
  destruct (negb (List.length l =? 0)%nat); [apply Hs | discriminate].
Qed.

Lemma whenFilled_absent {A : Type} (arr : option (list A)) section :
  whenFilled (Some (JS.orArr arr [])) section = whenFilled arr section.
Proof. destruct arr as [l|]; reflexivity. Qed.

(** Where each piece throws. *)
Lemma markdownJob_throw job md :
  markdownJob job md = JS.Throw <-> jobComplete job = false.
Proof.
  unfold markdownJob, jobComplete.
  destruct (WorkExperience.bullet_points job); cbn; split; intros H;
    try discriminate; reflexivity.
Qed.

Lemma markdownProject_throw proj md :
  markdownProject proj md = JS.Throw <-> projectComplete proj = false.
Proof.
  unfold markdownProject, projectComplete.
  destruct (Project.technologies_used proj), (Project.bullet_points proj);
    cbn; split; intros H; try discriminate; reflexivity.
Qed.

Lemma markdownSkillGroup_throw g md :
  markdownSkillGroup g md = JS.Throw <-> skillGroupComplete g = false.
Proof.
  unfold markdownSkillGroup, skillGroupComplete.
  destruct (SkillGroup.items g); cbn; split; intros H;
    try discriminate; reflexivity.
Qed.

Lemma latexJob_throw job :
  latexJob job = JS.Throw <-> jobComplete job = false.
Proof.
  unfold latexJob, jobComplete.
  destruct (WorkExperience.bullet_points job); cbn [present andThen isPresent];
    split; intros H; try discriminate; reflexivity.
Qed.

Lemma latexProject_throw proj :
  latexProject proj = JS.Throw <-> projectComplete proj = false.
Proof.
  unfold latexProject, projectComplete.
  destruct (Project.technologies_used proj), (Project.bullet_points proj);
    cbn [present andThen isPresent andb]; split; intros H;
    try discriminate; reflexivity.
Qed.

Lemma latexSkillGroup_throw g :
  latexSkillGroup g = JS.Throw <-> skillGroupComplete g = false.
Proof.
  unfold latexSkillGroup, skillGroupComplete.
  destruct (SkillGroup.items g); cbn [present andThen isPresent];
    split; intros H; try discriminate; reflexivity.
Qed.

Lemma latexEducation_throw edu :
  latexEducation edu = JS.Throw <-> educationComplete edu = false.
Proof.
  unfold latexEducation, educationComplete.
  destruct (Education.achievements edu); cbn [present andThen isPresent];
    split; intros H; try discriminate; reflexivity.
Qed.

(** A section of the LaTeX document throws when one of its rows does. *)
Lemma latexSection_throw {A : Type} (row : A -> JS.Completion string)
    (ok : A -> bool) (l : list A) (text : list string -> string) :
  (forall x, row x = JS.Throw <-> ok x = false) ->
  ((if negb (List.length l =? 0)%nat
    then rows <- mapEach row l ;; JS.Normal (text rows)
    else JS.Normal EmptyString) = JS.Throw
   <-> forallb ok l = false).
Proof.
  intros Hrow. destruct l as [|x l]; cbn [List.length Nat.eqb negb].
  - split; discriminate.
  - rewrite <- (mapEach_throw row ok (x :: l) Hrow).
    destruct (mapEach row (x :: l)); cbn [andThen]; split; intros H;
      try discriminate; reflexivity.
Qed.

Lemma generateMarkdown_throws c resume :
  generateMarkdown (Some c) resume = JS.Throw
  <-> forallb jobComplete (entries (work_experience resume)) = false
      \/ forallb projectComplete (entries (projects resume)) = false
      \/ False
      \/ forallb skillGroupComplete (entries (skills resume)) = false
      \/ False \/ False.
Proof.
  unfold generateMarkdown. cbn [present andThen]. cbv zeta.
  apply andThen_throw.
  { apply whenFilled_throw. intros l md. apply forEachStep_throw.
    intros x md'. apply markdownJob_throw. }
  intros md1. apply andThen_throw.
  { apply whenFilled_throw. intros l md. apply forEachStep_throw.
    intros x md'. apply markdownProject_throw. }
  intros md2. apply andThen_throw.
  { apply whenFilled_never_throws. intros l md H.
    apply (forEachStep_throw _ (fun _ => true)) in H.
    - assert (Hall : forallb (fun _ : Education.t => true) l = true)
        by now apply forallb_forall.
      rewrite Hall in H. discriminate.
    - intros x md'. split; discriminate. }
  intros md3. apply andThen_throw.
  { apply whenFilled_throw. intros l md. apply forEachStep_throw.
    intros x md'. apply markdownSkillGroup_throw. }
  intros md4. apply andThen_throw.
  { apply whenFilled_never_throws. intros l md. discriminate. }
  intros md5. apply normal_not_throw.
Qed.

Lemma generateLatex_throws c resume w p s e ce :
  work_experience resume = Some w -> projects resume = Some p ->
  skills resume = Some s -> education resume = Some e ->
  certifications resume = Some ce ->
  generateLatex (Some c) resume = JS.Throw
  <-> forallb jobComplete w = false
      \/ forallb projectComplete p = false
      \/ forallb skillGroupComplete s = false
      \/ forallb educationComplete e = false
      \/ False.
Proof.
  intros Ew Ep Es Ee Ec. unfold generateLatex.
  rewrite Ew, Ep, Es, Ee, Ec. cbn [present andThen].
  apply andThen_throw.
  { apply mapEach_throw, latexJob_throw. }
  intros jobs. apply andThen_throw.
  { unfold latexProjects. apply latexSection_throw, latexProject_throw. }
  intros sec1. apply andThen_throw.
  { unfold latexSkills. apply latexSection_throw, latexSkillGroup_throw. }
  intros sec2. apply andThen_throw.
  { unfold latexEducationSection.
    apply latexSection_throw, latexEducation_throw. }
  intros sec3. apply normal_not_throw.
Qed.

Lemma generateLatex_absent_array c resume :
  anArrayIsAbsent resume = true -> generateLatex c resume = JS.Throw.
Proof.
  unfold anArrayIsAbsent, generateLatex. intros H.
  destruct c as [c|]; [|reflexivity]. cbn [present andThen].
  destruct (work_experience resume); [|reflexivity]. cbn [present andThen].
  apply andThen_throw_r. intros jobs.
  destruct (projects resume); [|reflexivity]. cbn [present andThen].
  apply andThen_throw_r. intros sec1.
  destruct (skills resume); [|reflexivity]. cbn [present andThen].
  apply andThen_throw_r. intros sec2.
  destruct (education resume); [|reflexivity]. cbn [present andThen].
  apply andThen_throw_r. intros sec3.
  destruct (certifications resume); [discriminate | reflexivity].
Qed.

(** X14.  What the two exporters do with a resume that lacks a field.
    [generateMarkdown] throws exactly when [contact_info] is absent or an
    entry lacks an array that is walked unguarded (the bullets of a job,
    the technologies or the bullets of a project, the items of a skill
    group); an absent top-level array is to it what an empty one is, and
    absent achievements are passed over.  [generateLatex] throws exactly
    when [contact_info] or one of the five top-level arrays is absent, or
    an entry lacks one of its arrays, the achievements of an education
    entry included.  So every resume that exports to LaTeX exports to
    Markdown, and not the other way round. *)
Theorem exporters_on_absent_fields
    (contact_info : option ContactInfo.t) (resume : ParsedResume) :
  (generateMarkdown contact_info resume = JS.Throw
   <-> contact_info = None \/ markdownCanWalk resume = false)
  /\ generateMarkdown contact_info (withEmptyArrays resume)
     = generateMarkdown contact_info resume
  /\ (generateLatex contact_info resume = JS.Throw
      <-> contact_info = None \/ anArrayIsAbsent resume = true
          \/ entriesComplete resume = false)
  /\ (generateLatex contact_info resume <> JS.Throw ->
      generateMarkdown contact_info resume <> JS.Throw)
  /\ generateMarkdown (Some janeContact) janeWithDegree <> JS.Throw
  /\ generateLatex (Some janeContact) janeWithDegree = JS.Throw.
Proof.
  assert (Hmd : generateMarkdown contact_info resume = JS.Throw
                <-> contact_info = None \/ markdownCanWalk resume = false).
  { destruct contact_info as [c|].
    - rewrite generateMarkdown_throws. unfold markdownCanWalk.
      rewrite !andb_false_iff. split.
      + intros [H|[H|[[]|[H|[[]|[]]]]]]; right; auto.
      + intros [H|[[H|H]|H]]; [discriminate | | |]; auto.
    - split; [now left | reflexivity]. }
  assert (Htex : generateLatex contact_info resume = JS.Throw
                 <-> contact_info = None \/ anArrayIsAbsent resume = true
                     \/ entriesComplete resume = false).
  { destruct contact_info as [c|]; [|split; [now left | reflexivity]].
    destruct (anArrayIsAbsent resume) eqn:Habs.
    - rewrite (generateLatex_absent_array _ _ Habs).
      split; [intros _; right; now left | reflexivity].
    - unfold anArrayIsAbsent in Habs.
      destruct (work_experience resume) as [w|] eqn:Ew; [|discriminate].
      destruct (projects resume) as [p|] eqn:Ep; [|discriminate].
      destruct (skills resume) as [s|] eqn:Es; [|discriminate].
      destruct (education resume) as [e|] eqn:Ee; [|discriminate].
      destruct (certifications resume) as [ce|] eqn:Ec; [|discriminate].
      rewrite (generateLatex_throws c resume w p s e ce Ew Ep Es Ee Ec).
      unfold entriesComplete. rewrite Ew, Ep, Es, Ee. cbn [entries].
      rewrite !andb_false_iff. split.
      + intros [H|[H|[H|[H|[]]]]]; right; right; auto.
      + intros [H|[H|[[[H|H]|H]|H]]]; try discriminate; auto. }
  split; [exact Hmd|]. split; [|split; [exact Htex|split; [|split]]].
  - unfold generateMarkdown. destruct contact_info as [c|]; [|reflexivity].
    cbn [present andThen withEmptyArrays professional_summary work_experience
         projects education skills certifications].
    now rewrite !whenFilled_absent.
  - intros Hok Hthrow. apply Hok. apply Htex. apply Hmd in Hthrow.
    destruct Hthrow as [H|H]; [now left|]. right.
    destruct (anArrayIsAbsent resume); [now left|]. right.
    unfold markdownCanWalk in H. unfold entriesComplete.
    rewrite !andb_false_iff in *. destruct H as [[H|H]|H]; auto.
  - discriminate.
  - reflexivity.
Qed.

Lemma exporters_on_absent_fields_witness :
  generateLatex (Some janeContact) janeResume <> JS.Throw
  /\ generateMarkdown (Some janeContact) janeResume <> JS.Throw.
Proof.
  assert (H : generateLatex (Some janeContact) janeResume <> JS.Throw)
    by discriminate.
  split; [exact H|].
  exact (proj1 (proj2 (proj2 (proj2
           (exporters_on_absent_fields (Some janeContact) janeResume)))) H).
Defined.

Lemma occursIn_refl (s : string) : occursIn s s.
Proof. exists EmptyString, EmptyString. cbn. now rewrite string_app_nil_r. Qed.

Lemma occursIn_app_l (x a b : string) : occursIn x a -> occursIn x (a ++ b).
Proof.
  intros [pre [post ->]]. exists pre, (post ++ b)%string.
  now rewrite !string_app_assoc.
Qed.

Lemma occursIn_app_r (x a b : string) : occursIn x b -> occursIn x (a ++ b).
Proof.
  intros [pre [post ->]]. exists (a ++ pre)%string, post.
  now rewrite !string_app_assoc.
Qed.


Lemma occursIn_join sep (l : list string) x :
  In x l -> occursIn x (JS.join sep l).
Proof.
  induction l as [|y l IH]; [contradiction|].
  intros Hin. destruct l as [|z l].
  - destruct Hin as [->|[]]. apply occursIn_refl.
  - rewrite join_cons by discriminate. destruct Hin as [->|Hin].
    + apply occursIn_app_l, occursIn_refl.
    + now apply occursIn_app_r, occursIn_app_r, IH.
Qed.

Lemma prefix_app (sub post : string) : String.prefix sub (sub ++ post) = true.
Proof.
  induction sub as [|c sub IH]; [now destruct post|].
  cbn. destruct (ascii_dec c c) as [_|n]; [exact IH | now destruct n].
Qed.

Lemma includes_eq (s sub : string) :
  JSText.includes s sub
  = String.prefix sub s
    || match s with
       | EmptyString => false
       | String _ r => JSText.includes r sub
       end.
Proof. destruct s; reflexivity. Qed.

Lemma occursIn_includes (sub s : string) :
  occursIn sub s -> JSText.includes s sub = true.
Proof.
  intros [pre [post ->]]. induction pre as [|c pre IH].
  - rewrite includes_eq. cbn [String.append]. now rewrite prefix_app.
  - rewrite includes_eq. cbn [String.append]. rewrite IH. apply orb_true_r.
Qed.






(** Walks down a chain of appended pieces to the one that [H] is about. *)
Ltac find_piece H :=
  first [ exact H
        | apply occursIn_app_l; exact H
        | apply occursIn_app_r; find_piece H ].

















(** * Reading the uploaded resume *)

Lemma prefix_split (sub s : string) :
  String.prefix sub s = true -> exists post, s = (sub ++ post)%string.
Proof.
  revert s. induction sub as [|a sub IH]; intros s H.
  - now exists s.
  - destruct s as [|b s]; [discriminate|]. cbn in H.
    destruct (ascii_dec a b) as [->|]; [|discriminate].
    destruct (IH _ H) as [post ->]. now exists post.
Qed.

Lemma text_type_includes_tex (mimeType : string) :
  JSText.startsWith mimeType "text/" = true ->
  JSText.includes mimeType "tex" = true.
Proof.
  intros H. apply prefix_split in H. destruct H as [post ->].
  apply occursIn_includes. now exists EmptyString, ("t/" ++ post)%string.
Qed.

Lemma isTextBased_rule (mimeType : string) :
  isTextBased mimeType
  = (mimeType =? "application/json")%string || JSText.includes mimeType "tex".
Proof.
  unfold isTextBased.
  destruct (JSText.startsWith mimeType "text/") eqn:Hs; [|reflexivity].
  rewrite (text_type_includes_tex _ Hs). cbn [orb]. now rewrite orb_true_r.
Qed.

Lemma handleFileUpload_mime (file : File.t) (mimeType : string) :
  handleFileUpload (Some file) = Parse mimeType ->
  mimeType = if JS.truthyStr (File.type file) then File.type file
             else "text/plain".
Proof.
  unfold handleFileUpload. cbv zeta.
  match goal with
  | |- (if ?c then _ else _) = _ -> _ => destruct c; [discriminate|]
  end.
  intros H. injection H as <-.
  destruct (File.type file) as [|c t]; [|reflexivity].
  change (JS.truthyStr EmptyString) with false. cbn [negb].
  change (EmptyString =? "application/pdf")%string with false. cbv iota.
  repeat match goal with
         | |- context [if ?c then _ else _] => destruct c
         end; reflexivity.
Qed.

(** X16.  How an uploaded file reaches the parser.  The parser's test for
    a text format comes to: the type is [application/json] or has [tex]
    in it (the test for a [text/] prefix adds nothing).  An accepted file
    is passed on with the type the browser reports; when the browser
    reports none, the type is [text/plain], never [application/pdf], and
    the content is decoded and sent as text.  A file reported as PDF is
    always sent as inline data. *)
Theorem upload_is_classified (file : File.t) (mimeType data : string)
    (decode : string -> JS.Completion string) :
  handleFileUpload (Some file) = Parse mimeType ->
  (forall m, isTextBased m
             = (m =? "application/json")%string || JSText.includes m "tex")
  /\ mimeType <> EmptyString
  /\ (File.type file <> EmptyString -> mimeType = File.type file)
  /\ (File.type file = EmptyString ->
      mimeType = "text/plain"
      /\ forall textContent, decode data = JS.Normal textContent ->
           resumePart data mimeType decode
           = TextPart ("[RESUME CONTENT START]" ++ JS.nl ++ textContent
                       ++ JS.nl ++ "[RESUME CONTENT END]"))
  /\ (File.type file = "application/pdf" ->
      resumePart data mimeType decode = InlineData "application/pdf" data).
Proof.
  intros H. apply handleFileUpload_mime in H.
  split; [exact isTextBased_rule|].
  destruct (File.type file) as [|c t] eqn:Ht.
  - change (JS.truthyStr EmptyString) with false in H. subst mimeType.
    split; [discriminate|]. split; [now intros []|]. split.
    + intros _. split; [reflexivity|]. intros textContent Hd.
      unfold resumePart. change (isTextBased "text/plain") with true.
      cbv iota. now rewrite Hd.
    + discriminate.
  - assert (Htruthy : JS.truthyStr (String c t) = true) by reflexivity.
    rewrite Htruthy in H. subst mimeType.
    split; [discriminate|]. split; [reflexivity|]. split; [discriminate|].
    intros ->. reflexivity.
Qed.

Lemma upload_is_classified_witness :
  handleFileUpload (Some {| File.type := EmptyString; File.name := "CV.MD" |})
  = Parse "text/plain"
  /\ resumePart "SGk=" "text/plain" (fun _ => JS.Normal "Hi")
     = TextPart ("[RESUME CONTENT START]" ++ JS.nl ++ "Hi" ++ JS.nl
                 ++ "[RESUME CONTENT END]").
Proof.
  assert (H : handleFileUpload
                (Some {| File.type := EmptyString; File.name := "CV.MD" |})
              = Parse "text/plain") by reflexivity.
  split; [exact H|].
  destruct (upload_is_classified _ _ "SGk=" (fun _ => JS.Normal "Hi") H)
    as [_ [_ [_ [Htext _]]]].
  exact (proj2 (Htext eq_refl) "Hi" eq_refl).
Defined.

(** * cosineSimilarity on vectors of different lengths *)

Lemma add_nan_l (x : float) : (nan + x)%float = nan.
Proof.
  apply Prim2SF_inj. rewrite add_spec.
  change (Prim2SF nan) with S754_nan. reflexivity.
Qed.

Lemma add_nan_r (x : float) : (x + nan)%float = nan.
Proof.
  apply Prim2SF_inj. rewrite add_spec.
  change (Prim2SF nan) with S754_nan.
  destruct (Prim2SF x) as [| | |[] m e]; reflexivity.
Qed.

Lemma mul_nan_r (x : float) : (x * nan)%float = nan.
Proof.
  apply Prim2SF_inj. rewrite mul_spec.
  change (Prim2SF nan) with S754_nan.
  destruct (Prim2SF x) as [| | |[] m e]; reflexivity.
Qed.

Lemma div_nan_l (x : float) : (nan / x)%float = nan.
Proof.
  apply Prim2SF_inj. rewrite div_spec.
  change (Prim2SF nan) with S754_nan. reflexivity.
Qed.

Lemma fold_left_ext_in {A B : Type} (f g : A -> B -> A) (l : list B) (a : A) :
  (forall acc x, In x l -> f acc x = g acc x) ->
  fold_left f l a = fold_left g l a.
Proof.
  revert a. induction l as [|x l IH]; intros a H; [reflexivity|].
  cbn [fold_left]. rewrite (H a x (or_introl eq_refl)).
  apply IH. intros acc y Hy. apply H. now right.
Qed.

Lemma numAt_app (v extra : list float) (i : nat) :
  (i < List.length v)%nat -> numAt (v ++ extra) i = numAt v i.
Proof. intros H. unfold numAt. now apply app_nth1. Qed.

Lemma numAt_beyond (v : list float) (i : nat) :
  (List.length v <= i)%nat -> numAt v i = nan.
Proof. intros H. unfold numAt. now apply nth_overflow. Qed.

(** Once the dot product is not a number it stays so. *)
Lemma dot_stays_nan (vecA vecB : list float) (l : list nat) normA normB :
  fst (fst
    (fold_left
      (fun '(dotProduct, normA, normB) i =>
         ((dotProduct + numAt vecA i * numAt vecB i)%float,
          (normA + numAt vecA i * numAt vecA i)%float,
          (normB + numAt vecB i * numAt vecB i)%float))
      l (nan, normA, normB))) = nan.
Proof.
  revert normA normB. induction l as [|i l IH]; intros normA normB;
    [reflexivity|].
  cbn [fold_left]. rewrite add_nan_l. apply IH.
Qed.

Lemma dot_is_nan (vecA vecB : list float) :
  (List.length vecB < List.length vecA)%nat ->
  fst (fst
    (fold_left
      (fun '(dotProduct, normA, normB) i =>
         ((dotProduct + numAt vecA i * numAt vecB i)%float,
          (normA + numAt vecA i * numAt vecA i)%float,
          (normB + numAt vecB i * numAt vecB i)%float))
      (seq 0 (List.length vecA)) (0%float, 0%float, 0%float))) = nan.
Proof.
  intros Hlen.
  replace (List.length vecA)
    with (List.length vecB
          + S (List.length vecA - S (List.length vecB)))%nat by lia.
  rewrite seq_app, fold_left_app. cbn [seq fold_left Nat.add].
  destruct (fold_left _ (seq 0 (List.length vecB)) _) as [[d na] nb].
  rewrite (numAt_beyond vecB (List.length vecB)) by lia.
  rewrite mul_nan_r, add_nan_r. apply dot_stays_nan.
Qed.

(** X17.  What [cosineSimilarity] does when the two vectors differ in
    length.  The loop runs over the first vector: the entries of a longer
    second vector beyond that length are never read, and a second vector
    that is shorter makes the result NaN, whatever the entries are. *)
Theorem cosineSimilarity_dimension_mismatch (vecA vecB : list float) :
  (forall extra, (List.length vecA <= List.length vecB)%nat ->
     cosineSimilarity vecA (vecB ++ extra) = cosineSimilarity vecA vecB)
  /\ ((List.length vecB < List.length vecA)%nat ->
      cosineSimilarity vecA vecB = nan).
Proof.
  split.
  - intros extra Hlen. unfold cosineSimilarity.
    rewrite (fold_left_ext_in _
      (fun '(dotProduct, normA, normB) i =>
         ((dotProduct + numAt vecA i * numAt vecB i)%float,
          (normA + numAt vecA i * numAt vecA i)%float,
          (normB + numAt vecB i * numAt vecB i)%float))); [reflexivity|].
    intros [[d na] nb] i Hi. apply in_seq in Hi.
    rewrite numAt_app by lia. reflexivity.
  - intros Hlen. unfold cosineSimilarity.
    pose proof (dot_is_nan vecA vecB Hlen) as Hnan.
    destruct (fold_left _ (seq 0 (List.length vecA)) _) as [[d na] nb].
    cbn [fst] in Hnan. subst d. apply div_nan_l.
Qed.

Lemma cosineSimilarity_dimension_mismatch_witness :
  cosineSimilarity [1%float; 2%float] ([2%float; 1%float] ++ [7%float])
  = cosineSimilarity [1%float; 2%float] [2%float; 1%float]
  /\ cosineSimilarity [1%float; 2%float; 3%float] [1%float; 2%float] = nan.
Proof.
  split.
  - apply (proj1 (cosineSimilarity_dimension_mismatch
                    [1%float; 2%float] [2%float; 1%float])).
    cbn. lia.
  - apply (proj2 (cosineSimilarity_dimension_mismatch
                    [1%float; 2%float; 3%float] [1%float; 2%float])).
    cbn. lia.
Defined.

(** * JobAppCopilot *)

Lemma exchange_result {S : Type} (onTokenUsage : option (Z -> S -> S))
    (service : Chat.t -> string -> ChatReply) session message cp (st : S) :
  let '(_, cp', _) := exchange onTokenUsage service session message cp st in
  cp' = setSession (afterSending message session) cp.
Proof. unfold exchange. now destruct (service session message). Qed.

Lemma sessionOf_ext c cp1 cp2 :
  jdText cp1 = jdText cp2 -> evidence cp1 = evidence cp2 ->
  requirements cp1 = requirements cp2 ->
  sessionOf c cp1 = sessionOf c cp2.
Proof.
  intros Hj He Hr.
  destruct c as [tone|tone|m]; cbn [sessionOf]; [| |reflexivity];
    unfold coverLetterInstruction, questionModeInstruction;
    now rewrite Hj, He, Hr.
Qed.

(** What one call leaves behind. *)
Lemma call_session {S : Type} (onTokenUsage : option (Z -> S -> S))
    (service : Chat.t -> string -> ChatReply) c cp (st : S) :
  let '(_, cp', _) := call onTokenUsage service c cp st in
  chatSession cp'
  = option_map (sendAll (messageOf c))
      (if startsSession c then sessionOf c cp else chatSession cp)
  /\ jdText cp' = jdText cp /\ evidence cp' = evidence cp
  /\ requirements cp' = requirements cp.
Proof.
  destruct c as [tone|tone|message]; cbn [call startsSession messageOf].
  - unfold draftCoverLetter. cbn [startNewSession chatSession].
    pose proof (exchange_result onTokenUsage service
      {| Chat.temperature := coverLetterTemperature;
         Chat.systemInstruction :=
           coverLetterInstruction cp
             match tone with Some t => t | None => defaultTone end;
         Chat.history := seedHistory; Chat.sent := [] |}
      draftInstruction
      (startNewSession
         (coverLetterInstruction cp
            match tone with Some t => t | None => defaultTone end)
         coverLetterTemperature cp) st) as H.
    destruct (exchange _ _ _ _ _ _) as [[r cp'] st']. subst cp'.
    repeat split.
  - unfold startQuestionMode. repeat split.
  - unfold sendMessage. destruct (chatSession cp) as [session|] eqn:Hs.
    + pose proof (exchange_result onTokenUsage service session message cp st) as H.
      destruct (exchange _ _ _ _ _ _) as [[r cp'] st']. subst cp'.
      repeat split.
    + rewrite Hs. repeat split.
Qed.

Lemma sendAll_app ms1 ms2 session :
  sendAll (ms1 ++ ms2) session = sendAll ms2 (sendAll ms1 session).
Proof. unfold sendAll. apply fold_left_app. Qed.

Lemma lastStart_none calls :
  lastStart calls = None <-> forallb isSendMessage calls = true.
Proof.
  induction calls as [|c calls IH]; cbn [lastStart forallb]; [tauto|].
  unfold isSendMessage at 1.
  destruct (lastStart calls) as [found|].
  - split; [discriminate|]. intros H. apply andb_true_iff in H.
    destruct H as [_ H]. apply IH in H. discriminate.
  - destruct (startsSession c); cbn [negb andb].
    + split; discriminate.
    + split; [intros _; now apply IH | reflexivity].
Qed.

Lemma callAll_session {S : Type} (onTokenUsage : option (Z -> S -> S))
    (service : Chat.t -> string -> ChatReply) calls cp (st : S) :
  let '(replies, cp', _) := callAll onTokenUsage service calls cp st in
  chatSession cp' = sessionAfter calls cp
  /\ jdText cp' = jdText cp /\ evidence cp' = evidence cp
  /\ requirements cp' = requirements cp
  /\ List.length replies = List.length calls.
Proof.
  revert cp st. induction calls as [|c calls IH]; intros cp st.
  - cbn. unfold sessionAfter. cbn. destruct (chatSession cp); repeat split.
  - cbn [callAll].
    pose proof (call_session onTokenUsage service c cp st) as Hc.
    destruct (call onTokenUsage service c cp st) as [[r cp1] st1].
    destruct Hc as [Hs [Hj [He Hr]]].
    specialize (IH cp1 st1).
    destruct (callAll onTokenUsage service calls cp1 st1) as [[rs cp2] st2].
    destruct IH as [IHs [IHj [IHe [IHr IHl]]]].
    split; [|repeat split; try congruence; cbn; now rewrite IHl].
    rewrite IHs. unfold sessionAfter. cbn [lastStart flat_map].
    destruct (lastStart calls) as [[c' later]|].
    + now rewrite (sessionOf_ext c' cp1 cp Hj He Hr).
    + rewrite Hs. destruct (startsSession c).
      * destruct (sessionOf c cp) as [s|]; cbn [option_map]; [|reflexivity].
        now rewrite sendAll_app.
      * destruct (chatSession cp) as [s|]; cbn [option_map]; [|reflexivity].
        now rewrite sendAll_app.
Qed.

(** X18.  The chat session of a copilot after any sequence of calls,
    whatever the service replies and whether or not a call fails: it is
    the session that the last [draftCoverLetter] or [startQuestionMode]
    created, with its own temperature and system instruction, to which
    only the messages from that call on have been sent.  The job
    description, the evidence and the requirement list never change. *)
Theorem session_follows_last_start {S : Type}
    (onTokenUsage : option (Z -> S -> S))
    (service : Chat.t -> string -> ChatReply)
    (calls : list Call) (cp : JobAppCopilot) (st : S) :
  let '(replies, cp', _) := callAll onTokenUsage service calls cp st in
  chatSession cp' = sessionAfter calls cp
  /\ (forall c later, lastStart calls = Some (c, later) ->
      exists session,
        chatSession cp' = Some session
        /\ Chat.temperature session
           = match c with
             | DraftCoverLetter _ => coverLetterTemperature
             | _ => questionModeTemperature
             end
        /\ Chat.history session = seedHistory
        /\ Chat.sent session = messageOf c ++ flat_map messageOf later)
  /\ jdText cp' = jdText cp /\ evidence cp' = evidence cp
  /\ requirements cp' = requirements cp
  /\ List.length replies = List.length calls.
Proof.
  pose proof (callAll_session onTokenUsage service calls cp st) as H.
  destruct (callAll onTokenUsage service calls cp st) as [[replies cp'] st'].
  destruct H as [Hs [Hj [He [Hr Hl]]]].
  split; [exact Hs|]. split; [|now repeat split].
  intros c later Hlast. rewrite Hs. unfold sessionAfter. rewrite Hlast.
  assert (Hsend : forall ms s,
             Chat.temperature (sendAll ms s) = Chat.temperature s
             /\ Chat.history (sendAll ms s) = Chat.history s
             /\ Chat.sent (sendAll ms s) = Chat.sent s ++ ms).
  { intros ms. induction ms as [|m ms IHm]; intros s.
    - cbn. now rewrite app_nil_r.
    - change (sendAll (m :: ms) s) with (sendAll ms (afterSending m s)).
      destruct (IHm (afterSending m s)) as [Ht [Hh Hsent]].
      rewrite Ht, Hh, Hsent. cbn. now rewrite <- app_assoc. }
  assert (Hstart : startsSession c = true).
  { clear - Hlast. revert c later Hlast.
    induction calls as [|c0 calls IH]; intros c later Hlast; [discriminate|].
    cbn [lastStart] in Hlast. destruct (lastStart calls) as [found|].
    - injection Hlast as ->. now apply (IH c later).
    - destruct (startsSession c0) eqn:E; [|discriminate].
      now injection Hlast as <- <-. }
  destruct c as [tone|tone|m]; [| |discriminate]; cbn [sessionOf option_map];
    eexists; (split; [reflexivity|]);
    match goal with
    | |- context [sendAll ?ms ?s] => destruct (Hsend ms s) as [Ht [Hh Hsent]]
    end; rewrite Ht, Hh, Hsent; repeat split.
Qed.

(** X19.  Before any session is started the copilot answers on its own:
    every [sendMessage] returns the same notice, the service is not asked,
    no token usage is reported and the copilot is left as it was. *)
Theorem messages_before_a_start {S : Type}
    (onTokenUsage : option (Z -> S -> S))
    (service : Chat.t -> string -> ChatReply)
    (calls : list Call) (cp : JobAppCopilot) (st : S) :
  chatSession cp = None ->
  forallb isSendMessage calls = true ->
  callAll onTokenUsage service calls cp st
  = (map (fun _ => JS.Normal (Some notStarted)) calls, cp, st).
Proof.
  intros Hnone. induction calls as [|c calls IH]; intros Hall; [reflexivity|].
  cbn [forallb] in Hall. apply andb_true_iff in Hall.
  destruct Hall as [Hc Hall].
  destruct c as [tone|tone|message]; [discriminate | discriminate |].
  cbn [callAll call map]. unfold sendMessage. rewrite Hnone.
  now rewrite (IH Hall).
Qed.

Lemma messages_before_a_start_witness :
  callAll (Some handleTokenUsage) (fun _ _ => ChatResult (Some "Hello") (Some 10%Z))
    [SendMessage "Hi"; SendMessage "Anyone?"] acmeCopilot
    {| tokenUsage := 0; error := None |}
  = ([JS.Normal (Some notStarted); JS.Normal (Some notStarted)], acmeCopilot,
     {| tokenUsage := 0; error := None |}).
Proof.
  apply (messages_before_a_start (Some handleTokenUsage)
           (fun _ _ => ChatResult (Some "Hello") (Some 10%Z))
           [SendMessage "Hi"; SendMessage "Anyone?"] acmeCopilot
           {| tokenUsage := 0; error := None |}); reflexivity.
Defined.

Lemma session_follows_last_start_witness :
  exists session,
    chatSession
      (snd (fst (callAll (Some handleTokenUsage) (fun _ _ => ChatRejected)
                   [SendMessage "Hi"; StartQuestionMode None;
                    SendMessage "Why me?"; DraftCoverLetter (Some "warm");
                    SendMessage "Shorter"]
                   acmeCopilot {| tokenUsage := 0; error := None |})))
    = Some session
    /\ Chat.temperature session = coverLetterTemperature
    /\ Chat.history session = seedHistory
    /\ Chat.sent session = [draftInstruction; "Shorter"].
Proof.
  pose proof (session_follows_last_start (Some handleTokenUsage)
                (fun _ _ => ChatRejected)
                [SendMessage "Hi"; StartQuestionMode None;
                 SendMessage "Why me?"; DraftCoverLetter (Some "warm");
                 SendMessage "Shorter"]
                acmeCopilot {| tokenUsage := 0; error := None |}) as H.
  destruct (callAll _ _ _ _ _) as [[replies cp'] st'].
  destruct H as [_ [H _]].
  exact (H (DraftCoverLetter (Some "warm")) [SendMessage "Shorter"] eq_refl).
Defined.

(** X20.  A session is started with everything the copilot was given: the
    system instruction of [draftCoverLetter] and of [startQuestionMode]
    has in it the whole job description, the whole evidence text, the tone
    asked for, and each requirement on a line of its own after a dash. *)
Theorem instructions_carry_inputs (jd ev : string) (reqs : list string)
    (c : Call) (session : Chat.t) :
  sessionOf c (newJobAppCopilot jd ev reqs) = Some session ->
  JSText.includes (Chat.systemInstruction session) jd = true
  /\ JSText.includes (Chat.systemInstruction session) ev = true
  /\ (forall r, In r reqs ->
        JSText.includes (Chat.systemInstruction session) ("- " ++ r) = true)
  /\ (forall tone, c = DraftCoverLetter (Some tone)
                   \/ c = StartQuestionMode (Some tone) ->
        JSText.includes (Chat.systemInstruction session) tone = true).
Proof.
  intros Hs.
  assert (Hjd : occursIn jd (jdText (newJobAppCopilot jd ev reqs)))
    by apply occursIn_refl.
  assert (Hev : occursIn ev (evidence (newJobAppCopilot jd ev reqs)))
    by apply occursIn_refl.
  assert (Hreq : forall r, In r reqs ->
            occursIn ("- " ++ r) (requirements (newJobAppCopilot jd ev reqs))).
  { intros r Hr. cbn [newJobAppCopilot requirements].
    apply occursIn_join.
    exact (in_map (fun r => ("- " ++ r)%string) _ _ Hr). }
  set (cp := newJobAppCopilot jd ev reqs) in *. clearbody cp.
  destruct c as [tone|tone|m]; [| |discriminate];
    cbn [sessionOf] in Hs; injection Hs as <-; cbn [Chat.systemInstruction];
    unfold coverLetterInstruction, questionModeInstruction;
    (split; [apply occursIn_includes; find_piece Hjd|]);
    (split; [apply occursIn_includes; find_piece Hev|]);
    (split; [intros r Hr; apply occursIn_includes;
             pose proof (Hreq r Hr) as H; find_piece H|]);
    intros t [Ht|Ht]; try discriminate; injection Ht as ->;
    apply occursIn_includes;
    pose proof (occursIn_refl t) as H; find_piece H.
Qed.

Lemma instructions_carry_inputs_witness :
  JSText.includes
    (coverLetterInstruction acmeCopilot defaultTone) "- Payments" = true.
Proof.
  exact (proj1 (proj2 (proj2
           (instructions_carry_inputs "Senior engineer, payments"
              "[WORK EXPERIENCE] Acme" ["Rust"; "Payments"]
              (DraftCoverLetter None) _ eq_refl))) "Payments"
           (or_intror (or_introl eq_refl))).
Defined.
